(** * Streaming AES-CBC file service (AES_hardware/main.c)

    A shallow embedding of the device firmware in
    [AES_hardware/main.c]: the framed reader [read_exact_data], the
    PKCS#7 padding codec, the base-64 output encoder, the per-chunk
    cipher adapter [process_file_chunk_with_key] and the session state
    machine [new_stream_file_processing], together with the properties
    of the specification that are stated about them.

    Conventions.
    - A [uint8_t] array is a [list byte]; the list is the whole C object,
      so its length is the capacity of the array.  Lengths, counters and
      times are [uint32_t] values, kept in [Z] with the wrap-around
      written out ([uint32]).
    - A pure function returns [None] where the C code would access an
      array outside its bounds (undefined behaviour in C).
    - Code that talks to the USART or the tick counter runs in the
      [device] monad over a [world]: the receive script, the tick
      counter, the text printed so far and the two global chunk buffers. *)

From Stdlib Require Import ZArith Lia String Ascii DecimalString.
From stdpp Require Import base list.
From coqutil Require Import Byte Z.PushPullMod.

Local Open Scope Z_scope.

(** ** Machine integers *)

Definition uint32 (z : Z) : Z := z mod 2 ^ 32.
Definition uint8 (z : Z) : Z := z mod 2 ^ 8.

(** [#define AES_BLOCK_SIZE 16] *)
Definition AES_BLOCK_SIZE : Z := 16.

(** [a[i]] for a [uint32_t] index. *)
Definition load (data : list byte) (i : Z) : option byte :=
  if (0 <=? i) then data !! Z.to_nat i else None.

(** [a[i] = v]; [None] when [i] is outside the array. *)
Definition store (data : list byte) (i : Z) (v : byte) : option (list byte) :=
  if (0 <=? i) && (i <? Z.of_nat (length data))
  then Some (<[Z.to_nat i := v]> data) else None.

(** ** Padding codec *)

(** The [for] loop of [pkcs7_padding]: [n] iterations of
    [data[i] = pad_value; i++]. *)
Fixpoint pkcs7_padding_loop (n : nat) (i : Z) (pad_value : byte)
    (data : list byte) : option (list byte) :=
  match n with
  | O => Some data
  | S n' =>
      match store data i pad_value with
      | Some data' => pkcs7_padding_loop n' (i + 1) pad_value data'
      | None => None
      end
  end.

(** [void pkcs7_padding(uint8_t *data, uint32_t *data_len, uint32_t block_size)].
    Takes the array and [*data_len], returns the array and the new
    [*data_len].  The loop runs from [original_len] while
    [i < original_len + pad_value], the bound being a [uint32_t] sum. *)
Definition pkcs7_padding (data : list byte) (data_len block_size : Z)
    : option (list byte * Z) :=
  if block_size =? 0 then None else
  let pad_value := uint8 (uint32 (block_size - data_len mod block_size)) in
  let original_len := data_len in
  let bound := uint32 (original_len + pad_value) in
  match pkcs7_padding_loop (Z.to_nat (bound - original_len)) original_len
          (byte.of_Z pad_value) data with
  | Some data' => Some (data', bound)
  | None => None
  end.

(** The [for] loop of [pkcs7_unpadding]: [Some true] when the [n] bytes
    from index [i] all equal [pad_value], [Some false] at the first one
    that differs (the early [return -1]). *)
Fixpoint pkcs7_unpadding_loop (n : nat) (i : Z) (pad_value : Z)
    (data : list byte) : option bool :=
  match n with
  | O => Some true
  | S n' =>
      match load data i with
      | Some b =>
          if byte.unsigned b =? pad_value
          then pkcs7_unpadding_loop n' (i + 1) pad_value data
          else Some false
      | None => None
      end
  end.

(** [int pkcs7_unpadding(uint8_t *data, uint32_t *data_len)].  The result
    is the returned [int], the array and the new [*data_len]. *)
Definition pkcs7_unpadding (data : list byte) (data_len : Z)
    : option (Z * list byte * Z) :=
  if data_len =? 0 then Some (-1, data, data_len) else
  match load data (data_len - 1) with
  | None => None
  | Some last =>
      let pad_value := byte.unsigned last in
      if (pad_value =? 0) || (pad_value >? data_len)
      then Some (-1, data, data_len)
      else
        match pkcs7_unpadding_loop (Z.to_nat pad_value)
                (data_len - pad_value) pad_value data with
        | None => None
        | Some false => Some (-1, data, data_len)
        | Some true => Some (0, data, uint32 (data_len - pad_value))
        end
  end.

(** ** The device: tick counter, USART receive side, text output *)

(** What polling the receive side will show.  An entry [(dt, rx)] is one
    poll of the [USART_FLAG_RXDNE] flag: [dt] runs of [SysTick_Handler]
    (one per millisecond) happen before it, and the flag is found set
    with byte [b] in the data register when [rx = Some b], reset when
    [rx = None]. *)
Definition rx_script : Type := list (nat * option byte).

Record world : Type := World {
  system_tick : Z;              (* volatile uint32_t system_tick *)
  usart_rx : rx_script;         (* polls still to come *)
  stdout : list string;         (* lines printed so far, without the newline *)
  input_buffer : list byte;     (* static uint8_t input_buffer[CHUNK_SIZE + 64] *)
  output_buffer : list byte     (* static uint8_t output_buffer[CHUNK_SIZE + 64] *)
}.

(** Why a run has no result. *)
Inductive stuck : Type :=
| Starved       (* the receive script ended while the device was polling *)
| OutOfBounds   (* an array was accessed outside its bounds *)
| OutOfFuel.    (* the iteration bound given to a loop was too small *)

Inductive outcome (A : Type) : Type :=
| Ret (a : A) (w : world)
| Stuck (why : stuck).
Arguments Ret {A} a w.
Arguments Stuck {A} why.

Definition device (A : Type) : Type := world -> outcome A.

Definition ret {A} (a : A) : device A := fun w => Ret a w.

Definition bind {A B} (m : device A) (k : A -> device B) : device B :=
  fun w => match m w with
           | Ret a w' => k a w'
           | Stuck why => Stuck why
           end.

Global Instance device_ret : MRet device := @ret.
Global Instance device_bind : MBind device := fun A B k m => bind m k.

(** A pure step that may hit undefined behaviour. *)
Definition defined {A} (o : option A) : device A :=
  fun w => match o with Some a => Ret a w | None => Stuck OutOfBounds end.

(** The world with more lines printed. *)
Definition emit (lines : list string) (w : world) : world :=
  World (system_tick w) (usart_rx w) (stdout w ++ lines)
        (input_buffer w) (output_buffer w).

(** [printf] of one line. *)
Definition printf (line : string) : device unit :=
  fun w => Ret tt (emit [line] w).

Definition get_input_buffer : device (list byte) := fun w => Ret (input_buffer w) w.
Definition get_output_buffer : device (list byte) := fun w => Ret (output_buffer w) w.

(** The world with new contents of a global buffer. *)
Definition with_input_buffer (data : list byte) (w : world) : world :=
  World (system_tick w) (usart_rx w) (stdout w) data (output_buffer w).
Definition with_output_buffer (data : list byte) (w : world) : world :=
  World (system_tick w) (usart_rx w) (stdout w) (input_buffer w) data.

Definition set_input_buffer (data : list byte) : device unit :=
  fun w => Ret tt (with_input_buffer data w).
Definition set_output_buffer (data : list byte) : device unit :=
  fun w => Ret tt (with_output_buffer data w).

(** [uint32_t get_current_time(void) { return system_tick * 1000; }] *)
Definition get_current_time (tick : Z) : Z := uint32 (tick * 1000).

(** [dt] runs of [SysTick_Handler]: [system_tick++] each. *)
Definition ticks (tick : Z) (dt : nat) : Z := uint32 (tick + Z.of_nat dt).

(** [void send_ack(void)] and [void send_error(const char* message)]. *)
Definition send_ack : device unit := printf "ACK".
Definition send_error (message : string) : device unit :=
  printf ("ERROR:" ++ message)%string.

(** The [while] loop of [clear_receive_buffer]: bytes are read and
    dropped for as long as the flag is found set. *)
Fixpoint clear_receive_buffer_loop (script : rx_script) (tick : Z)
    : option (Z * rx_script) :=
  match script with
  | [] => None
  | (dt, Some _) :: script' => clear_receive_buffer_loop script' (ticks tick dt)
  | (dt, None) :: script' => Some (ticks tick dt, script')
  end.

(** [void clear_receive_buffer(void)] *)
Definition clear_receive_buffer : device unit :=
  fun w => match clear_receive_buffer_loop (usart_rx w) (system_tick w) with
           | Some (tick, script) =>
               Ret tt (World tick script (stdout w) (input_buffer w) (output_buffer w))
           | None => Stuck Starved
           end.

(** ** Framed reader *)

(** State of [read_exact_data] when its loop is left. *)
Record read_result : Type := ReadResult {
  rr_bytes_read : Z;
  rr_data : list byte;
  rr_tick : Z;
  rr_script : rx_script
}.

(** The [while (bytes_read < exact_len)] loop of [read_exact_data].  One
    iteration is one poll of the receive flag followed by one reading of
    the clock. *)
Fixpoint read_exact_data_loop (script : rx_script) (tick : Z)
    (exact_len timeout start_time : Z)
    (bytes_read last_receive_time : Z) (data : list byte)
    : read_result + stuck :=
  if bytes_read <? exact_len then
    match script with
    | [] => inr Starved
    | (dt, Some b) :: script' =>
        let tick := ticks tick dt in
        match store data bytes_read b with
        | None => inr OutOfBounds
        | Some data =>
            let bytes_read := uint32 (bytes_read + 1) in
            let last_receive_time := get_current_time tick in
            read_exact_data_loop script' tick exact_len timeout start_time
              bytes_read last_receive_time data
        end
    | (dt, None) :: script' =>
        let tick := ticks tick dt in
        let current_time := get_current_time tick in
        if uint32 (current_time - last_receive_time) >? 500000 then
          inl (ReadResult bytes_read data tick script')
        else if uint32 (current_time - start_time) >? timeout then
          inl (ReadResult bytes_read data tick script')
        else
          read_exact_data_loop script' tick exact_len timeout start_time
            bytes_read last_receive_time data
    end
  else inl (ReadResult bytes_read data tick script).

(** [uint32_t read_exact_data(uint8_t *data, uint32_t exact_len, uint32_t timeout_ms)].
    The result is [bytes_read] and the array. *)
Definition read_exact_data (data : list byte) (exact_len timeout_ms : Z)
    : device (Z * list byte) :=
  fun w =>
    let bytes_read := 0 in
    let timeout := uint32 (timeout_ms * 1000) in
    let last_receive_time := get_current_time (system_tick w) in
    let start_time := get_current_time (system_tick w) in
    match read_exact_data_loop (usart_rx w) (system_tick w) exact_len timeout
            start_time bytes_read last_receive_time data with
    | inl r =>
        Ret (rr_bytes_read r, rr_data r)
            (World (rr_tick r) (rr_script r) (stdout w)
                   (input_buffer w) (output_buffer w))
    | inr why => Stuck why
    end.

(** ** Number formatting *)

(** [%lu] of a [uint32_t]. *)
Definition fmt_lu (v : Z) : string :=
  NilEmpty.string_of_uint (N.to_uint (Z.to_N v)).

(** [%d] of a [uint32_t] or [int] argument: the 32 bits read as signed. *)
Definition fmt_d (v : Z) : string :=
  NilEmpty.string_of_int (Z.to_int (if v <? 2 ^ 31 then v else v - 2 ^ 32)).

(** ** Output encoder *)

Definition base64_chars : string :=
  "ABCDEFGHIJKLMNOPQRSTUVWXYZabcdefghijklmnopqrstuvwxyz0123456789+/".

(** [base64_chars[n]] *)
Definition base64_char (n : Z) : ascii :=
  match String.get (Z.to_nat n) base64_chars with
  | Some c => c
  | None => "000"%char
  end.

(** The encoding loop of [send_encrypted_data_base64], [n] iterations
    from index [i]; the result is the text written to [b64_buffer]. *)
Fixpoint base64_loop (n : nat) (i : Z) (data : list byte) (len : Z)
    : option string :=
  match n with
  | O => Some EmptyString
  | S n' =>
      d0 ← load data i;
      let triple := Z.shiftl (byte.unsigned d0) 16 in
      triple ← (if i + 1 <? len
                then d1 ← load data (i + 1);
                     Some (Z.lor triple (Z.shiftl (byte.unsigned d1) 8))
                else Some triple);
      triple ← (if i + 2 <? len
                then d2 ← load data (i + 2);
                     Some (Z.lor triple (byte.unsigned d2))
                else Some triple);
      let c0 := base64_char (Z.land (Z.shiftr triple 18) 63) in
      let c1 := base64_char (Z.land (Z.shiftr triple 12) 63) in
      let c2 := if i + 1 <? len
                then base64_char (Z.land (Z.shiftr triple 6) 63) else "="%char in
      let c3 := if i + 2 <? len
                then base64_char (Z.land triple 63) else "="%char in
      rest ← base64_loop n' (i + 3) data len;
      Some (String c0 (String c1 (String c2 (String c3 rest))))
  end.

(** The line printed when the encoded text would not fit. *)
Definition b64_error : string := "ERROR: Base64 buffer too small".

(** [sizeof(b64_buffer)] *)
Definition B64_BUFFER_SIZE : Z := 1500.

(** [void send_encrypted_data_base64(uint8_t *data, uint32_t len)] *)
Definition send_encrypted_data_base64 (data : list byte) (len : Z)
    : device unit :=
  let b64_len := uint32 (4 * (uint32 (len + 2) / 3)) in
  if b64_len >=? B64_BUFFER_SIZE then
    printf b64_error
  else
    b64 ← defined (base64_loop (Z.to_nat ((len + 2) / 3)) 0 data len);
    printf ("B64:" ++ b64)%string.

(** ** Session data *)

Inductive operation_mode_t : Type := OP_ENCRYPT | OP_DECRYPT.

Record session_state_t : Type := Session {
  mode : operation_mode_t;
  iv : list byte;               (* uint8_t iv[16] *)
  total_processed : Z;
  total_file_size : Z;
  is_first_chunk : bool;
  is_last_chunk : bool
}.

Definition set_iv (s : session_state_t) (v : list byte) : session_state_t :=
  Session (mode s) v (total_processed s) (total_file_size s)
          (is_first_chunk s) (is_last_chunk s).

Definition set_total_processed (s : session_state_t) (n : Z) : session_state_t :=
  Session (mode s) (iv s) n (total_file_size s)
          (is_first_chunk s) (is_last_chunk s).

Definition set_is_last_chunk (s : session_state_t) (b : bool) : session_state_t :=
  Session (mode s) (iv s) (total_processed s) (total_file_size s)
          (is_first_chunk s) b.

(** [memcpy(dst, src + off, 16)] into a 16-byte array. *)
Definition memcpy16 (src : list byte) (off : Z) : option (list byte) :=
  if (0 <=? off) && (off + 16 <=? Z.of_nat (length src))
  then Some (take 16 (drop (Z.to_nat off) src)) else None.

(** Bytes written through a pointer to the start of an array. *)
Definition write_prefix (dst src : list byte) : option (list byte) :=
  if (length src <=? length dst)%nat
  then Some (src ++ drop (length src) dst) else None.

(** What [process_file_chunk_with_key] leaves behind: the returned [int],
    [*output_len], the session, and the two arrays it was given. *)
Record chunk_result : Type := ChunkResult {
  cr_ret : Z;
  cr_output_len : Z;
  cr_session : session_state_t;
  cr_input : list byte;
  cr_output : list byte
}.

(** The fields of the vendor's [AES_PARM] the firmware fills in
    ([out] is the array the transform writes to; its bytes are the
    result of [AES_Crypto] below). *)
Inductive AES_direction : Type := AES_ENC | AES_DEC.
Inductive AES_mode : Type := AES_ECB | AES_CBC | AES_CTR.

Record AES_PARM : Type := AesParm {
  AES_in : list byte;
  AES_key : list byte;
  AES_iv : list byte;
  inWordLen : Z;
  keyWordLen : Z;
  Mode : AES_mode;
  En_De : AES_direction
}.

Definition is_AES_CBC (m : AES_mode) : bool :=
  match m with AES_CBC => true | _ => false end.

Definition xor_block (a b : list byte) : list byte := zip_with byte.xor a b.

Section Firmware.

(** [#define CHUNK_SIZE 1024].  The development is parametric in the
    chunk capacity; the firmware is its instance at 1024. *)
Variable CHUNK_SIZE : Z.

(** *** The cipher primitive *)

(** The block transform of the cipher under a 16-byte key: one 16-byte
    block in, one out. *)
Variable block_encrypt : list byte -> list byte -> list byte.
Variable block_decrypt : list byte -> list byte -> list byte.

(** What [AES_Init]/[AES_Crypto] answer to a request that is not a CBC
    pass with a 128-bit key over a positive whole number of blocks:
    [None] for an error code, [Some out] for the bytes written to [out]. *)
Variable AES_irregular : AES_PARM -> option (list byte).

(** Modelled from the spec: the external block-cipher primitive of
    [cm32m4xxr_aes.h] in [AES_CBC] mode, which "performs one CBC
    encrypt/decrypt pass given key+IV+data"; here over [n] blocks. *)
Fixpoint cbc_encrypt (n : nat) (key iv data : list byte) : list byte :=
  match n with
  | O => []
  | S n' =>
      let c := block_encrypt key (xor_block (take 16 data) iv) in
      c ++ cbc_encrypt n' key c (drop 16 data)
  end.

Fixpoint cbc_decrypt (n : nat) (key iv data : list byte) : list byte :=
  match n with
  | O => []
  | S n' =>
      let c := take 16 data in
      xor_block (block_decrypt key c) iv ++ cbc_decrypt n' key c (drop 16 data)
  end.

(** Modelled from the spec: [AES_Init], [AES_Crypto] and [AES_Close] on an
    [AES_PARM]: "init(key, iv, direction, mode=chained-block) -> Result,
    transform(input, input_word_count, output) -> Result, release()".
    [None] is an error code from [AES_Init] or [AES_Crypto]; [Some out]
    is the bytes the transform writes to [AES_Parm.out]. *)
Definition AES_Crypto (parm : AES_PARM) : option (list byte) :=
  if is_AES_CBC (Mode parm) && (keyWordLen parm =? 4)
     && (0 <? inWordLen parm) && (inWordLen parm mod 4 =? 0) then
    let data := take (Z.to_nat (4 * inWordLen parm)) (AES_in parm) in
    let blocks := Z.to_nat (inWordLen parm / 4) in
    Some (match En_De parm with
          | AES_ENC => cbc_encrypt blocks (AES_key parm) (AES_iv parm) data
          | AES_DEC => cbc_decrypt blocks (AES_key parm) (AES_iv parm) data
          end)
  else AES_irregular parm.

(** *** The per-chunk pipeline *)

(** Lines 278-285: the [AES_Parm] of the encrypt branch. *)
Definition encrypt_parm (data_to_encrypt : list byte) (padded_len : Z)
    (session : session_state_t) (key : list byte) : AES_PARM :=
  {| AES_in := data_to_encrypt;
     AES_key := key;
     AES_iv := iv session;
     inWordLen := padded_len / 4;
     keyWordLen := 4;
     Mode := AES_CBC;
     En_De := AES_ENC |}.

(** Lines 310-317: the [AES_Parm] of the decrypt branch. *)
Definition decrypt_parm (input_data : list byte) (input_len : Z)
    (session : session_state_t) (key : list byte) : AES_PARM :=
  {| AES_in := input_data;
     AES_key := key;
     AES_iv := iv session;
     inWordLen := input_len / 4;
     keyWordLen := 4;
     Mode := AES_CBC;
     En_De := AES_DEC |}.

(** Lines 275-303 and 357-359: the cipher call of the encrypt branch on
    [data_to_encrypt], then the chaining-vector update from the last
    cipher block written to [output_data]. *)
Definition encrypt_chunk (data_to_encrypt : list byte) (padded_len : Z)
    (input_len : Z) (output_data : list byte) (session : session_state_t)
    (key : list byte) : option chunk_result :=
  match AES_Crypto (encrypt_parm data_to_encrypt padded_len session key) with
  | None => Some (ChunkResult (-1) 0 session data_to_encrypt output_data)
  | Some out =>
      output_data ← write_prefix output_data out;
      let output_len := padded_len in
      iv' ← memcpy16 output_data (padded_len - 16);
      let session := set_iv session iv' in
      let session :=
        set_total_processed session (uint32 (total_processed session + input_len)) in
      Some (ChunkResult 0 output_len session data_to_encrypt output_data)
  end.

(** Lines 335-351: the padding removal on the last decrypted chunk.  The
    result is the array and [*output_len]. *)
Definition remove_padding (output_data : list byte) (output_len : Z)
    : option (list byte * Z) :=
  last_byte ← load output_data (uint32 (output_len - 1));
  let last_byte := byte.unsigned last_byte in
  if (last_byte <=? 16) && (last_byte >? 0) then
    '(r, output_data', output_len') ← pkcs7_unpadding output_data output_len;
    Some (output_data', output_len')
  else
    Some (output_data, output_len).

(** Lines 307-359: the decrypt branch. *)
Definition decrypt_chunk (input_data : list byte) (input_len : Z)
    (output_data : list byte) (session : session_state_t)
    (key : list byte) : option chunk_result :=
  match AES_Crypto (decrypt_parm input_data input_len session key) with
  | None => Some (ChunkResult (-1) 0 session input_data output_data)
  | Some out =>
      output_data ← write_prefix output_data out;
      let output_len := input_len in
      '(output_data, output_len) ←
        (if is_last_chunk session
         then remove_padding output_data output_len
         else Some (output_data, output_len));
      iv' ← memcpy16 input_data (input_len - 16);
      let session := set_iv session iv' in
      let session :=
        set_total_processed session (uint32 (total_processed session + input_len)) in
      Some (ChunkResult 0 output_len session input_data output_data)
  end.

(** [int process_file_chunk_with_key(mode, input_data, input_len,
    output_data, output_len, session, key)].  Its only caller passes the
    global [input_buffer] as [input_data], so the [memcpy] of the padding
    path copies the array onto itself and [pkcs7_padding] works on
    [input_data]. *)
Definition process_file_chunk_with_key (mode : operation_mode_t)
    (input_data : list byte) (input_len : Z) (output_data : list byte)
    (session : session_state_t) (key : list byte) : option chunk_result :=
  match mode with
  | OP_ENCRYPT =>
      if is_last_chunk session && negb (input_len mod 16 =? 0) then
        if input_len <=? CHUNK_SIZE then
          '(padded, padded_len) ← pkcs7_padding input_data input_len 16;
          encrypt_chunk padded padded_len input_len output_data session key
        else
          Some (ChunkResult (-1) 0 session input_data output_data)
      else
        encrypt_chunk input_data input_len input_len output_data session key
  | OP_DECRYPT =>
      decrypt_chunk input_data input_len output_data session key
  end.

(** *** The session state machine *)

(** Lines 478-479: [remaining] and the length of the next chunk. *)
Definition chunk_size_of (file_size total_received : Z) : Z :=
  let remaining := uint32 (file_size - total_received) in
  if remaining >? CHUNK_SIZE then CHUNK_SIZE else remaining.

(** What the streaming loop hands to the summary: the session,
    [total_received] and [chunk_count]. *)
Definition stream_state : Type := (session_state_t * Z * Z)%type.

(** The [while (total_received < file_size)] loop of
    [new_stream_file_processing] (lines 476-516).  Every iteration that
    does not [break] adds at least one byte to [total_received], so
    [fuel] bounds the number of iterations. *)
Fixpoint stream_loop (fuel : nat) (mode : operation_mode_t) (key : list byte)
    (file_size : Z) (session : session_state_t)
    (total_received chunk_count : Z) : device stream_state :=
  if total_received <? file_size then
    match fuel with
    | O => fun _ => Stuck OutOfFuel
    | S fuel' =>
        let chunk_count := uint32 (chunk_count + 1) in
        let chunk_size := chunk_size_of file_size total_received in
        printf ("WAIT_CHUNK:" ++ fmt_d chunk_size)%string;;
        buf ← get_input_buffer;
        '(received_len, buf) ← read_exact_data buf chunk_size 10000;
        set_input_buffer buf;;
        if received_len =? chunk_size then
          let total_received := uint32 (total_received + received_len) in
          printf ("CHUNK_RECEIVED:" ++ fmt_d received_len)%string;;
          let session :=
            if total_received >=? file_size
            then set_is_last_chunk session true else session in
          out ← get_output_buffer;
          r ← defined (process_file_chunk_with_key mode buf received_len out
                         session key);
          set_input_buffer (cr_input r);;
          set_output_buffer (cr_output r);;
          let session := cr_session r in
          if negb (cr_ret r =? 0) then
            printf "B64:";;
            printf ("CHUNK_PROCESSED:" ++ fmt_d received_len ++ "->" ++ fmt_d 0)%string;;
            mret (session, total_received, chunk_count)
          else
            send_encrypted_data_base64 (cr_output r) (cr_output_len r);;
            printf ("CHUNK_PROCESSED:" ++ fmt_d received_len ++ "->"
                      ++ fmt_d (cr_output_len r))%string;;
            let progress := uint32 (total_received * 100) / file_size in
            printf ("PROGRESS:" ++ fmt_d progress ++ "%")%string;;
            stream_loop fuel' mode key file_size session total_received chunk_count
        else
          mret (session, total_received, chunk_count)
    end
  else mret (session, total_received, chunk_count).

(** Lines 518-526: the summary and the verdict. *)
Definition stream_summary (file_size : Z) (st : stream_state) : device unit :=
  let '(session, total_received, chunk_count) := st in
  printf "STREAM_COMPLETE";;
  printf ("SUMMARY: received=" ++ fmt_lu total_received
            ++ ", processed=" ++ fmt_lu (total_processed session)
            ++ ", chunks=" ++ fmt_lu chunk_count)%string;;
  if total_received =? file_size then
    printf "SUCCESS: All data processed"
  else
    printf ("WARNING: Incomplete: expected=" ++ fmt_lu file_size
              ++ ", received=" ++ fmt_lu total_received)%string.

(** Lines 460-527: the session once the size is accepted. *)
Definition stream_session (mode : operation_mode_t) (key iv : list byte)
    (file_size : Z) : device unit :=
  let session := Session mode iv 0 file_size false false in
  printf "READY_FOR_DATA";;
  st ← stream_loop (Z.to_nat file_size) mode key file_size session 0 0;
  stream_summary file_size st.

(** Lines 446-448: the declared size, big-endian. *)
Definition parse_file_size (size_buffer : list byte) : option Z :=
  b0 ← load size_buffer 0;
  b1 ← load size_buffer 1;
  b2 ← load size_buffer 2;
  b3 ← load size_buffer 3;
  Some (uint32 (Z.lor (Z.lor (Z.lor (Z.shiftl (byte.unsigned b0) 24)
                                    (Z.shiftl (byte.unsigned b1) 16))
                             (Z.shiftl (byte.unsigned b2) 8))
                      (byte.unsigned b3))).

(** Lines 433-527: the size phase and what follows it. *)
Definition await_size (mode : operation_mode_t) (key iv : list byte)
    : device unit :=
  printf "WAIT_SIZE";;
  clear_receive_buffer;;
  '(size_bytes_received, size_buffer) ←
    read_exact_data (replicate 4 Byte.x00) 4 5000;
  if negb (size_bytes_received =? 4) then
    send_error "File size receive failed"
  else
    file_size ← defined (parse_file_size size_buffer);
    printf ("FILE_SIZE:" ++ fmt_lu file_size)%string;;
    if (file_size =? 0) || (file_size >? 1000000) then
      send_error "Invalid file size"
    else
      send_ack;;
      stream_session mode key iv file_size.

(** [uint8_t default_key[16] = {1,2,...,16}] and [default_iv], the same. *)
Definition default_key : list byte :=
  map byte.of_Z [1; 2; 3; 4; 5; 6; 7; 8; 9; 10; 11; 12; 13; 14; 15; 16].
Definition default_iv : list byte :=
  map byte.of_Z [1; 2; 3; 4; 5; 6; 7; 8; 9; 10; 11; 12; 13; 14; 15; 16].

(** Lines 397-431 and on: the key and IV phases. *)
Definition await_key_iv (mode : operation_mode_t) : device unit :=
  printf "WAIT_KEY";;
  clear_receive_buffer;;
  '(key_bytes_received, key) ← read_exact_data (replicate 16 Byte.x00) 16 5000;
  key ← (if negb (key_bytes_received =? 16)
         then printf "Using default key";; mret default_key
         else printf "Custom key received";; mret key);
  send_ack;;
  printf "WAIT_IV";;
  clear_receive_buffer;;
  '(iv_bytes_received, iv) ← read_exact_data (replicate 16 Byte.x00) 16 5000;
  iv ← (if negb (iv_bytes_received =? 16)
        then printf "Using default IV";; mret default_iv
        else printf "Custom IV received";; mret iv);
  send_ack;;
  await_size mode key iv.

(** [void new_stream_file_processing(void)].  [init_systick] programs
    the tick period and leaves the counter alone.  The local arrays are
    read only after [read_exact_data] has filled them, so their initial
    contents do not matter. *)
Definition new_stream_file_processing : device unit :=
  printf "NEW_STREAM_MODE";;
  printf "WAIT_OPERATION";;
  clear_receive_buffer;;
  '(n, op) ← read_exact_data (replicate 1 Byte.x00) 1 1000;
  if negb (n =? 1) then
    send_error "No operation received"
  else
    op_byte ← defined (load op 0);
    let op_byte := byte.unsigned op_byte in
    if (op_byte =? 101) || (op_byte =? 69) then        (* 'e', 'E' *)
      printf "OPERATION:ENCRYPT";;
      send_ack;;
      await_key_iv OP_ENCRYPT
    else if (op_byte =? 100) || (op_byte =? 68) then   (* 'd', 'D' *)
      printf "OPERATION:DECRYPT";;
      send_ack;;
      await_key_iv OP_DECRYPT
    else
      send_error "Invalid operation".

(** *** The stream as a function of the bytes the host sends *)

(** The streaming loop when every [read_exact_data] returns the full
    chunk: the chunks of [data] go through
    [process_file_chunk_with_key] as in [stream_loop], and the result
    is the list of the [output_len] bytes handed to the encoder for
    each chunk.  [None] when a chunk fails or the data ends early. *)
Fixpoint stream_outputs (fuel : nat) (mode : operation_mode_t) (key : list byte)
    (file_size : Z) (session : session_state_t) (total_received : Z)
    (inbuf outbuf : list byte) (data : list byte) : option (list (list byte)) :=
  if total_received <? file_size then
    match fuel with
    | O => None
    | S fuel' =>
        let chunk_size := chunk_size_of file_size total_received in
        let chunk := take (Z.to_nat chunk_size) data in
        if Z.of_nat (length chunk) =? chunk_size then
          inbuf ← write_prefix inbuf chunk;
          let total_received := uint32 (total_received + chunk_size) in
          let session :=
            if total_received >=? file_size
            then set_is_last_chunk session true else session in
          r ← process_file_chunk_with_key mode inbuf chunk_size outbuf session key;
          if cr_ret r =? 0 then
            rest ← stream_outputs fuel' mode key file_size (cr_session r)
                     total_received (cr_input r) (cr_output r)
                     (drop (Z.to_nat chunk_size) data);
            Some (take (Z.to_nat (cr_output_len r)) (cr_output r) :: rest)
          else None
        else None
    end
  else Some [].

(** The whole stream: the bytes the host reassembles from a session of
    [file_size = length data] bytes that are all delivered. *)
Definition stream_file (mode : operation_mode_t) (key iv : list byte)
    (inbuf outbuf : list byte) (data : list byte) : option (list byte) :=
  let file_size := Z.of_nat (length data) in
  outs ← stream_outputs (Z.to_nat file_size) mode key file_size
           (Session mode iv 0 file_size false false) 0 inbuf outbuf data;
  Some (concat outs).

End Firmware.

(** ** A reference configuration *)

(** A stand-in block transform used to run the firmware on concrete
    inputs: the block reversed and xor-ed with the key, and its inverse. *)
Definition toy_encrypt (key block : list byte) : list byte :=
  zip_with byte.xor (rev block) key.
Definition toy_decrypt (key block : list byte) : list byte :=
  rev (zip_with byte.xor block key).

(** The stand-in primitive answers every irregular request with an
    error code. *)
Definition reject_irregular (parm : AES_PARM) : option (list byte) := None.

(** The global buffers at reset: [CHUNK_SIZE + 64] zero bytes. *)
Definition boot_world (script : rx_script) : world :=
  World 0 script [] (replicate 1088 Byte.x00) (replicate 1088 Byte.x00).

(** A host that has every byte ready when polled. *)
Definition prompt (data : list byte) : rx_script :=
  map (fun b => (0%nat, Some b)) data.

(** One poll that finds the receive flag reset, [dt] ms later. *)
Definition idle (dt : nat) : rx_script := [(dt, None)].

(** ** Reading a receive script *)

(** The bytes a stretch of polls delivers. *)
Definition received (pre : rx_script) : list byte := omap snd pre.

(** The milliseconds a stretch of polls takes. *)
Fixpoint elapsed (pre : rx_script) : Z :=
  match pre with
  | [] => 0
  | (dt, _) :: pre' => Z.of_nat dt + elapsed pre'
  end.

(** The milliseconds since the last byte was received, at the end of a
    stretch of polls that starts [s] ms after one. *)
Fixpoint silence (s : Z) (pre : rx_script) : Z :=
  match pre with
  | [] => s
  | (dt, Some _) :: pre' => silence 0 pre'
  | (dt, None) :: pre' => silence (s + Z.of_nat dt) pre'
  end.

(** No poll of the stretch finds the line silent for more than 500 ms or
    the call older than [timeout_ms]; [s] and [e] are the silence and the
    age of the call when the stretch starts. *)
Fixpoint no_timeout (timeout_ms s e : Z) (pre : rx_script) : Prop :=
  match pre with
  | [] => True
  | (dt, Some _) :: pre' => no_timeout timeout_ms 0 (e + Z.of_nat dt) pre'
  | (dt, None) :: pre' =>
      s + Z.of_nat dt <= 500 /\ e + Z.of_nat dt <= timeout_ms /\
      no_timeout timeout_ms (s + Z.of_nat dt) (e + Z.of_nat dt) pre'
  end.

(** The tick counter after a stretch of polls. *)
Definition tick_after (tick : Z) (pre : rx_script) : Z :=
  fold_left (fun t e => ticks t (fst e)) pre tick.

(** ** Assumptions on the cipher and vocabulary of the statements *)

(** The block transform maps 16-byte blocks to 16-byte blocks under a
    16-byte key, and decryption undoes encryption. *)
Definition block_cipher_ok
    (block_encrypt block_decrypt : list byte -> list byte -> list byte) : Prop :=
  forall key block : list byte,
    length key = 16%nat -> length block = 16%nat ->
    length (block_encrypt key block) = 16%nat /\
    length (block_decrypt key block) = 16%nat /\
    block_decrypt key (block_encrypt key block) = block.

(** The first [len] bytes of [data] end in a well-formed PKCS#7 pad: the
    last byte [p] is not 0, is at most [len], and the last [p] bytes all
    equal [p]. *)
Definition padding_ok (data : list byte) (len : Z) : bool :=
  match load data (len - 1) with
  | Some last =>
      let p := byte.unsigned last in
      negb (p =? 0) && (p <=? len)
      && forallb (fun b => byte.unsigned b =? p)
           (take (Z.to_nat p) (drop (Z.to_nat (len - p)) data))
  | None => false
  end.

(** The last byte of the first [len] bytes of [data], as a number; 0 when
    there is none. *)
Definition last_byte_of (data : list byte) (len : Z) : Z :=
  match load data (len - 1) with
  | Some last => byte.unsigned last
  | None => 0
  end.


(** A chunk with its PKCS#7 pad for block size 16. *)
Definition pkcs7_pad (chunk : list byte) : list byte :=
  let p := 16 - Z.of_nat (length chunk) mod 16 in
  chunk ++ replicate (Z.to_nat p) (byte.of_Z p).

(** The bytes of a chunk that go into the cipher on encrypt: padded when
    the chunk is the last one and is not block-aligned. *)
Definition as_encrypted (last : bool) (chunk : list byte) : list byte :=
  if last && negb (Z.of_nat (length chunk) mod 16 =? 0)
  then pkcs7_pad chunk else chunk.


(** The chunk of the end-to-end scenario: the bytes 0x00 to 0x0F. *)
Definition scenario_chunk : list byte :=
  map byte.of_Z [0; 1; 2; 3; 4; 5; 6; 7; 8; 9; 10; 11; 12; 13; 14; 15].

(** The host of the end-to-end scenario: it sends 'E', stays silent
    while the device waits for a key and for an IV, so that both fall
    back to their defaults, then sends the size 16 and the chunk.  The
    polls that find nothing are those of [clear_receive_buffer] before
    each phase and the two that show 501 ms of silence. *)
Definition scenario_script : rx_script :=
  idle 0 ++ prompt [byte.of_Z 69]
  ++ idle 0 ++ idle 501
  ++ idle 0 ++ idle 501
  ++ idle 0 ++ prompt (map byte.of_Z [0; 0; 0; 16])
  ++ prompt scenario_chunk.

(** The firmware at its chunk capacity of 1024 over the stand-in cipher. *)
Definition toy_firmware : device unit :=
  new_stream_file_processing 1024 toy_encrypt toy_decrypt reject_irregular.

Definition toy_stream_file : operation_mode_t -> list byte -> list byte ->
    list byte -> list byte -> list byte -> option (list byte) :=
  stream_file 1024 toy_encrypt toy_decrypt reject_irregular.

(** A global buffer at reset. *)
Definition zero_buffer : list byte := replicate 1088 Byte.x00.


(** A 16-byte ciphertext under the stand-in cipher whose decryption ends
    in 5, 3: the last byte reads as a pad length, the bytes before it do
    not match. *)
Definition garbled_ciphertext : list byte :=
  cbc_encrypt toy_encrypt 1 default_key default_iv
    (replicate 14 Byte.x00 ++ map byte.of_Z [5; 3]).

(** A 32-byte ciphertext under the stand-in cipher whose decryption ends
    in twenty bytes of value 20. *)
Definition twenty_ciphertext : list byte :=
  cbc_encrypt toy_encrypt 2 default_key default_iv
    (replicate 12 Byte.x00 ++ replicate 20 (byte.of_Z 20)).

(** The text the encoder produces for a sequence of bytes. *)
Definition base64_encode (bytes : list byte) : option string :=
  let len := Z.of_nat (length bytes) in
  base64_loop (Z.to_nat ((len + 2) / 3)) 0 bytes len.

(** The lines the streaming loop prints for chunks that arrive whole and
    are processed successfully, given the bytes each chunk yields. *)
Fixpoint stream_lines (CHUNK_SIZE file_size total_received : Z)
    (outs : list (list byte)) : option (list string) :=
  match outs with
  | [] => Some []
  | out :: outs' =>
      let n := chunk_size_of CHUNK_SIZE file_size total_received in
      let total_received := uint32 (total_received + n) in
      b64 ← base64_encode out;
      rest ← stream_lines CHUNK_SIZE file_size total_received outs';
      Some ([("WAIT_CHUNK:" ++ fmt_d n)%string;
             ("CHUNK_RECEIVED:" ++ fmt_d n)%string;
             ("B64:" ++ b64)%string;
             ("CHUNK_PROCESSED:" ++ fmt_d n ++ "->"
                ++ fmt_d (Z.of_nat (length out)))%string;
             ("PROGRESS:" ++ fmt_d (uint32 (total_received * 100) / file_size)
                ++ "%")%string] ++ rest)
  end.

(** ** Console input and the command loop *)

(** The polling loop of [_get_char]: every poll that finds the receive
    flag reset takes one off [timeout]; the loop gives up with -1 when
    [timeout] reaches 0 and ends with the byte of the data register at
    the first poll that finds the flag set. *)
Fixpoint _get_char_loop (script : rx_script) (tick timeout : Z)
    : option (Z * Z * rx_script) :=
  match script with
  | [] => None
  | (dt, Some b) :: script' => Some (byte.unsigned b, ticks tick dt, script')
  | (dt, None) :: script' =>
      let tick := ticks tick dt in
      let timeout := uint32 (timeout - 1) in
      if timeout =? 0 then Some (-1, tick, script')
      else _get_char_loop script' tick timeout
  end.

(** [int _get_char(void)] *)
Definition _get_char : device Z :=
  fun w => match _get_char_loop (usart_rx w) (system_tick w) 5000000 with
           | Some (ch, tick, script) =>
               Ret ch (World tick script (stdout w) (input_buffer w) (output_buffer w))
           | None => Stuck Starved
           end.

(** [%c] of an [int] argument: the character of its low eight bits. *)
Definition fmt_c (v : Z) : string :=
  String (ascii_of_N (Z.to_N (v mod 256))) EmptyString.

Section Console.

Variable CHUNK_SIZE : Z.
Variable block_encrypt block_decrypt : list byte -> list byte -> list byte.
Variable AES_irregular : AES_PARM -> option (list byte).

(** Lines 548-578: one pass through the body of the [while (1)] loop of
    [main]. *)
Definition main_iteration : device unit :=
  printf "Initializing...";;
  clear_receive_buffer;;
  printf "MCU Startup Successful!";;
  printf "READY";;
  choice ← _get_char;
  printf ("MODE:" ++ fmt_c choice)%string;;
  (if (choice =? 110) || (choice =? 78) then            (* 'n', 'N' *)
     printf "Starting New Stream Processing...";;
     new_stream_file_processing CHUNK_SIZE block_encrypt block_decrypt AES_irregular
   else if (choice =? 114) || (choice =? 82) then       (* 'r', 'R' *)
     printf "Software reset..."
   else
     printf "Invalid choice");;
  printf "Operation completed. Waiting for next command...";;
  clear_receive_buffer.

(** [int main(void)], the first [iterations] passes of its endless loop.
    The clock, pin and USART set-up before the loop does not touch the
    tick counter, the text output or the chunk buffers. *)
Fixpoint main (iterations : nat) : device unit :=
  match iterations with
  | O => mret tt
  | S n => main_iteration;; main n
  end.

End Console.

(** ** Vocabulary of the further properties *)

(** The position of a character in [base64_chars]. *)
Definition base64_index (c : ascii) : option Z :=
  option_map Z.of_nat (index 0 (String c EmptyString) base64_chars).

(** The three bytes of a 24-bit group. *)
Definition triple_bytes (triple : Z) : list byte :=
  [byte.of_Z (Z.land (Z.shiftr triple 16) 255);
   byte.of_Z (Z.land (Z.shiftr triple 8) 255);
   byte.of_Z (Z.land triple 255)].

(** Base-64 decoding as the host applies it to a [B64:] line: four
    characters give three bytes, [xx==] gives one and [xxx=] two. *)
Fixpoint base64_decode (s : string) : option (list byte) :=
  match s with
  | EmptyString => Some []
  | String c0 (String c1 (String c2 (String c3 rest))) =>
      i0 ← base64_index c0;
      i1 ← base64_index c1;
      let hi := Z.lor (Z.shiftl i0 18) (Z.shiftl i1 12) in
      if Ascii.eqb c2 "="%char then
        if Ascii.eqb c3 "="%char then
          match rest with
          | EmptyString => Some (take 1 (triple_bytes hi))
          | _ => None
          end
        else None
      else
        i2 ← base64_index c2;
        let hi := Z.lor hi (Z.shiftl i2 6) in
        if Ascii.eqb c3 "="%char then
          match rest with
          | EmptyString => Some (take 2 (triple_bytes hi))
          | _ => None
          end
        else
          i3 ← base64_index c3;
          bytes ← base64_decode rest;
          Some (triple_bytes (Z.lor hi i3) ++ bytes)
  | _ => None
  end.

(** A stretch of polls none of which finds a byte. *)
Definition all_idle (pre : rx_script) : Prop := received pre = [].


(** A run that stays inside its arrays and within its iteration bound:
    it returns in a state that satisfies [post], or it stops because the
    receive script has no more polls. *)
Definition runs_safely {A} (m : device A) (w : world)
    (post : A -> world -> Prop) : Prop :=
  match m w with
  | Ret a w' => post a w'
  | Stuck why => why = Starved
  end.

(** The two chunk buffers have their declared size. *)
Definition buffers_ok (CHUNK_SIZE : Z) (w : world) : Prop :=
  Z.of_nat (length (input_buffer w)) = CHUNK_SIZE + 64 /\
  Z.of_nat (length (output_buffer w)) = CHUNK_SIZE + 64.

(** ** A host that follows the prompts *)

(** The command byte that selects the direction: 'e' or 'd'. *)
Definition op_byte (mode : operation_mode_t) : byte :=
  match mode with
  | OP_ENCRYPT => byte.of_Z 101
  | OP_DECRYPT => byte.of_Z 100
  end.

(** The four bytes of a size, most significant first. *)
Definition size_bytes (n : Z) : list byte :=
  map byte.of_Z [n / 2 ^ 24; n / 2 ^ 16 mod 256; n / 2 ^ 8 mod 256; n mod 256].

(** A stretch of polls that delivers [bytes] in time for a read with
    the budget [timeout_ms]: no poll of it finds the line silent for
    more than 500 ms or the read older than [timeout_ms], and it ends
    with the last of the bytes. *)
Definition in_time (timeout_ms : Z) (bytes : list byte) (pre : rx_script) : Prop :=
  received pre = bytes /\ no_timeout timeout_ms 0 0 pre /\
  forall dt, last pre <> Some (dt, None).

(** The stretches of polls that deliver a file in pieces of [size]
    bytes, the last one shorter when the file is no multiple of [size],
    each piece in time for the 10 s budget of a chunk read. *)
Fixpoint chunks_in_time (size : nat) (data : list byte) (segments : list rx_script)
    : Prop :=
  match segments with
  | [] => data = []
  | pre :: segments' =>
      data <> [] /\ in_time 10000 (take size data) pre /\
      chunks_in_time size (drop size data) segments'
  end.


(** The line as the device finds it when the host waits for each prompt
    before it sends the next item: the poll with which the device
    clears its receive side finds nothing ([idle]), and the polls of the
    item follow; the chunks of the file come one after the other. *)
Definition host_script (d1 d2 d3 d4 : nat)
    (operation key iv size : rx_script) (chunks : list rx_script) : rx_script :=
  idle d1 ++ operation
  ++ idle d2 ++ key
  ++ idle d3 ++ iv
  ++ idle d4 ++ size
  ++ concat chunks.

(** The payload of a [B64:] line. *)
Definition b64_payload (line : string) : option string :=
  match line with
  | String "B" (String "6" (String "4" (String ":" s))) => Some s
  | _ => None
  end.

(** What the host puts together from the lines it reads: the decoded
    payloads of the [B64:] lines, in order. *)
Fixpoint host_reassembles (lines : list string) : option (list byte) :=
  match lines with
  | [] => Some []
  | line :: lines' =>
      match b64_payload line with
      | None => host_reassembles lines'
      | Some s =>
          bytes ← base64_decode s;
          tail ← host_reassembles lines';
          Some (bytes ++ tail)
      end
  end.

(** The line that acknowledges the direction. *)
Definition operation_line (mode : operation_mode_t) : string :=
  match mode with
  | OP_ENCRYPT => "OPERATION:ENCRYPT"
  | OP_DECRYPT => "OPERATION:DECRYPT"
  end.

(** * Properties *)

(** ** Machine integers and arrays *)

Lemma uint32_small z : 0 <= z < 2 ^ 32 -> uint32 z = z.
Proof. intros H. unfold uint32. apply Z.mod_small. exact H. Qed.

Lemma uint8_small z : 0 <= z < 2 ^ 8 -> uint8 z = z.
Proof. intros H. unfold uint8. apply Z.mod_small. exact H. Qed.

Lemma unsigned_of_Z_small z : 0 <= z < 256 -> byte.unsigned (byte.of_Z z) = z.
Proof.
  intros H. rewrite byte.unsigned_of_Z. unfold byte.wrap.
  apply Z.mod_small. lia.
Qed.

Lemma load_Some (data : list byte) i b :
  load data i = Some b <-> 0 <= i /\ data !! Z.to_nat i = Some b.
Proof.
  unfold load. destruct (Z.leb_spec 0 i); split; intros; try tauto; try lia.
  - discriminate.
Qed.

Lemma load_in_range (data : list byte) i :
  0 <= i < Z.of_nat (length data) -> exists b, load data i = Some b.
Proof.
  intros H. unfold load. destruct (Z.leb_spec 0 i); [|lia].
  destruct (lookup_lt_is_Some_2 data (Z.to_nat i)) as [b Hb]; [lia|].
  exists b. exact Hb.
Qed.

Lemma store_in_range (data : list byte) i v :
  0 <= i < Z.of_nat (length data) ->
  store data i v = Some (<[Z.to_nat i := v]> data).
Proof.
  intros H. unfold store.
  destruct (Z.leb_spec 0 i); [|lia].
  destruct (Z.ltb_spec i (Z.of_nat (length data))); [|lia]. reflexivity.
Qed.

(** ** Padding codec *)

Lemma pkcs7_padding_loop_fill n : forall i v (data : list byte),
  0 <= i -> i + Z.of_nat n <= Z.of_nat (length data) ->
  pkcs7_padding_loop n i v data =
    Some (take (Z.to_nat i) data ++ replicate n v
            ++ drop (Z.to_nat i + n) data).
Proof.
  induction n as [|n IH]; intros i v data Hi Hlen; simpl.
  - rewrite Nat.add_0_r, take_drop. reflexivity.
  - rewrite store_in_range by lia.
    rewrite IH by (rewrite ?length_insert; lia).
    f_equal.
    replace (Z.to_nat (i + 1)) with (S (Z.to_nat i)) by lia.
    rewrite (take_S_r _ _ v) by (apply list_lookup_insert_eq; lia).
    rewrite take_insert_ge by lia.
    rewrite drop_insert_lt by lia.
    rewrite <- app_assoc. simpl. rewrite Nat.add_succ_r. reflexivity.
Qed.

Lemma pkcs7_unpadding_loop_forallb n : forall i pad_value (data : list byte),
  0 <= i -> i + Z.of_nat n <= Z.of_nat (length data) ->
  pkcs7_unpadding_loop n i pad_value data =
    Some (forallb (fun b => byte.unsigned b =? pad_value)
            (take n (drop (Z.to_nat i) data))).
Proof.
  induction n as [|n IH]; intros i pad_value data Hi Hlen; simpl.
  - reflexivity.
  - destruct (load_in_range data i) as [b Hb]; [lia|].
    rewrite Hb. apply load_Some in Hb as [_ Hb].
    rewrite (drop_S _ _ _ Hb). simpl.
    destruct (byte.unsigned b =? pad_value); [|reflexivity].
    rewrite IH by lia.
    replace (Z.to_nat (i + 1)) with (S (Z.to_nat i)) by lia. reflexivity.
Qed.

Lemma pad_value_16 L :
  0 <= L -> uint8 (uint32 (16 - L mod 16)) = 16 - L mod 16.
Proof.
  intros HL. pose proof (Z.mod_pos_bound L 16 ltac:(lia)).
  rewrite uint32_small by lia. apply uint8_small. lia.
Qed.

(** The array and length [pkcs7_padding] produces for block size 16. *)
Lemma pkcs7_padding_16 (data : list byte) L :
  0 <= L -> Z.of_nat (length data) < 2 ^ 32 ->
  L + (16 - L mod 16) <= Z.of_nat (length data) ->
  pkcs7_padding data L 16 =
    Some (take (Z.to_nat L) data
            ++ replicate (Z.to_nat (16 - L mod 16)) (byte.of_Z (16 - L mod 16))
            ++ drop (Z.to_nat (L + (16 - L mod 16))) data,
          L + (16 - L mod 16)).
Proof.
  intros HL Hcap Hfit. pose proof (Z.mod_pos_bound L 16 ltac:(lia)).
  unfold pkcs7_padding. simpl (16 =? 0).  cbv iota.
  rewrite pad_value_16 by lia.
  rewrite uint32_small by lia.
  rewrite pkcs7_padding_loop_fill by lia.
  replace (L + (16 - L mod 16) - L) with (16 - L mod 16) by lia.
  replace (Z.to_nat L + Z.to_nat (16 - L mod 16))%nat
    with (Z.to_nat (L + (16 - L mod 16))) by lia.
  reflexivity.
Qed.

Lemma forallb_replicate {A} (f : A -> bool) n x :
  f x = true -> forallb f (replicate n x) = true.
Proof. intros H. induction n; simpl; [reflexivity|]. rewrite H. exact IHn. Qed.

(** C4.  [pkcs7_padding] with block size 16 appends [16 - L mod 16]
    bytes of that value after the first [L] bytes — between 1 and 16 of
    them, a full block of 16 when [L] is a multiple of 16 — and leaves
    the rest of the array alone; [pkcs7_unpadding] on the result returns
    0 and restores the length [L] without touching the array, so the
    first [L] bytes are the original ones. *)
Theorem pkcs7_padding_unpadding_roundtrip (data : list byte) (L : Z) :
  0 <= L -> Z.of_nat (length data) < 2 ^ 32 ->
  L + (16 - L mod 16) <= Z.of_nat (length data) ->
  let p := 16 - L mod 16 in
  exists padded,
    pkcs7_padding data L 16 = Some (padded, L + p) /\
    1 <= p <= 16 /\
    (L mod 16 = 0 -> p = 16) /\
    padded = take (Z.to_nat L) data ++ replicate (Z.to_nat p) (byte.of_Z p)
               ++ drop (Z.to_nat (L + p)) data /\
    length padded = length data /\
    take (Z.to_nat L) padded = take (Z.to_nat L) data /\
    (forall i, L <= i < L + p -> load padded i = Some (byte.of_Z p)) /\
    byte.unsigned (byte.of_Z p) = p /\
    pkcs7_unpadding padded (L + p) = Some (0, padded, L).
Proof.
  intros HL Hcap Hfit p.
  pose proof (Z.mod_pos_bound L 16 ltac:(lia)) as Hm.
  assert (Hp : 1 <= p <= 16) by (unfold p; lia).
  assert (Hu : byte.unsigned (byte.of_Z p) = p) by (apply unsigned_of_Z_small; lia).
  eexists. split; [apply pkcs7_padding_16; assumption|].
  fold p.
  set (padded := take (Z.to_nat L) data ++ replicate (Z.to_nat p) (byte.of_Z p)
                   ++ drop (Z.to_nat (L + p)) data).
  assert (Hlen : length padded = length data).
  { unfold padded. rewrite !length_app, length_take, length_replicate, length_drop. lia. }
  assert (Hpad : forall i, L <= i < L + p -> load padded i = Some (byte.of_Z p)).
  { intros i Hi. apply load_Some. split; [lia|]. unfold padded.
    rewrite lookup_app_r by (rewrite length_take; lia).
    rewrite lookup_app_l by (rewrite length_take, length_replicate; lia).
    apply lookup_replicate_2. rewrite length_take. lia. }
  assert (Htake : take (Z.to_nat L) padded = take (Z.to_nat L) data).
  { unfold padded. rewrite take_app_le by (rewrite length_take; lia).
    rewrite take_take. f_equal. lia. }
  repeat split; try lia; try assumption.
  unfold pkcs7_unpadding.
  destruct (Z.eqb_spec (L + p) 0); [lia|].
  rewrite (Hpad (L + p - 1)) by lia. rewrite Hu.
  destruct (Z.eqb_spec p 0); [lia|].
  destruct (Z.gtb_spec p (L + p)); [lia|]. simpl.
  rewrite pkcs7_unpadding_loop_forallb by lia.
  replace (L + p - p) with L by lia.
  assert (Hall : forallb (fun b => byte.unsigned b =? p)
                   (take (Z.to_nat p) (drop (Z.to_nat L) padded)) = true).
  { unfold padded. rewrite drop_app_length' by (rewrite length_take; lia).
    rewrite take_app_length' by (rewrite length_replicate; lia).
    apply forallb_replicate. rewrite Hu. apply Z.eqb_refl. }
  rewrite Hall. rewrite uint32_small by lia. reflexivity.
Qed.

Lemma forallb_false_lookup {A} (f : A -> bool) (l : list A) :
  forallb f l = false <-> exists (j : nat) x, l !! j = Some x /\ f x = false.
Proof.
  induction l as [|a l IH]; simpl.
  - split; [discriminate|]. intros (j & x & H & _). discriminate.
  - rewrite andb_false_iff, IH. split.
    + intros [Ha | (j & x & Hj & Hx)].
      * exists 0%nat, a. auto.
      * exists (S j), x. auto.
    + intros (j & x & Hj & Hx). destruct j as [|j]; simpl in Hj.
      * left. congruence.
      * right. eauto.
Qed.

(** C5.  For a length within the array, [pkcs7_unpadding] returns -1
    exactly when the length is zero, or the last byte [p] is 0, or [p]
    exceeds the length, or one of the last [p] bytes differs from [p];
    otherwise it returns 0 and the length decreases by [p].  When it
    returns -1 the length is unchanged, and the array is unchanged in
    either case. *)
Theorem pkcs7_unpadding_invalid_padding (data : list byte) (len : Z) :
  0 <= len <= Z.of_nat (length data) -> len < 2 ^ 32 ->
  exists r len',
    pkcs7_unpadding data len = Some (r, data, len') /\
    (r = -1 \/ r = 0) /\
    (r = -1 <->
       len = 0 \/
       exists last, load data (len - 1) = Some last /\
         let p := byte.unsigned last in
         p = 0 \/ p > len \/
         exists i b, len - p <= i < len /\ load data i = Some b /\
                     byte.unsigned b <> p) /\
    (r = -1 -> len' = len) /\
    (r = 0 -> exists last, load data (len - 1) = Some last /\
                           len' = len - byte.unsigned last).
Proof.
  intros Hlen Hmax. unfold pkcs7_unpadding.
  destruct (Z.eqb_spec len 0) as [H0|H0].
  { exists (-1), len. repeat split; auto; try discriminate. }
  destruct (load_in_range data (len - 1)) as [last Hlast]; [lia|].
  rewrite Hlast. set (p := byte.unsigned last).
  pose proof (byte.unsigned_range last) as Hrange. fold p in Hrange.
  destruct (Z.eqb_spec p 0) as [Hp0|Hp0]; simpl.
  { exists (-1), len. repeat split; auto; try discriminate.
    intros _. right. exists last. split; [reflexivity|]. left. exact Hp0. }
  destruct (Z.gtb_spec p len) as [Hgt|Hgt].
  { exists (-1), len. repeat split; auto; try discriminate.
    intros _. right. exists last. split; [reflexivity|]. right. left. lia. }
  rewrite pkcs7_unpadding_loop_forallb by lia.
  destruct (forallb _ _) eqn:Hall.
  - exists 0, (uint32 (len - p)). rewrite uint32_small by lia.
    repeat split; auto; try discriminate.
    + intros [Hz | (last' & Hl' & Hbad)]; [lia|].
      assert (last' = last) by congruence. subst last'. simpl in Hbad. fold p in Hbad.
      destruct Hbad as [Hbad | [Hbad | (i & b & Hi & Hb & Hne)]]; try lia.
      exfalso. rewrite forallb_forall in Hall.
      apply load_Some in Hb as [_ Hb].
      assert (Hin : In b (take (Z.to_nat p) (drop (Z.to_nat (len - p)) data))).
      { apply list_elem_of_In, list_elem_of_lookup.
        exists (Z.to_nat i - Z.to_nat (len - p))%nat.
        rewrite lookup_take_lt by lia. rewrite lookup_drop.
        rewrite <- Hb. f_equal. lia. }
      apply Hall in Hin. apply Z.eqb_eq in Hin. contradiction.
    + intros _. exists last. split; reflexivity.
  - exists (-1), len. repeat split; auto; try discriminate.
    intros _. right. exists last. split; [reflexivity|]. simpl. fold p.
    right. right. apply forallb_false_lookup in Hall as (j & x & Hj & Hx).
    apply lookup_take_Some in Hj as [Hj Hjp]. rewrite lookup_drop in Hj.
    exists (len - p + Z.of_nat j), x. split; [lia|]. split.
    + apply load_Some. split; [lia|]. rewrite <- Hj. f_equal. lia.
    + apply Z.eqb_neq. exact Hx.
Qed.

(** ** The padding codec at other block sizes *)

Lemma pkcs7_padding_small_block (data : list byte) L bs :
  0 <= L -> Z.of_nat (length data) < 2 ^ 32 -> 1 <= bs <= 255 ->
  L + (bs - L mod bs) <= Z.of_nat (length data) ->
  pkcs7_padding data L bs =
    Some (take (Z.to_nat L) data
            ++ replicate (Z.to_nat (bs - L mod bs)) (byte.of_Z (bs - L mod bs))
            ++ drop (Z.to_nat (L + (bs - L mod bs))) data,
          L + (bs - L mod bs)).
Proof.
  intros HL Hcap Hbs Hfit. pose proof (Z.mod_pos_bound L bs ltac:(lia)).
  unfold pkcs7_padding. destruct (Z.eqb_spec bs 0); [lia|].
  rewrite (uint32_small (bs - L mod bs)) by lia.
  rewrite uint8_small by lia.
  rewrite uint32_small by lia.
  rewrite pkcs7_padding_loop_fill by lia.
  replace (L + (bs - L mod bs) - L) with (bs - L mod bs) by lia.
  replace (Z.to_nat L + Z.to_nat (bs - L mod bs))%nat
    with (Z.to_nat (L + (bs - L mod bs))) by lia.
  reflexivity.
Qed.

(** X1.  The padding codec at other block sizes than the 16 of its one
    call site.  For every block size from 1 to 255 [pkcs7_padding] makes
    the length the next multiple of the block size above [L], with 1 to
    [block_size] bytes of pad, and [pkcs7_unpadding] takes the pad off
    again.  The pad length is kept in one byte: at block size 256 an
    aligned input gets a pad of length 0, that is, none.  At block size
    0 the function divides by zero. *)
Theorem pkcs7_padding_block_sizes (data : list byte) (L : Z) :
  0 <= L -> Z.of_nat (length data) < 2 ^ 32 ->
  (forall bs, 1 <= bs <= 255 ->
     let p := bs - L mod bs in
     L + p <= Z.of_nat (length data) ->
     exists padded,
       pkcs7_padding data L bs = Some (padded, L + p) /\
       1 <= p <= bs /\ (L + p) mod bs = 0 /\
       take (Z.to_nat L) padded = take (Z.to_nat L) data /\
       pkcs7_unpadding padded (L + p) = Some (0, padded, L)) /\
  (L mod 256 = 0 -> L <= Z.of_nat (length data) ->
   pkcs7_padding data L 256 = Some (data, L)) /\
  pkcs7_padding data L 0 = None.
Proof.
  intros HL Hcap. split; [|split].
  - intros bs Hbs p Hfit.
    pose proof (Z.mod_pos_bound L bs ltac:(lia)) as Hm.
    assert (Hp : 1 <= p <= bs) by (unfold p; lia).
    assert (Hu : byte.unsigned (byte.of_Z p) = p)
      by (apply unsigned_of_Z_small; lia).
    eexists. split; [apply pkcs7_padding_small_block; assumption|].
    fold p.
    set (padded := take (Z.to_nat L) data ++ replicate (Z.to_nat p) (byte.of_Z p)
                     ++ drop (Z.to_nat (L + p)) data).
    assert (Hpad : forall i, L <= i < L + p -> load padded i = Some (byte.of_Z p)).
    { intros i Hi. apply load_Some. split; [lia|]. unfold padded.
      rewrite lookup_app_r by (rewrite length_take; lia).
      rewrite lookup_app_l by (rewrite length_take, length_replicate; lia).
      apply lookup_replicate_2. rewrite length_take. lia. }
    split; [exact Hp|]. split; [|split].
    + unfold p. pose proof (Z.div_mod L bs ltac:(lia)).
      replace (L + (bs - L mod bs)) with ((L / bs + 1) * bs) by lia.
      apply Z.mod_mul. lia.
    + unfold padded. rewrite take_app_le by (rewrite length_take; lia).
      rewrite take_take. f_equal. lia.
    + unfold pkcs7_unpadding.
      destruct (Z.eqb_spec (L + p) 0); [lia|].
      rewrite (Hpad (L + p - 1)) by lia. rewrite Hu.
      destruct (Z.eqb_spec p 0); [lia|].
      destruct (Z.gtb_spec p (L + p)); [lia|]. simpl.
      rewrite pkcs7_unpadding_loop_forallb;
        [|lia|unfold padded;
              rewrite !length_app, length_take, length_replicate, length_drop; lia].
      replace (L + p - p) with L by lia.
      assert (Hall : forallb (fun b => byte.unsigned b =? p)
                       (take (Z.to_nat p) (drop (Z.to_nat L) padded)) = true).
      { unfold padded. rewrite drop_app_length' by (rewrite length_take; lia).
        rewrite take_app_length' by (rewrite length_replicate; lia).
        apply forallb_replicate. rewrite Hu. apply Z.eqb_refl. }
      rewrite Hall. rewrite uint32_small by lia. reflexivity.
  - intros Hal Hfit. unfold pkcs7_padding. simpl (256 =? 0). cbv iota.
    rewrite Hal. simpl. rewrite Z.add_0_r, (uint32_small L) by lia.
    rewrite Z.sub_diag. reflexivity.
  - reflexivity.
Qed.

(** ** Framed reader *)

Lemma uint32_le z : 0 <= z -> uint32 z <= z.
Proof. intros H. unfold uint32. apply Z.mod_le; lia. Qed.

Lemma uint32_nonneg z : 0 <= uint32 z.
Proof. unfold uint32. apply Z.mod_pos_bound. lia. Qed.

Lemma get_current_time_ticks tick dt x :
  uint32 (get_current_time (ticks tick dt) - x) =
  uint32 (uint32 (get_current_time tick - x) + Z.of_nat dt * 1000).
Proof. unfold get_current_time, ticks, uint32. Z.mod_equality. Qed.

Lemma get_current_time_same tick :
  uint32 (get_current_time tick - get_current_time tick) = uint32 (0 * 1000).
Proof. rewrite Z.sub_diag. reflexivity. Qed.

Lemma clock_step tick dt x s :
  uint32 (get_current_time tick - x) = uint32 (s * 1000) ->
  uint32 (get_current_time (ticks tick dt) - x) = uint32 ((s + Z.of_nat dt) * 1000).
Proof.
  intros H. rewrite get_current_time_ticks, H. unfold uint32. Z.mod_equality.
Qed.

Lemma received_app pre1 pre2 : received (pre1 ++ pre2) = received pre1 ++ received pre2.
Proof. unfold received. apply omap_app. Qed.

Lemma read_exact_data_loop_safe exact_len timeout start_time :
  forall script tick bytes_read last_receive_time data s e r,
  0 <= bytes_read -> exact_len < 2 ^ 32 -> 0 <= s -> 0 <= e ->
  uint32 (get_current_time tick - last_receive_time) = uint32 (s * 1000) ->
  uint32 (get_current_time tick - start_time) = uint32 (e * 1000) ->
  read_exact_data_loop script tick exact_len timeout start_time
    bytes_read last_receive_time data = inl r ->
  exists pre,
    script = pre ++ rr_script r /\
    rr_tick r = tick_after tick pre /\
    rr_bytes_read r = bytes_read + Z.of_nat (length (received pre)) /\
    (bytes_read <= exact_len -> rr_bytes_read r <= exact_len) /\
    rr_data r = take (Z.to_nat bytes_read) data ++ received pre
                  ++ drop (Z.to_nat bytes_read + length (received pre)) data /\
    (rr_bytes_read r < exact_len ->
       500000 < silence s pre * 1000 \/ timeout < (e + elapsed pre) * 1000).
Proof.
  induction script as [|[dt rx] script IH];
    intros tick bytes_read last data s e r Hbr Hmax Hs He Hlast Hstart Hrun;
    simpl in Hrun.
  - destruct (Z.ltb_spec bytes_read exact_len); [discriminate|].
    injection Hrun as <-. exists []. simpl.
    rewrite Z.add_0_r, Nat.add_0_r, take_drop. repeat split; auto; lia.
  - destruct (Z.ltb_spec bytes_read exact_len) as [Hlt|Hge].
    2:{ injection Hrun as <-. exists []. simpl.
        rewrite Z.add_0_r, Nat.add_0_r, take_drop. repeat split; auto; lia. }
    destruct rx as [b|].
    + destruct (store data bytes_read b) as [data1|] eqn:Hst; [|discriminate].
      unfold store in Hst.
      destruct (Z.leb_spec 0 bytes_read); [|lia].
      destruct (Z.ltb_spec bytes_read (Z.of_nat (length data))); [|discriminate].
      simpl in Hst. injection Hst as <-.
      rewrite uint32_small in Hrun by lia.
      apply (IH _ _ _ _ 0 (e + Z.of_nat dt)) in Hrun; try lia.
      2:{ apply get_current_time_same. }
      2:{ apply clock_step. exact Hstart. }
      destruct Hrun as (pre & Hscr & Htick & Hn & Hle & Hdata & Hto).
      exists ((dt, Some b) :: pre). simpl.
      change (received ((dt, Some b) :: pre)) with (b :: received pre).
      simpl length. repeat split.
      * f_equal. exact Hscr.
      * exact Htick.
      * lia.
      * intros _. apply Hle. lia.
      * rewrite Hdata.
        replace (Z.to_nat (bytes_read + 1)) with (S (Z.to_nat bytes_read)) by lia.
        rewrite (take_S_r _ _ b) by (apply list_lookup_insert_eq; lia).
        rewrite take_insert_ge by lia.
        rewrite drop_insert_lt by lia.
        rewrite <- app_assoc. simpl. rewrite Nat.add_succ_r. reflexivity.
      * intros Hshort. destruct (Hto Hshort) as [?|?]; [left; lia|right; lia].
    + pose proof (clock_step tick dt _ _ Hlast) as Hlast'.
      pose proof (clock_step tick dt _ _ Hstart) as Hstart'.
      destruct (Z.gtb_spec (uint32 (get_current_time (ticks tick dt) - last)) 500000)
        as [Hsil|Hsil].
      { injection Hrun as <-. exists [(dt, None)]. simpl.
        rewrite Z.add_0_r, Nat.add_0_r, take_drop. repeat split; auto; try lia.
        intros _. left. rewrite Hlast' in Hsil.
        pose proof (uint32_le ((s + Z.of_nat dt) * 1000)). lia. }
      destruct (Z.gtb_spec (uint32 (get_current_time (ticks tick dt) - start_time)) timeout)
        as [Hall|Hall].
      { injection Hrun as <-. exists [(dt, None)]. simpl.
        rewrite Z.add_0_r, Nat.add_0_r, take_drop. repeat split; auto; try lia.
        intros _. right. rewrite Hstart' in Hall.
        pose proof (uint32_le ((e + Z.of_nat dt) * 1000)). lia. }
      apply (IH _ _ _ _ (s + Z.of_nat dt) (e + Z.of_nat dt)) in Hrun; try lia; auto.
      destruct Hrun as (pre & Hscr & Htick & Hn & Hle & Hdata & Hto).
      exists ((dt, None) :: pre). simpl.
      change (received ((dt, None) :: pre)) with (received pre).
      repeat split; auto.
      * f_equal. exact Hscr.
      * intros Hshort. destruct (Hto Hshort) as [?|?]; [left; lia|right; lia].
Qed.

Lemma last_idle_of_no_bytes (pre : rx_script) : forall dt0,
  received pre = [] -> exists dt, last ((dt0, None) :: pre) = Some (dt, None).
Proof.
  induction pre as [|[d [b|]] pre IH]; intros dt0 Hr.
  - exists dt0. reflexivity.
  - discriminate.
  - destruct (IH d Hr) as [dt Hdt]. exists dt. exact Hdt.
Qed.

Lemma read_exact_data_loop_full exact_len timeout_ms start_time rest :
  0 <= timeout_ms -> timeout_ms * 1000 < 2 ^ 32 -> exact_len < 2 ^ 32 ->
  forall pre tick bytes_read last_receive_time data s e,
  0 <= bytes_read -> 0 <= s -> 0 <= e ->
  bytes_read + Z.of_nat (length (received pre)) = exact_len ->
  exact_len <= Z.of_nat (length data) ->
  uint32 (get_current_time tick - last_receive_time) = uint32 (s * 1000) ->
  uint32 (get_current_time tick - start_time) = uint32 (e * 1000) ->
  no_timeout timeout_ms s e pre ->
  (forall dt, last pre <> Some (dt, None)) ->
  read_exact_data_loop (pre ++ rest) tick exact_len (uint32 (timeout_ms * 1000))
    start_time bytes_read last_receive_time data =
  inl (ReadResult exact_len
         (take (Z.to_nat bytes_read) data ++ received pre
            ++ drop (Z.to_nat bytes_read + length (received pre)) data)
         (tick_after tick pre) rest).
Proof.
  intros Hto0 Hto Hmax.
  induction pre as [|[dt rx] pre IH];
    intros tick bytes_read lrt data s e Hbr Hs He Hn Hcap Hlast Hstart Hquiet Hend.
  - simpl in Hn. assert (bytes_read = exact_len) by lia. subst bytes_read.
    simpl. rewrite Nat.add_0_r, take_drop.
    destruct rest as [|[dt rx] rest]; simpl; rewrite Z.ltb_irrefl; reflexivity.
  - assert (Hend' : forall dt', last pre <> Some (dt', None)).
    { intros dt' Hl. apply (Hend dt'). destruct pre; [discriminate|exact Hl]. }
    assert (Hsome : rx = None -> (0 < length (received pre))%nat).
    { intros ->. destruct (received pre) eqn:Hr; [|simpl; lia]. exfalso.
      destruct (last_idle_of_no_bytes pre dt Hr) as [dt' Hdt'].
      exact (Hend dt' Hdt'). }
    simpl app. simpl read_exact_data_loop.
    destruct rx as [b|].
    + change (received ((dt, Some b) :: pre)) with (b :: received pre) in *.
      simpl length in *.
      destruct (Z.ltb_spec bytes_read exact_len); [|lia].
      rewrite store_in_range by lia.
      rewrite (uint32_small (bytes_read + 1)) by lia.
      rewrite (IH _ _ _ _ 0 (e + Z.of_nat dt)); try lia; auto.
      * f_equal. f_equal.
        replace (Z.to_nat (bytes_read + 1)) with (S (Z.to_nat bytes_read)) by lia.
        rewrite (take_S_r _ _ b) by (apply list_lookup_insert_eq; lia).
        rewrite take_insert_ge by lia.
        rewrite drop_insert_lt by lia.
        rewrite <- app_assoc. simpl. rewrite Nat.add_succ_r. reflexivity.
      * rewrite length_insert. lia.
      * apply get_current_time_same.
      * apply clock_step. exact Hstart.
    + change (received ((dt, None) :: pre)) with (received pre) in *.
      specialize (Hsome eq_refl).
      destruct (Z.ltb_spec bytes_read exact_len); [|lia].
      simpl in Hquiet. destruct Hquiet as (Hq1 & Hq2 & Hq3).
      pose proof (clock_step tick dt _ _ Hlast) as Hlast'.
      pose proof (clock_step tick dt _ _ Hstart) as Hstart'.
      rewrite Hlast', Hstart'.
      pose proof (uint32_le ((s + Z.of_nat dt) * 1000)).
      pose proof (uint32_le ((e + Z.of_nat dt) * 1000)).
      pose proof (uint32_small (timeout_ms * 1000) ltac:(lia)) as Htm.
      destruct (Z.gtb_spec (uint32 ((s + Z.of_nat dt) * 1000)) 500000); [lia|].
      destruct (Z.gtb_spec (uint32 ((e + Z.of_nat dt) * 1000))
                  (uint32 (timeout_ms * 1000))); [lia|].
      rewrite (IH _ _ _ _ (s + Z.of_nat dt) (e + Z.of_nat dt)); try lia; auto.
Qed.

(** What [read_exact_data] has done when it returns. *)
Lemma read_exact_data_returns (data : list byte) (exact_len timeout_ms : Z)
    (w : world) n data' w' :
  0 <= exact_len < 2 ^ 32 -> 0 <= timeout_ms -> timeout_ms * 1000 < 2 ^ 32 ->
  read_exact_data data exact_len timeout_ms w = Ret (n, data') w' ->
  exists pre,
    usart_rx w = pre ++ usart_rx w' /\
    n = Z.of_nat (length (received pre)) /\
    n <= exact_len /\
    data' = received pre ++ drop (length (received pre)) data /\
    (n < exact_len -> 500 < silence 0 pre \/ timeout_ms < elapsed pre).
Proof.
  intros Hlen Hto Hfit Hrun. unfold read_exact_data in Hrun.
  destruct (read_exact_data_loop _ _ _ _ _ _ _ _) as [r|] eqn:Hloop; [|discriminate].
  injection Hrun as <- <- <-. simpl.
  apply (read_exact_data_loop_safe _ _ _ _ _ _ _ _ 0 0) in Hloop;
    try lia; try apply get_current_time_same.
  destruct Hloop as (pre & Hscr & _ & Hn & Hle & Hdata & Hshort).
  exists pre. repeat split; auto; try lia.
  intros Hlt. rewrite uint32_small in Hshort by lia.
  destruct (Hshort Hlt); [left|right]; lia.
Qed.

(** [read_exact_data] returns with all the bytes when they come in time. *)
Lemma read_exact_data_full (data : list byte) (exact_len timeout_ms : Z)
    (w : world) pre rest :
  0 <= exact_len < 2 ^ 32 -> 0 <= timeout_ms -> timeout_ms * 1000 < 2 ^ 32 ->
  usart_rx w = pre ++ rest ->
  Z.of_nat (length (received pre)) = exact_len ->
  exact_len <= Z.of_nat (length data) ->
  no_timeout timeout_ms 0 0 pre ->
  (forall dt, last pre <> Some (dt, None)) ->
  read_exact_data data exact_len timeout_ms w =
    Ret (exact_len, received pre ++ drop (length (received pre)) data)
        (World (tick_after (system_tick w) pre) rest (stdout w)
               (input_buffer w) (output_buffer w)).
Proof.
  intros Hlen Hto Hfit Hscr Hn Hcap Hquiet Hend. unfold read_exact_data.
  rewrite Hscr.
  rewrite (read_exact_data_loop_full _ _ _ _ Hto Hfit (proj2 Hlen) pre _ _ _ _ 0 0);
    try lia; auto; try apply get_current_time_same.
Qed.

Lemma received_prompt (data : list byte) : received (prompt data) = data.
Proof.
  induction data as [|b data IH]; [reflexivity|].
  change (received (prompt (b :: data))) with (b :: received (prompt data)).
  rewrite IH. reflexivity.
Qed.

Lemma no_timeout_prompt timeout_ms (data : list byte) : forall s e,
  no_timeout timeout_ms s e (prompt data).
Proof. induction data as [|b data IH]; intros s e; simpl; [exact I|apply IH]. Qed.

Lemma last_prompt (data : list byte) dt : last (prompt data) <> Some (dt, None).
Proof.
  induction data as [|b [|b' data] IH]; try discriminate. exact IH.
Qed.

(** A chunk that is ready when asked for is read whole. *)
Lemma read_exact_data_prompt (data chunk : list byte) (w : world) rest :
  usart_rx w = prompt chunk ++ rest ->
  Z.of_nat (length chunk) <= Z.of_nat (length data) ->
  Z.of_nat (length chunk) < 2 ^ 32 ->
  read_exact_data data (Z.of_nat (length chunk)) 10000 w =
    Ret (Z.of_nat (length chunk), chunk ++ drop (length chunk) data)
        (World (tick_after (system_tick w) (prompt chunk)) rest (stdout w)
               (input_buffer w) (output_buffer w)).
Proof.
  intros Hscr Hcap Hmax.
  rewrite (read_exact_data_full data (Z.of_nat (length chunk)) 10000 w
             (prompt chunk) rest); try lia; try assumption.
  - rewrite received_prompt. reflexivity.
  - rewrite received_prompt. reflexivity.
  - apply no_timeout_prompt.
  - intros dt. apply last_prompt.
Qed.

(** C6.  Provided [timeout_ms * 1000] fits in 32 bits (the call sites
    pass 1000, 5000 and 10000): whenever [read_exact_data] returns, it
    has consumed a stretch [pre] of polls, stored exactly the bytes that
    stretch delivered at the start of the array and nothing else, and
    returns their number, at most [exact_len]; it returns fewer than
    [exact_len] only if the line was silent for more than 500 ms or the
    call is older than [timeout_ms].  And when the polls deliver
    [exact_len] bytes with neither timeout seen on the way, it returns
    with exactly [exact_len] bytes as soon as the last one is in. *)
Theorem read_exact_data_contract (data : list byte) (exact_len timeout_ms : Z)
    (w : world) :
  0 <= exact_len < 2 ^ 32 -> 0 <= timeout_ms -> timeout_ms * 1000 < 2 ^ 32 ->
  (forall n data' w',
     read_exact_data data exact_len timeout_ms w = Ret (n, data') w' ->
     exists pre,
       usart_rx w = pre ++ usart_rx w' /\
       n = Z.of_nat (length (received pre)) /\
       n <= exact_len /\
       data' = received pre ++ drop (length (received pre)) data /\
       (n < exact_len -> 500 < silence 0 pre \/ timeout_ms < elapsed pre)) /\
  (forall pre rest,
     usart_rx w = pre ++ rest ->
     Z.of_nat (length (received pre)) = exact_len ->
     exact_len <= Z.of_nat (length data) ->
     no_timeout timeout_ms 0 0 pre ->
     (forall dt, last pre <> Some (dt, None)) ->
     read_exact_data data exact_len timeout_ms w =
       Ret (exact_len, received pre ++ drop (length (received pre)) data)
           (World (tick_after (system_tick w) pre) rest (stdout w)
                  (input_buffer w) (output_buffer w))).
Proof.
  intros Hlen Hto Hfit. split.
  - intros n data' w' Hrun. eapply read_exact_data_returns; eassumption.
  - intros pre rest Hscr Hn Hcap Hquiet Hend.
    apply read_exact_data_full; assumption.
Qed.

(** ** Running the device monad *)

Lemma bind_run {A B} (m : device A) (k : A -> device B) w a w' :
  m w = Ret a w' -> (m ≫= k) w = k a w'.
Proof. intros H. unfold mbind, device_bind, bind. rewrite H. reflexivity. Qed.

Lemma bind_stuck {A B} (m : device A) (k : A -> device B) w why :
  m w = Stuck why -> (m ≫= k) w = Stuck why.
Proof. intros H. unfold mbind, device_bind, bind. rewrite H. reflexivity. Qed.

Lemma emit_emit l1 l2 w : emit l2 (emit l1 w) = emit (l1 ++ l2) w.
Proof. unfold emit. simpl. rewrite <- app_assoc. reflexivity. Qed.

Lemma printf_run line {B} (k : unit -> device B) w :
  (printf line ≫= k) w = k tt (emit [line] w).
Proof. reflexivity. Qed.

Lemma defined_run {A B} (a : A) (k : A -> device B) w :
  (defined (Some a) ≫= k) w = k a w.
Proof. reflexivity. Qed.

Lemma mret_run {A B} (a : A) (k : A -> device B) w :
  (mret a ≫= k) w = k a w.
Proof. reflexivity. Qed.

(** ** Negotiation of the size *)

Lemma lor_mul_pow2_add hi lo k :
  0 <= k -> 0 <= lo < 2 ^ k -> Z.lor (hi * 2 ^ k) lo = hi * 2 ^ k + lo.
Proof.
  intros Hk Hlo.
  rewrite <- Z.add_lor_land.
  assert (Z.land (hi * 2 ^ k) lo = 0) as ->; [|lia].
  apply Z.bits_inj'; intros n Hn; rewrite Z.land_spec, Z.bits_0.
  destruct (Z.ltb_spec n k).
  - rewrite Z.mul_pow2_bits_low by lia. reflexivity.
  - rewrite <- (Z.mod_small lo (2 ^ k)) by lia.
    rewrite Z.mod_pow2_bits_high by lia. apply Bool.andb_false_r.
Qed.

(** The declared size is the big-endian value of the four bytes. *)
Lemma parse_file_size_big_endian b0 b1 b2 b3 :
  parse_file_size [b0; b1; b2; b3] =
    Some (byte.unsigned b0 * 2 ^ 24 + byte.unsigned b1 * 2 ^ 16
          + byte.unsigned b2 * 2 ^ 8 + byte.unsigned b3).
Proof.
  unfold parse_file_size. simpl.
  pose proof (byte.unsigned_range b0). pose proof (byte.unsigned_range b1).
  pose proof (byte.unsigned_range b2). pose proof (byte.unsigned_range b3).
  f_equal. rewrite !Z.shiftl_mul_pow2 by lia.
  rewrite (lor_mul_pow2_add _ (byte.unsigned b1 * 2 ^ 16) 24) by lia.
  replace (byte.unsigned b0 * 2 ^ 24 + byte.unsigned b1 * 2 ^ 16)
    with ((byte.unsigned b0 * 2 ^ 8 + byte.unsigned b1) * 2 ^ 16) by lia.
  rewrite (lor_mul_pow2_add _ (byte.unsigned b2 * 2 ^ 8) 16) by lia.
  replace ((byte.unsigned b0 * 2 ^ 8 + byte.unsigned b1) * 2 ^ 16
             + byte.unsigned b2 * 2 ^ 8)
    with ((byte.unsigned b0 * 2 ^ 16 + byte.unsigned b1 * 2 ^ 8
             + byte.unsigned b2) * 2 ^ 8) by lia.
  rewrite (lor_mul_pow2_add _ (byte.unsigned b3) 8) by lia.
  rewrite uint32_small by lia. lia.
Qed.

(** ** Bytes and blocks *)

Lemma lxor_byte_range a b : 0 <= a < 2 ^ 8 -> 0 <= b < 2 ^ 8 -> 0 <= Z.lxor a b < 2 ^ 8.
Proof.
  intros Ha Hb.
  assert (H : Z.lxor a b mod 2 ^ 8 = Z.lxor a b).
  { apply Z.bits_inj'; intros n Hn.
    destruct (Z.ltb_spec n 8).
    - apply Z.mod_pow2_bits_low. lia.
    - rewrite Z.mod_pow2_bits_high by lia.
      rewrite Z.lxor_spec.
      rewrite <- (Z.mod_small a (2 ^ 8)), <- (Z.mod_small b (2 ^ 8)) by lia.
      rewrite !Z.mod_pow2_bits_high by lia. reflexivity. }
  rewrite <- H. apply Z.mod_pos_bound. lia.
Qed.

Lemma byte_xor_cancel a b : byte.xor (byte.xor a b) b = a.
Proof.
  unfold byte.xor. rewrite byte.unsigned_of_Z. unfold byte.wrap.
  pose proof (byte.unsigned_range a). pose proof (byte.unsigned_range b).
  rewrite Z.mod_small by (apply lxor_byte_range; assumption).
  rewrite Z.lxor_assoc, Z.lxor_nilpotent, Z.lxor_0_r.
  apply byte.of_Z_unsigned.
Qed.

Lemma xor_block_length a b : length (xor_block a b) = Nat.min (length a) (length b).
Proof. unfold xor_block. apply length_zip_with. Qed.

Lemma xor_block_cancel a : forall b,
  length a = length b -> xor_block (xor_block a b) b = a.
Proof.
  unfold xor_block. induction a as [|x a IH]; intros [|y b] Hlen; try discriminate.
  - reflexivity.
  - simpl. rewrite byte_xor_cancel. f_equal. apply IH. simpl in Hlen. lia.
Qed.

(** ** Output encoder *)

Lemma base64_loop_defined n : forall i (data : list byte) len,
  0 <= i -> ((0 < n)%nat -> i + 3 * (Z.of_nat n - 1) < len) ->
  len <= Z.of_nat (length data) ->
  exists s, base64_loop n i data len = Some s.
Proof.
  induction n as [|n IH]; intros i data len Hi Hn Hlen; simpl.
  - eexists. reflexivity.
  - assert (Hi' : i < len) by lia.
    destruct (load_in_range data i) as [d0 ->]; [lia|]. simpl.
    destruct (Z.ltb_spec (i + 1) len).
    + destruct (load_in_range data (i + 1)) as [d1 ->]; [lia|]. simpl.
      destruct (Z.ltb_spec (i + 2) len).
      * destruct (load_in_range data (i + 2)) as [d2 ->]; [lia|]. simpl.
        destruct (IH (i + 3) data len) as [s ->]; try lia. eexists. reflexivity.
      * simpl. destruct (IH (i + 3) data len) as [s ->]; try lia.
        eexists. reflexivity.
    + simpl. destruct (Z.ltb_spec (i + 2) len); [lia|]. simpl.
      destruct (IH (i + 3) data len) as [s ->]; try lia. eexists. reflexivity.
Qed.

(** Up to 1122 bytes the encoded length is below the size of
    [b64_buffer], and the chunk goes out as one [B64:] line. *)
Lemma send_encrypted_data_base64_emits (data : list byte) len :
  0 <= len <= 1024 -> len <= Z.of_nat (length data) ->
  uint32 (4 * (uint32 (len + 2) / 3)) <= 1368 /\
  exists b64,
    base64_loop (Z.to_nat ((len + 2) / 3)) 0 data len = Some b64 /\
    forall w, send_encrypted_data_base64 data len w
              = Ret tt (emit [("B64:" ++ b64)%string] w).
Proof.
  intros Hlen Hcap.
  assert (Hb : uint32 (4 * (uint32 (len + 2) / 3)) <= 1368).
  { rewrite (uint32_small (len + 2)) by lia.
    assert ((len + 2) / 3 <= 342) by (apply Z.div_le_upper_bound; lia).
    assert (0 <= (len + 2) / 3) by (apply Z.div_pos; lia).
    rewrite uint32_small by lia. lia. }
  split; [exact Hb|].
  destruct (base64_loop_defined (Z.to_nat ((len + 2) / 3)) 0 data len) as [b64 Hb64];
    try lia.
  { intros Hpos.
    assert (0 <= (len + 2) / 3) by (apply Z.div_pos; lia).
    pose proof (Z.mul_div_le (len + 2) 3 ltac:(lia)). lia. }
  exists b64. split; [exact Hb64|]. intros w.
  unfold send_encrypted_data_base64, B64_BUFFER_SIZE.
  destruct (Z.geb_spec (uint32 (4 * (uint32 (len + 2) / 3))) 1500); [lia|].
  rewrite Hb64. reflexivity.
Qed.

(** The encoder reads only the first [len] bytes of the array. *)
Lemma base64_loop_prefix n : forall i (data : list byte) len,
  0 <= i -> ((0 < n)%nat -> i + 3 * (Z.of_nat n - 1) < len) ->
  len <= Z.of_nat (length data) ->
  base64_loop n i (take (Z.to_nat len) data) len = base64_loop n i data len.
Proof.
  assert (Hload : forall (data : list byte) len j, 0 <= j < len ->
            load (take (Z.to_nat len) data) j = load data j).
  { intros data len j Hj. unfold load. destruct (Z.leb_spec 0 j); [|lia].
    apply lookup_take_lt. lia. }
  induction n as [|n IH]; intros i data len Hi Hn Hlen; [reflexivity|].
  assert (Hi' : i < len) by lia.
  cbn [base64_loop]. rewrite (Hload data len i) by lia.
  rewrite (IH (i + 3) data len) by lia.
  destruct (Z.ltb_spec (i + 1) len);
    [rewrite (Hload data len (i + 1)) by lia|];
    (destruct (Z.ltb_spec (i + 2) len);
       [rewrite (Hload data len (i + 2)) by lia|]); reflexivity.
Qed.

Lemma base64_encode_take (data : list byte) len :
  0 <= len <= Z.of_nat (length data) ->
  base64_encode (take (Z.to_nat len) data)
    = base64_loop (Z.to_nat ((len + 2) / 3)) 0 data len.
Proof.
  intros Hlen. unfold base64_encode.
  rewrite length_take.
  replace (Z.of_nat (Z.to_nat len `min` length data)) with len by lia.
  apply base64_loop_prefix; try lia.
  intros Hpos.
  assert (0 <= (len + 2) / 3) by (apply Z.div_pos; lia).
  pose proof (Z.mul_div_le (len + 2) 3 ltac:(lia)). lia.
Qed.

Lemma bind_assoc_run {A B C} (m : device A) (f : A -> device B)
    (g : B -> device C) w :
  ((m ≫= f) ≫= g) w = (m ≫= (fun a => f a ≫= g)) w.
Proof. unfold mbind, device_bind, bind. destruct (m w); reflexivity. Qed.

(** ** Console input *)


Lemma all_idle_cons dt rx pre :
  all_idle ((dt, rx) :: pre) -> rx = None /\ all_idle pre.
Proof. unfold all_idle, received. destruct rx; simpl; [discriminate|auto]. Qed.

Lemma _get_char_loop_byte pre : forall dt b rest tick timeout,
  all_idle pre -> Z.of_nat (length pre) < timeout < 2 ^ 32 ->
  _get_char_loop (pre ++ (dt, Some b) :: rest) tick timeout =
    Some (byte.unsigned b, tick_after tick (pre ++ [(dt, Some b)]), rest).
Proof.
  induction pre as [|[d rx] pre IH]; intros dt b rest tick timeout Hidle Hto.
  - reflexivity.
  - apply all_idle_cons in Hidle as [-> Hidle]. simpl length in Hto.
    simpl app. simpl _get_char_loop.
    rewrite uint32_small by lia.
    destruct (Z.eqb_spec (timeout - 1) 0); [lia|].
    rewrite IH by (auto; lia). reflexivity.
Qed.

Lemma _get_char_loop_timeout pre : forall rest tick timeout,
  all_idle pre -> Z.of_nat (length pre) = timeout -> 0 < timeout < 2 ^ 32 ->
  _get_char_loop (pre ++ rest) tick timeout = Some (-1, tick_after tick pre, rest).
Proof.
  induction pre as [|[d rx] pre IH]; intros rest tick timeout Hidle Hlen Hto.
  - simpl in Hlen. lia.
  - apply all_idle_cons in Hidle as [-> Hidle]. simpl length in Hlen.
    simpl app. simpl _get_char_loop.
    rewrite uint32_small by lia.
    destruct (Z.eqb_spec (timeout - 1) 0) as [H0|H0].
    + destruct pre; [reflexivity|simpl in Hlen; lia].
    + rewrite IH by (auto; lia). reflexivity.
Qed.

(** X2.  [_get_char] counts polls, not time: after fewer than 5,000,000
    polls that find nothing it returns the byte of the first poll that
    finds one, and after exactly 5,000,000 polls that find nothing it
    returns -1.  It prints nothing and leaves the chunk buffers alone. *)
Theorem get_char_contract (w : world) (pre rest : rx_script) :
  usart_rx w = pre ++ rest -> all_idle pre ->
  (forall dt b rest',
     rest = (dt, Some b) :: rest' -> Z.of_nat (length pre) < 5000000 ->
     _get_char w =
       Ret (byte.unsigned b)
           (World (tick_after (system_tick w) (pre ++ [(dt, Some b)])) rest'
                  (stdout w) (input_buffer w) (output_buffer w))) /\
  (Z.of_nat (length pre) = 5000000 ->
   _get_char w =
     Ret (-1) (World (tick_after (system_tick w) pre) rest
                     (stdout w) (input_buffer w) (output_buffer w))).
Proof.
  intros Hscr Hidle. split.
  - intros dt b rest' -> Hlen. unfold _get_char. rewrite Hscr.
    rewrite _get_char_loop_byte by (auto; lia). reflexivity.
  - intros Hlen. unfold _get_char. rewrite Hscr.
    rewrite _get_char_loop_timeout by (auto; lia). reflexivity.
Qed.

(** ** Clearing the receive side *)

Lemma clear_receive_buffer_loop_ready pre : forall dt rest tick,
  Forall (fun e => snd e <> None) pre ->
  clear_receive_buffer_loop (pre ++ (dt, None) :: rest) tick =
    Some (tick_after tick (pre ++ [(dt, None)]), rest).
Proof.
  induction pre as [|[d [b|]] pre IH]; intros dt rest tick Hall.
  - reflexivity.
  - apply Forall_cons in Hall as [_ Hall]. simpl. rewrite IH by exact Hall.
    reflexivity.
  - apply Forall_cons in Hall as [Hn _]. simpl in Hn. congruence.
Qed.

Lemma clear_receive_buffer_loop_flood script : forall tick,
  Forall (fun e => snd e <> None) script ->
  clear_receive_buffer_loop script tick = None.
Proof.
  induction script as [|[d [b|]] script IH]; intros tick Hall.
  - reflexivity.
  - apply Forall_cons in Hall as [_ Hall]. simpl. apply IH. exact Hall.
  - apply Forall_cons in Hall as [Hn _]. simpl in Hn. congruence.
Qed.

(** X3.  [clear_receive_buffer] throws away every byte that is ready,
    however many, and returns at the first poll that finds the receive
    flag reset; it prints nothing and leaves the chunk buffers alone.
    It has no bound of its own: while every poll finds a byte it does
    not return. *)
Theorem clear_receive_buffer_drains (w : world) (pre : rx_script) :
  Forall (fun e => snd e <> None) pre ->
  (forall dt rest,
     usart_rx w = pre ++ (dt, None) :: rest ->
     clear_receive_buffer w =
       Ret tt (World (tick_after (system_tick w) (pre ++ [(dt, None)])) rest
                     (stdout w) (input_buffer w) (output_buffer w))) /\
  (usart_rx w = pre -> clear_receive_buffer w = Stuck Starved).
Proof.
  intros Hall. split.
  - intros dt rest Hscr. unfold clear_receive_buffer. rewrite Hscr.
    rewrite clear_receive_buffer_loop_ready by exact Hall. reflexivity.
  - intros Hscr. unfold clear_receive_buffer. rewrite Hscr.
    rewrite clear_receive_buffer_loop_flood by exact Hall. reflexivity.
Qed.

(** ** The reader's time-outs and bounds *)

Lemma silence_nonneg pre : forall s, 0 <= s -> 0 <= silence s pre.
Proof.
  induction pre as [|[dt [b|]] pre IH]; intros s Hs; simpl; [lia| |];
    apply IH; lia.
Qed.

Lemma silence_app pre1 pre2 s :
  silence s (pre1 ++ pre2) = silence (silence s pre1) pre2.
Proof.
  revert s. induction pre1 as [|[dt [b|]] pre1 IH]; intros s; simpl; auto.
Qed.

Lemma elapsed_app pre1 pre2 : elapsed (pre1 ++ pre2) = elapsed pre1 + elapsed pre2.
Proof.
  induction pre1 as [|[dt rx] pre1 IH]; simpl; [reflexivity|]. rewrite IH. lia.
Qed.

Lemma elapsed_nonneg pre : 0 <= elapsed pre.
Proof. induction pre as [|[dt rx] pre IH]; simpl; lia. Qed.

(** The loop over a stretch of polls that shows no time-out and delivers
    fewer bytes than are still missing, followed by a poll that finds
    nothing and shows one. *)
Lemma read_exact_data_loop_gives_up exact_len timeout_ms start_time dt0 rest :
  0 <= timeout_ms -> timeout_ms * 1000 < 2 ^ 32 -> exact_len < 2 ^ 32 ->
  forall pre tick bytes_read last_receive_time data s e,
  0 <= bytes_read -> 0 <= s -> 0 <= e ->
  bytes_read + Z.of_nat (length (received pre)) < exact_len ->
  bytes_read + Z.of_nat (length (received pre)) <= Z.of_nat (length data) ->
  uint32 (get_current_time tick - last_receive_time) = uint32 (s * 1000) ->
  uint32 (get_current_time tick - start_time) = uint32 (e * 1000) ->
  no_timeout timeout_ms s e pre ->
  (500 < silence s pre + Z.of_nat dt0
   \/ timeout_ms < e + elapsed pre + Z.of_nat dt0) ->
  (e + elapsed pre + Z.of_nat dt0) * 1000 < 2 ^ 32 ->
  s <= e ->
  read_exact_data_loop (pre ++ (dt0, None) :: rest) tick exact_len
    (uint32 (timeout_ms * 1000)) start_time bytes_read last_receive_time data =
  inl (ReadResult (bytes_read + Z.of_nat (length (received pre)))
         (take (Z.to_nat bytes_read) data ++ received pre
            ++ drop (Z.to_nat bytes_read + length (received pre)) data)
         (tick_after tick (pre ++ [(dt0, None)])) rest).
Proof.
  intros Hto0 Hto Hmax.
  induction pre as [|[dt rx] pre IH];
    intros tick bytes_read lrt data s e Hbr Hs He Hn Hcap Hlast Hstart Hquiet
      Hout Hfit Hse.
  - simpl in *. rewrite Z.add_0_r in *. rewrite Nat.add_0_r, take_drop.
    destruct (Z.ltb_spec bytes_read exact_len); [|lia].
    pose proof (clock_step tick dt0 _ _ Hlast) as Hlast'.
    pose proof (clock_step tick dt0 _ _ Hstart) as Hstart'.
    rewrite Hlast', Hstart'.
    rewrite (uint32_small ((s + Z.of_nat dt0) * 1000)) by lia.
    rewrite (uint32_small ((e + Z.of_nat dt0) * 1000)) by lia.
    rewrite (uint32_small (timeout_ms * 1000)) by lia.
    destruct (Z.gtb_spec ((s + Z.of_nat dt0) * 1000) 500000); [reflexivity|].
    destruct (Z.gtb_spec ((e + Z.of_nat dt0) * 1000) (timeout_ms * 1000));
      [reflexivity|lia].
  - pose proof (elapsed_nonneg pre) as Hel.
    simpl app. simpl read_exact_data_loop. simpl elapsed in *.
    destruct rx as [b|].
    + change (received ((dt, Some b) :: pre)) with (b :: received pre) in *.
      simpl length in *. simpl silence in Hout. simpl in Hquiet.
      destruct (Z.ltb_spec bytes_read exact_len); [|lia].
      rewrite store_in_range by lia.
      rewrite (uint32_small (bytes_read + 1)) by lia.
      rewrite (IH _ _ _ _ 0 (e + Z.of_nat dt)); try lia; auto.
      * f_equal. f_equal.
        -- lia.
        -- replace (Z.to_nat (bytes_read + 1)) with (S (Z.to_nat bytes_read)) by lia.
           rewrite (take_S_r _ _ b) by (apply list_lookup_insert_eq; lia).
           rewrite take_insert_ge by lia.
           rewrite drop_insert_lt by lia.
           rewrite <- app_assoc. simpl. rewrite Nat.add_succ_r. reflexivity.
      * rewrite length_insert. lia.
      * apply get_current_time_same.
      * apply clock_step. exact Hstart.
    + change (received ((dt, None) :: pre)) with (received pre) in *.
      simpl silence in Hout.
      destruct (Z.ltb_spec bytes_read exact_len); [|lia].
      simpl in Hquiet. destruct Hquiet as (Hq1 & Hq2 & Hq3).
      pose proof (clock_step tick dt _ _ Hlast) as Hlast'.
      pose proof (clock_step tick dt _ _ Hstart) as Hstart'.
      rewrite Hlast', Hstart'.
      pose proof (uint32_le ((s + Z.of_nat dt) * 1000)).
      pose proof (uint32_le ((e + Z.of_nat dt) * 1000)).
      pose proof (uint32_small (timeout_ms * 1000) ltac:(lia)) as Htm.
      destruct (Z.gtb_spec (uint32 ((s + Z.of_nat dt) * 1000)) 500000); [lia|].
      destruct (Z.gtb_spec (uint32 ((e + Z.of_nat dt) * 1000))
                  (uint32 (timeout_ms * 1000))); [lia|].
      rewrite (IH _ _ _ _ (s + Z.of_nat dt) (e + Z.of_nat dt)); try lia; auto.
Qed.

(** X4.  The time-out exit of [read_exact_data], for a budget
    [timeout_ms] of at most 4,294,967, so that [timeout_ms * 1000] fits
    the 32-bit microsecond clock.  After a stretch of polls that shows
    no time-out and delivers fewer than [exact_len] bytes, no more than
    the array holds, the first poll that finds nothing more than 500 ms after the last byte (or
    after the start of the call, when no byte came), or more than
    [timeout_ms] after the start of the call, ends the call, provided
    it comes at most 4,294,967 ms after the start of the call (later the
    microsecond clock has wrapped): the call returns the number of bytes
    delivered so far, with those bytes at the start of the array and
    the rest of the array as it was.  In particular a line that stays
    silent ends the call at the first poll after 500 ms, also when
    [timeout_ms] is larger. *)
Theorem read_exact_data_gives_up (data : list byte) (exact_len timeout_ms : Z)
    (w : world) (pre : rx_script) (dt : nat) (rest : rx_script) :
  0 <= exact_len < 2 ^ 32 -> 0 <= timeout_ms -> timeout_ms * 1000 < 2 ^ 32 ->
  usart_rx w = pre ++ (dt, None) :: rest ->
  Z.of_nat (length (received pre)) < exact_len ->
  Z.of_nat (length (received pre)) <= Z.of_nat (length data) ->
  no_timeout timeout_ms 0 0 pre ->
  500 < silence 0 pre + Z.of_nat dt \/ timeout_ms < elapsed pre + Z.of_nat dt ->
  (elapsed pre + Z.of_nat dt) * 1000 < 2 ^ 32 ->
  read_exact_data data exact_len timeout_ms w =
    Ret (Z.of_nat (length (received pre)),
         received pre ++ drop (length (received pre)) data)
        (World (tick_after (system_tick w) (pre ++ [(dt, None)])) rest (stdout w)
               (input_buffer w) (output_buffer w)).
Proof.
  intros Hlen Hto Hfit Hscr Hn Hcap Hquiet Hout Hwrap. unfold read_exact_data.
  rewrite Hscr.
  rewrite (read_exact_data_loop_gives_up _ _ _ _ _ Hto Hfit (proj2 Hlen)
             pre _ _ _ _ 0 0);
    try lia; auto; try apply get_current_time_same.
Qed.




Lemma read_exact_data_loop_stuck exact_len timeout start_time :
  forall script tick bytes_read last_receive_time (data : list byte) why,
  0 <= bytes_read -> exact_len <= Z.of_nat (length data) -> exact_len < 2 ^ 32 ->
  read_exact_data_loop script tick exact_len timeout start_time
    bytes_read last_receive_time data = inr why -> why = Starved.
Proof.
  induction script as [|[dt [b|]] script IH];
    intros tick bytes_read lrt data why Hbr Hcap Hmax; simpl;
    destruct (Z.ltb_spec bytes_read exact_len); try discriminate.
  - intros [= <-]. reflexivity.
  - rewrite store_in_range by lia.
    rewrite (uint32_small (bytes_read + 1)) by lia.
    apply IH; [lia|rewrite length_insert; lia|lia].
  - destruct (_ >? 500000); [discriminate|].
    destruct (_ >? timeout); [discriminate|].
    apply IH; assumption.
Qed.

(** ** The encoded line *)

Lemma base64_alphabet :
  forallb (fun k => match base64_index (base64_char (Z.of_nat k)) with
                    | Some m => (m =? Z.of_nat k)
                                && negb (Ascii.eqb (base64_char (Z.of_nat k)) "=")
                    | None => false
                    end) (seq 0 64) = true.
Proof. vm_compute. reflexivity. Qed.

Lemma base64_index_char n :
  0 <= n < 64 ->
  base64_index (base64_char n) = Some n /\ Ascii.eqb (base64_char n) "=" = false.
Proof.
  intros Hn. pose proof base64_alphabet as Hall.
  rewrite forallb_forall in Hall.
  specialize (Hall (Z.to_nat n)). rewrite Z2Nat.id in Hall by lia.
  assert (Hin : In (Z.to_nat n) (seq 0 64)) by (apply in_seq; lia).
  specialize (Hall Hin).
  destruct (base64_index (base64_char n)) as [m|]; [|discriminate].
  apply andb_prop in Hall as [Hm Hne]. apply Z.eqb_eq in Hm. subst m.
  split; [reflexivity|]. destruct (Ascii.eqb _ _); [discriminate|reflexivity].
Qed.

Lemma sextet_mod t k : 0 <= k -> Z.land (Z.shiftr t k) 63 = (t / 2 ^ k) mod 64.
Proof.
  intros Hk. rewrite Z.shiftr_div_pow2 by exact Hk.
  change 63 with (Z.ones 6). rewrite Z.land_ones by lia. reflexivity.
Qed.

Lemma sextet0_mod t : Z.land t 63 = t mod 64.
Proof. change 63 with (Z.ones 6). rewrite Z.land_ones by lia. reflexivity. Qed.

Lemma octet_mod t k : 0 <= k -> Z.land (Z.shiftr t k) 255 = (t / 2 ^ k) mod 256.
Proof.
  intros Hk. rewrite Z.shiftr_div_pow2 by exact Hk.
  change 255 with (Z.ones 8). rewrite Z.land_ones by lia. reflexivity.
Qed.

Lemma octet0_mod t : Z.land t 255 = t mod 256.
Proof. change 255 with (Z.ones 8). rewrite Z.land_ones by lia. reflexivity. Qed.

Lemma lor_low_add x lo k :
  0 <= k -> 0 <= lo < 2 ^ k -> x mod 2 ^ k = 0 -> Z.lor x lo = x + lo.
Proof.
  intros Hk Hlo Hx.
  assert (0 < 2 ^ k) by (apply Z.pow_pos_nonneg; lia).
  pose proof (Z.div_mod x (2 ^ k) ltac:(lia)) as Hd. rewrite Hx in Hd.
  replace x with (x / 2 ^ k * 2 ^ k) at 1 2 by lia.
  apply lor_mul_pow2_add; assumption.
Qed.

(** The 24-bit group the encoder builds from up to three bytes. *)
Lemma triple_of_bytes a b c :
  0 <= a < 256 -> 0 <= b < 256 -> 0 <= c < 256 ->
  Z.shiftl a 16 = a * 65536 /\
  Z.lor (Z.shiftl a 16) (Z.shiftl b 8) = a * 65536 + b * 256 /\
  Z.lor (Z.lor (Z.shiftl a 16) (Z.shiftl b 8)) c = a * 65536 + b * 256 + c /\
  Z.lor (Z.shiftl a 16) c = a * 65536 + c.
Proof.
  intros Ha Hb Hc. rewrite !Z.shiftl_mul_pow2 by lia.
  change (2 ^ 16) with 65536. change (2 ^ 8) with 256.
  assert (H1 : Z.lor (a * 65536) (b * 256) = a * 65536 + b * 256).
  { apply (lor_low_add _ _ 16); try lia. change (2 ^ 16) with 65536.
    apply Z.mod_mul. lia. }
  split; [reflexivity|]. split; [exact H1|]. split.
  - rewrite H1. apply (lor_low_add _ _ 8); try lia. change (2 ^ 8) with 256.
    replace (a * 65536 + b * 256) with ((a * 256 + b) * 256) by lia.
    apply Z.mod_mul. lia.
  - apply (lor_low_add _ _ 16); try lia. change (2 ^ 16) with 65536.
    apply Z.mod_mul. lia.
Qed.

(** The four sextets put together again. *)
Lemma sextets_join t :
  0 <= t < 2 ^ 24 ->
  let i0 := Z.land (Z.shiftr t 18) 63 in
  let i1 := Z.land (Z.shiftr t 12) 63 in
  let i2 := Z.land (Z.shiftr t 6) 63 in
  let i3 := Z.land t 63 in
  Z.lor (Z.shiftl i0 18) (Z.shiftl i1 12) = t - t mod 4096 /\
  Z.lor (Z.lor (Z.shiftl i0 18) (Z.shiftl i1 12)) (Z.shiftl i2 6) = t - t mod 64 /\
  Z.lor (Z.lor (Z.lor (Z.shiftl i0 18) (Z.shiftl i1 12)) (Z.shiftl i2 6)) i3 = t.
Proof.
  intros Ht i0 i1 i2 i3. subst i0 i1 i2 i3.
  rewrite !sextet_mod, sextet0_mod by lia.
  rewrite !Z.shiftl_mul_pow2 by lia.
  change (2 ^ 18) with 262144. change (2 ^ 12) with 4096. change (2 ^ 6) with 64.
  change (2 ^ 24) with 16777216 in Ht.
  assert (H1 : Z.lor (t / 262144 mod 64 * 262144) (t / 4096 mod 64 * 4096)
               = t - t mod 4096).
  { rewrite (lor_low_add _ _ 18); try lia.
    - Z.div_mod_to_equations. lia.
    - change (2 ^ 18) with 262144. Z.div_mod_to_equations. lia.
    - change (2 ^ 18) with 262144. apply Z.mod_mul. lia. }
  assert (H2 : Z.lor (t - t mod 4096) (t / 64 mod 64 * 64) = t - t mod 64).
  { rewrite (lor_low_add _ _ 12); try lia.
    - Z.div_mod_to_equations. lia.
    - change (2 ^ 12) with 4096. Z.div_mod_to_equations. lia.
    - change (2 ^ 12) with 4096. Z.div_mod_to_equations. lia. }
  split; [exact H1|]. rewrite H1. split; [exact H2|]. rewrite H2.
  rewrite (lor_low_add _ _ 6); try lia.
  - change (2 ^ 6) with 64. Z.div_mod_to_equations. lia.
  - change (2 ^ 6) with 64. Z.div_mod_to_equations. lia.
Qed.

Lemma triple_bytes_of a b c :
  triple_bytes (byte.unsigned a * 65536 + byte.unsigned b * 256 + byte.unsigned c)
    = [a; b; c].
Proof.
  pose proof (byte.unsigned_range a). pose proof (byte.unsigned_range b).
  pose proof (byte.unsigned_range c).
  unfold triple_bytes. rewrite !octet_mod, octet0_mod by lia.
  change (2 ^ 16) with 65536. change (2 ^ 8) with 256.
  set (t := byte.unsigned a * 65536 + byte.unsigned b * 256 + byte.unsigned c).
  assert (Ha : t / 65536 mod 256 = byte.unsigned a)
    by (unfold t; Z.div_mod_to_equations; lia).
  assert (Hb : t / 256 mod 256 = byte.unsigned b)
    by (unfold t; Z.div_mod_to_equations; lia).
  assert (Hc : t mod 256 = byte.unsigned c)
    by (unfold t; Z.div_mod_to_equations; lia).
  rewrite Ha, Hb, Hc, !byte.of_Z_unsigned. reflexivity.
Qed.

Lemma sextet_range t k : 0 <= k -> 0 <= Z.land (Z.shiftr t k) 63 < 64.
Proof. intros Hk. rewrite sextet_mod by exact Hk. apply Z.mod_pos_bound. lia. Qed.

Lemma sextet0_range t : 0 <= Z.land t 63 < 64.
Proof. rewrite sextet0_mod. apply Z.mod_pos_bound. lia. Qed.

(** Decoding the four characters of one group. *)
Lemma base64_decode_quad t rest :
  0 <= t < 2 ^ 24 ->
  base64_decode
    (String (base64_char (Z.land (Z.shiftr t 18) 63))
       (String (base64_char (Z.land (Z.shiftr t 12) 63))
          (String (base64_char (Z.land (Z.shiftr t 6) 63))
             (String (base64_char (Z.land t 63)) rest)))) =
  match base64_decode rest with
  | Some bytes => Some (triple_bytes t ++ bytes)
  | None => None
  end.
Proof.
  intros Ht. cbn [base64_decode].
  destruct (base64_index_char _ (sextet_range t 18 ltac:(lia))) as [-> _].
  destruct (base64_index_char _ (sextet_range t 12 ltac:(lia))) as [-> _].
  destruct (base64_index_char _ (sextet_range t 6 ltac:(lia))) as [-> ->].
  destruct (base64_index_char _ (sextet0_range t)) as [-> ->].
  cbn [mbind option_bind].
  destruct (sextets_join t Ht) as (_ & _ & ->).
  destruct (base64_decode rest); reflexivity.
Qed.

Lemma base64_decode_pair t :
  0 <= t < 2 ^ 24 -> t mod 256 = 0 ->
  base64_decode
    (String (base64_char (Z.land (Z.shiftr t 18) 63))
       (String (base64_char (Z.land (Z.shiftr t 12) 63))
          (String (base64_char (Z.land (Z.shiftr t 6) 63))
             (String "="%char EmptyString)))) =
  Some (take 2 (triple_bytes t)).
Proof.
  intros Ht Hlow. cbn [base64_decode].
  destruct (base64_index_char _ (sextet_range t 18 ltac:(lia))) as [-> _].
  destruct (base64_index_char _ (sextet_range t 12 ltac:(lia))) as [-> _].
  destruct (base64_index_char _ (sextet_range t 6 ltac:(lia))) as [-> ->].
  cbn [mbind option_bind]. rewrite Ascii.eqb_refl.
  destruct (sextets_join t Ht) as (_ & -> & _).
  replace (t mod 64) with 0 by (Z.div_mod_to_equations; lia).
  rewrite Z.sub_0_r. reflexivity.
Qed.

Lemma base64_decode_single t :
  0 <= t < 2 ^ 24 -> t mod 65536 = 0 ->
  base64_decode
    (String (base64_char (Z.land (Z.shiftr t 18) 63))
       (String (base64_char (Z.land (Z.shiftr t 12) 63))
          (String "="%char (String "="%char EmptyString)))) =
  Some (take 1 (triple_bytes t)).
Proof.
  intros Ht Hlow. cbn [base64_decode].
  destruct (base64_index_char _ (sextet_range t 18 ltac:(lia))) as [-> _].
  destruct (base64_index_char _ (sextet_range t 12 ltac:(lia))) as [-> _].
  cbn [mbind option_bind]. rewrite Ascii.eqb_refl.
  destruct (sextets_join t Ht) as (-> & _ & _).
  replace (t mod 4096) with 0 by (Z.div_mod_to_equations; lia).
  rewrite Z.sub_0_r. reflexivity.
Qed.

(** The encoding loop run to the end of the data, and decoded again. *)
Lemma base64_loop_decodes n : forall i (data : list byte) len s,
  0 <= i -> ((0 < n)%nat -> i + 3 * (Z.of_nat n - 1) < len) ->
  len <= i + 3 * Z.of_nat n -> len <= Z.of_nat (length data) ->
  base64_loop n i data len = Some s ->
  Z.of_nat (String.length s) = 4 * Z.of_nat n /\
  base64_decode s = Some (take (Z.to_nat (len - i)) (drop (Z.to_nat i) data)).
Proof.
  induction n as [|n IH]; intros i data len s Hi Hn Hend Hlen Hrun.
  - injection Hrun as <-. split; [reflexivity|].
    replace (Z.to_nat (len - i)) with 0%nat by lia. reflexivity.
  - assert (Hi' : i < len) by lia.
    cbn [base64_loop] in Hrun.
    destruct (load data i) as [d0|] eqn:H0; [|discriminate].
    cbn [mbind option_bind] in Hrun.
    apply load_Some in H0 as [_ H0].
    pose proof (byte.unsigned_range d0) as R0.
    destruct (Z.ltb_spec (i + 1) len) as [H1lt|H1ge].
    + destruct (load data (i + 1)) as [d1|] eqn:H1; [|discriminate].
      cbn [mbind option_bind] in Hrun.
      apply load_Some in H1 as [_ H1].
      pose proof (byte.unsigned_range d1) as R1.
      destruct (Z.ltb_spec (i + 2) len) as [H2lt|H2ge].
      * destruct (load data (i + 2)) as [d2|] eqn:H2; [|discriminate].
        cbn [mbind option_bind] in Hrun.
        apply load_Some in H2 as [_ H2].
        pose proof (byte.unsigned_range d2) as R2.
        destruct (base64_loop n (i + 3) data len) as [rest|] eqn:Hrest;
          [|discriminate].
        cbn [mbind option_bind] in Hrun. injection Hrun as <-.
        destruct (IH (i + 3) data len rest) as [Hl Hd]; try lia; [exact Hrest|].
        destruct (triple_of_bytes _ _ _ R0 R1 R2) as (_ & _ & -> & _).
        split; [cbn [String.length]; lia|].
        rewrite base64_decode_quad by (change (2 ^ 24) with 16777216; lia).
        rewrite Hd, triple_bytes_of. f_equal.
        rewrite (drop_S data d0 (Z.to_nat i)) by exact H0.
        rewrite (drop_S data d1 (S (Z.to_nat i)))
          by (replace (S (Z.to_nat i)) with (Z.to_nat (i + 1)) by lia; exact H1).
        rewrite (drop_S data d2 (S (S (Z.to_nat i))))
          by (replace (S (S (Z.to_nat i))) with (Z.to_nat (i + 2)) by lia; exact H2).
        replace (Z.to_nat (len - i)) with (S (S (S (Z.to_nat (len - (i + 3))))))
          by lia.
        replace (Z.to_nat (i + 3)) with (S (S (S (Z.to_nat i)))) by lia.
        reflexivity.
      * cbn [mbind option_bind] in Hrun.
        assert (n = 0%nat) by lia. subst n. cbn [base64_loop] in Hrun.
        cbn [mbind option_bind] in Hrun. injection Hrun as <-.
        destruct (triple_of_bytes _ _ 0 R0 R1 ltac:(lia)) as (_ & -> & _ & _).
        split; [reflexivity|].
        rewrite base64_decode_pair;
          [|change (2 ^ 24) with 16777216; lia|Z.div_mod_to_equations; lia].
        f_equal.
        replace (byte.unsigned d0 * 65536 + byte.unsigned d1 * 256)
          with (byte.unsigned d0 * 65536 + byte.unsigned d1 * 256
                + byte.unsigned Byte.x00) by (cbn; lia).
        rewrite triple_bytes_of.
        rewrite (drop_S data d0 (Z.to_nat i)) by exact H0.
        rewrite (drop_S data d1 (S (Z.to_nat i)))
          by (replace (S (Z.to_nat i)) with (Z.to_nat (i + 1)) by lia; exact H1).
        replace (Z.to_nat (len - i)) with 2%nat by lia. reflexivity.
    + cbn [mbind option_bind] in Hrun.
      destruct (Z.ltb_spec (i + 2) len); [lia|].
      cbn [mbind option_bind] in Hrun.
      assert (n = 0%nat) by lia. subst n. cbn [base64_loop] in Hrun.
      cbn [mbind option_bind] in Hrun. injection Hrun as <-.
      destruct (triple_of_bytes _ 0 0 R0 ltac:(lia) ltac:(lia)) as (-> & _ & _ & _).
      split; [reflexivity|].
      rewrite base64_decode_single;
        [|change (2 ^ 24) with 16777216; lia|Z.div_mod_to_equations; lia].
      f_equal.
      replace (byte.unsigned d0 * 65536)
        with (byte.unsigned d0 * 65536 + byte.unsigned Byte.x00 * 256
              + byte.unsigned Byte.x00) by (cbn; lia).
      rewrite triple_bytes_of.
      rewrite (drop_S data d0 (Z.to_nat i)) by exact H0.
      replace (Z.to_nat (len - i)) with 1%nat by lia. reflexivity.
Qed.

Lemma base64_iterations len :
  0 <= len ->
  let n := Z.to_nat ((len + 2) / 3) in
  Z.of_nat n = (len + 2) / 3 /\
  ((0 < n)%nat -> 0 + 3 * (Z.of_nat n - 1) < len) /\ len <= 0 + 3 * Z.of_nat n.
Proof.
  intros Hlen n. unfold n.
  assert (0 <= (len + 2) / 3) by (apply Z.div_pos; lia).
  rewrite Z2Nat.id by lia. repeat split; intros; Z.div_mod_to_equations; lia.
Qed.

(** A call with up to 1122 bytes: the line printed and its text. *)
Lemma send_encrypted_data_base64_line (data : list byte) len :
  0 <= len <= 1122 -> len <= Z.of_nat (length data) ->
  exists s,
    base64_loop (Z.to_nat ((len + 2) / 3)) 0 data len = Some s /\
    (forall w, send_encrypted_data_base64 data len w
               = Ret tt (emit [("B64:" ++ s)%string] w)) /\
    Z.of_nat (String.length s) = 4 * ((len + 2) / 3) /\
    base64_decode s = Some (take (Z.to_nat len) data).
Proof.
  intros Hlen Hcap.
  destruct (base64_iterations len ltac:(lia)) as (Hn & Hlast & Hend).
  destruct (base64_loop_defined (Z.to_nat ((len + 2) / 3)) 0 data len) as [s Hs];
    try lia; try exact Hlast.
  destruct (base64_loop_decodes _ 0 data len s ltac:(lia) Hlast Hend ltac:(lia) Hs)
    as [Hl Hd].
  exists s. split; [exact Hs|]. split; [|split].
  - intros w. unfold send_encrypted_data_base64, B64_BUFFER_SIZE.
    rewrite (uint32_small (len + 2)) by lia.
    assert ((len + 2) / 3 <= 374) by (Z.div_mod_to_equations; lia).
    assert (0 <= (len + 2) / 3) by (apply Z.div_pos; lia).
    rewrite uint32_small by lia.
    destruct (Z.geb_spec (4 * ((len + 2) / 3)) 1500); [lia|].
    rewrite Hs. reflexivity.
  - lia.
  - rewrite Hd, Z.sub_0_r. reflexivity.
Qed.

(** X6.  Up to 1122 bytes, the [B64:] line that
    [send_encrypted_data_base64] prints is standard base-64 text of the
    first [len] bytes of the array: decoding it gives those bytes back. *)
Theorem base64_line_decodes (data : list byte) (len : Z) (w : world) :
  0 <= len <= 1122 -> len <= Z.of_nat (length data) ->
  exists s,
    send_encrypted_data_base64 data len w = Ret tt (emit [("B64:" ++ s)%string] w) /\
    base64_decode s = Some (take (Z.to_nat len) data).
Proof.
  intros Hlen Hcap.
  destruct (send_encrypted_data_base64_line data len Hlen Hcap)
    as (s & _ & Hsend & _ & Hd).
  exists s. split; [apply Hsend|exact Hd].
Qed.

(** The encoding loop runs off an array that is shorter than [len]. *)
Lemma base64_loop_overrun n : forall i (data : list byte) len,
  0 <= i -> (0 < n)%nat -> Z.of_nat (length data) <= i + 3 * (Z.of_nat n - 1) ->
  Z.of_nat (length data) + 2 < len ->
  base64_loop n i data len = None.
Proof.
  induction n as [|n IH]; intros i data len Hi Hn Hshort Hlen; [lia|].
  cbn [base64_loop].
  destruct (load data i) as [d0|] eqn:H0; [|reflexivity].
  cbn [mbind option_bind].
  apply load_Some in H0 as [_ H0]. apply lookup_lt_Some in H0.
  assert (Hrest : base64_loop n (i + 3) data len = None).
  { apply IH; lia. }
  rewrite Hrest.
  destruct (i + 1 <? len); [destruct (load data (i + 1))|];
    cbn [mbind option_bind]; try reflexivity;
    (destruct (i + 2 <? len); [destruct (load data (i + 2))|];
       cbn [mbind option_bind]; reflexivity).
Qed.

(** X7.  The size check of [send_encrypted_data_base64] against the
    1500 bytes of [b64_buffer].  Up to 1122 bytes the call prints one
    [B64:] line of [4 * ((len + 2) / 3)] characters, which fit the
    buffer together with the terminator.  From 1123 bytes on the call
    prints the buffer error instead and no data.  The check is done on
    a 32-bit product: from 3221225470 to 3221226594 bytes it wraps, the
    call is let through and the loop runs off the array. *)
Theorem base64_size_check (data : list byte) (len : Z) (w : world) :
  (0 <= len <= 1122 -> len <= Z.of_nat (length data) ->
   exists s,
     send_encrypted_data_base64 data len w = Ret tt (emit [("B64:" ++ s)%string] w) /\
     Z.of_nat (String.length s) = 4 * ((len + 2) / 3) /\
     Z.of_nat (String.length s) + 1 <= B64_BUFFER_SIZE) /\
  (1123 <= len < 3221225470 ->
   send_encrypted_data_base64 data len w
     = Ret tt (emit ["ERROR: Base64 buffer too small"%string] w)) /\
  (3221225470 <= len <= 3221226594 -> Z.of_nat (length data) + 2 < len ->
   send_encrypted_data_base64 data len w = Stuck OutOfBounds).
Proof.
  split; [|split].
  - intros Hlen Hcap.
    destruct (send_encrypted_data_base64_line data len Hlen Hcap)
      as (s & _ & Hsend & Hl & _).
    exists s. split; [apply Hsend|]. split; [exact Hl|].
    unfold B64_BUFFER_SIZE. rewrite Hl. Z.div_mod_to_equations. lia.
  - intros Hlen. unfold send_encrypted_data_base64, B64_BUFFER_SIZE.
    rewrite (uint32_small (len + 2)) by lia.
    assert (375 <= (len + 2) / 3 < 2 ^ 30) by (Z.div_mod_to_equations; lia).
    rewrite uint32_small by lia.
    destruct (Z.geb_spec (4 * ((len + 2) / 3)) 1500); [reflexivity|lia].
  - intros Hlen Hshort. unfold send_encrypted_data_base64, B64_BUFFER_SIZE.
    rewrite (uint32_small (len + 2)) by lia.
    assert (Hk : 2 ^ 30 <= (len + 2) / 3 <= 2 ^ 30 + 374)
      by (Z.div_mod_to_equations; lia).
    assert (Hw : uint32 (4 * ((len + 2) / 3)) = 4 * ((len + 2) / 3) - 2 ^ 32).
    { unfold uint32. symmetry. apply (Z.mod_unique _ _ 1); lia. }
    rewrite Hw.
    destruct (Z.geb_spec (4 * ((len + 2) / 3) - 2 ^ 32) 1500); [lia|].
    rewrite base64_loop_overrun; try lia; [reflexivity|].
    rewrite Z2Nat.id by lia. Z.div_mod_to_equations. lia.
Qed.

(** X8.  The encoding is injective: two byte sequences with the same
    encoded text are the same sequence. *)
Theorem base64_encode_injective (a b : list byte) (s : string) :
  base64_encode a = Some s -> base64_encode b = Some s -> a = b.
Proof.
  intros Ha Hb. unfold base64_encode in Ha, Hb.
  destruct (base64_iterations (Z.of_nat (length a)) ltac:(lia)) as (_ & Hla & Hea).
  destruct (base64_iterations (Z.of_nat (length b)) ltac:(lia)) as (_ & Hlb & Heb).
  destruct (base64_loop_decodes _ 0 a _ s ltac:(lia) Hla Hea ltac:(lia) Ha)
    as [_ Hda].
  destruct (base64_loop_decodes _ 0 b _ s ltac:(lia) Hlb Heb ltac:(lia) Hb)
    as [_ Hdb].
  rewrite Hda in Hdb. injection Hdb as Hab.
  rewrite !Z.sub_0_r, !Nat2Z.id in Hab. simpl drop in Hab.
  rewrite !firstn_all in Hab. exact Hab.
Qed.

Section FirmwareProperties.

Variable CHUNK_SIZE : Z.
Variable block_encrypt block_decrypt : list byte -> list byte -> list byte.
Variable AES_irregular : AES_PARM -> option (list byte).

Local Abbreviation AES_Crypto := (AES_Crypto block_encrypt block_decrypt AES_irregular).
Local Abbreviation cbc_encrypt := (cbc_encrypt block_encrypt).
Local Abbreviation cbc_decrypt := (cbc_decrypt block_decrypt).
Local Abbreviation encrypt_chunk :=
  (encrypt_chunk block_encrypt block_decrypt AES_irregular).
Local Abbreviation decrypt_chunk :=
  (decrypt_chunk block_encrypt block_decrypt AES_irregular).
Local Abbreviation process_file_chunk_with_key :=
  (process_file_chunk_with_key CHUNK_SIZE block_encrypt block_decrypt AES_irregular).
Local Abbreviation chunk_size_of := (chunk_size_of CHUNK_SIZE).
Local Abbreviation stream_loop :=
  (stream_loop CHUNK_SIZE block_encrypt block_decrypt AES_irregular).
Local Abbreviation stream_session :=
  (stream_session CHUNK_SIZE block_encrypt block_decrypt AES_irregular).
Local Abbreviation await_size :=
  (await_size CHUNK_SIZE block_encrypt block_decrypt AES_irregular).
Local Abbreviation stream_outputs :=
  (stream_outputs CHUNK_SIZE block_encrypt block_decrypt AES_irregular).
Local Abbreviation stream_file :=
  (stream_file CHUNK_SIZE block_encrypt block_decrypt AES_irregular).

(** C7.  Once the size phase has read its bytes: with fewer than 4 the
    session ends with the size-read failure; with 4 the declared size is
    their big-endian value, and the session ends with the invalid-size
    error exactly when that value is 0 or above 1,000,000, and is
    acknowledged and streamed otherwise.  So 00 00 00 00 is rejected,
    00 0F 42 40 is accepted and 00 0F 42 41 is rejected. *)
Theorem await_size_accepts_1_to_1000000 (mode : operation_mode_t)
    (key iv : list byte) (w w1 w2 : world) (n : Z) (size_buffer : list byte) :
  clear_receive_buffer (emit ["WAIT_SIZE"%string] w) = Ret tt w1 ->
  read_exact_data (replicate 4 Byte.x00) 4 5000 w1 = Ret (n, size_buffer) w2 ->
  ((n <> 4 /\
    await_size mode key iv w =
      Ret tt (emit ["ERROR:File size receive failed"%string] w2)) \/
   (n = 4 /\
   exists b0 b1 b2 b3,
     size_buffer = [b0; b1; b2; b3] /\
     let file_size := byte.unsigned b0 * 2 ^ 24 + byte.unsigned b1 * 2 ^ 16
                      + byte.unsigned b2 * 2 ^ 8 + byte.unsigned b3 in
     parse_file_size size_buffer = Some file_size /\
     (((file_size = 0 \/ file_size > 1000000) /\
       await_size mode key iv w =
         Ret tt (emit [("FILE_SIZE:" ++ fmt_lu file_size)%string;
                       "ERROR:Invalid file size"%string] w2)) \/
      ((1 <= file_size <= 1000000) /\
       await_size mode key iv w =
         stream_session mode key iv file_size
           (emit [("FILE_SIZE:" ++ fmt_lu file_size)%string; "ACK"%string] w2))))) /\
  parse_file_size (map byte.of_Z [0; 0; 0; 0]) = Some 0 /\
  parse_file_size (map byte.of_Z [0; 15; 66; 64]) = Some 1000000 /\
  parse_file_size (map byte.of_Z [0; 15; 66; 65]) = Some 1000001.
Proof.
  intros Hclear Hread.
  split; [|repeat split; reflexivity].
  assert (Hrun : forall k : Z * list byte -> device unit,
            (printf "WAIT_SIZE" ≫= fun _ => clear_receive_buffer ≫= fun _ =>
             read_exact_data (replicate 4 Byte.x00) 4 5000 ≫= k) w
            = k (n, size_buffer) w2).
  { intros k. rewrite printf_run. rewrite (bind_run _ _ _ _ _ Hclear).
    apply (bind_run _ _ _ _ _ Hread). }
  unfold await_size. rewrite Hrun. clear Hrun.
  destruct (Z.eqb_spec n 4) as [->|Hn]; cbn [negb].
  2:{ left. split; [exact Hn|]. reflexivity. }
  right. split; [reflexivity|].
  assert (Hsz : length size_buffer = 4%nat).
  { destruct (read_exact_data_returns (replicate 4 Byte.x00) 4 5000 w1 4
                size_buffer w2)
      as (pre & _ & Hlen & _ & Hdata & _); try lia; try assumption.
    rewrite Hdata, length_app, length_drop, length_replicate. lia. }
  destruct size_buffer as [|b0 [|b1 [|b2 [|b3 [|]]]]]; try discriminate.
  clear Hsz.
  exists b0, b1, b2, b3. split; [reflexivity|].
  cbv zeta.
  set (file_size := byte.unsigned b0 * 2 ^ 24 + byte.unsigned b1 * 2 ^ 16
                    + byte.unsigned b2 * 2 ^ 8 + byte.unsigned b3).
  pose proof (parse_file_size_big_endian b0 b1 b2 b3) as Hparse.
  fold file_size in Hparse. split; [exact Hparse|].
  rewrite Hparse, defined_run, printf_run.
  destruct (Z.eqb_spec file_size 0) as [H0|H0]; cbn [orb].
  { left. split; [left; exact H0|]. unfold send_error, printf.
    rewrite emit_emit. reflexivity. }
  destruct (Z.gtb_spec file_size 1000000) as [Hbig|Hbig].
  { left. split; [right; lia|]. unfold send_error, printf.
    rewrite emit_emit. reflexivity. }
  right.
  pose proof (byte.unsigned_range b0). pose proof (byte.unsigned_range b1).
  pose proof (byte.unsigned_range b2). pose proof (byte.unsigned_range b3).
  split; [unfold file_size in *; lia|].
  unfold send_ack. rewrite printf_run, emit_emit. reflexivity.
Qed.

(** ** The per-chunk pipeline *)


Lemma write_prefix_Some dst src out :
  write_prefix dst src = Some out ->
  out = src ++ drop (length src) dst /\ length out = length dst /\
  (length src <= length dst)%nat.
Proof.
  unfold write_prefix. destruct (Nat.leb_spec (length src) (length dst)); [|discriminate].
  intros [= <-]. rewrite length_app, length_drop. repeat split; lia.
Qed.

Lemma write_prefix_fits dst src :
  (length src <= length dst)%nat ->
  write_prefix dst src = Some (src ++ drop (length src) dst).
Proof.
  intros H. unfold write_prefix.
  destruct (Nat.leb_spec (length src) (length dst)); [reflexivity|lia].
Qed.

Lemma pkcs7_unpadding_array data len r data' len' :
  pkcs7_unpadding data len = Some (r, data', len') -> data' = data.
Proof.
  unfold pkcs7_unpadding. intros H.
  repeat match type of H with
         | (if ?c then _ else _) = _ => destruct c
         | match ?x with _ => _ end = _ => destruct x
         end; congruence.
Qed.

(** What [encrypt_chunk] returns when it returns 0. *)
Lemma encrypt_chunk_success data padded_len input_len output_data session key r :
  encrypt_chunk data padded_len input_len output_data session key = Some r ->
  cr_ret r = 0 ->
  exists out,
    AES_Crypto (encrypt_parm data padded_len session key) = Some out /\
    write_prefix output_data out = Some (cr_output r) /\
    cr_output_len r = padded_len /\
    cr_input r = data /\
    memcpy16 (cr_output r) (padded_len - 16) = Some (iv (cr_session r)) /\
    is_last_chunk (cr_session r) = is_last_chunk session.
Proof.
  unfold encrypt_chunk. intros H Hret.
  destruct (AES_Crypto _) as [out|]; [|injection H as <-; discriminate].
  destruct (write_prefix output_data out) as [out1|] eqn:Hw; [|discriminate].
  simpl in H. destruct (memcpy16 out1 (padded_len - 16)) as [iv'|] eqn:Hm; [|discriminate].
  simpl in H. injection H as <-. simpl. exists out. repeat split; auto.
Qed.

(** What [decrypt_chunk] returns when it returns 0. *)
Lemma decrypt_chunk_success input_data input_len output_data session key r :
  decrypt_chunk input_data input_len output_data session key = Some r ->
  cr_ret r = 0 ->
  exists out out1,
    AES_Crypto (decrypt_parm input_data input_len session key) = Some out /\
    write_prefix output_data out = Some out1 /\
    (if is_last_chunk session
     then remove_padding out1 input_len
     else Some (out1, input_len)) = Some (cr_output r, cr_output_len r) /\
    cr_input r = input_data /\
    memcpy16 input_data (input_len - 16) = Some (iv (cr_session r)) /\
    is_last_chunk (cr_session r) = is_last_chunk session.
Proof.
  unfold decrypt_chunk. intros H Hret.
  destruct (AES_Crypto _) as [out|]; [|injection H as <-; discriminate].
  destruct (write_prefix output_data out) as [out1|] eqn:Hw; [|discriminate].
  simpl in H.
  destruct (if is_last_chunk session then _ else _) as [[out2 olen]|] eqn:Hu;
    [|discriminate].
  simpl in H. destruct (memcpy16 input_data (input_len - 16)) as [iv'|] eqn:Hm;
    [|discriminate].
  simpl in H. injection H as <-. simpl. exists out, out1. repeat split; auto.
Qed.




Lemma remove_padding_skips output_data output_len last :
  load output_data (uint32 (output_len - 1)) = Some last ->
  byte.unsigned last = 0 \/ byte.unsigned last > 16 ->
  remove_padding output_data output_len = Some (output_data, output_len).
Proof.
  intros Hl Hb. unfold remove_padding. rewrite Hl. simpl.
  destruct (Z.leb_spec (byte.unsigned last) 16);
    destruct (Z.gtb_spec (byte.unsigned last) 0); simpl; try reflexivity; lia.
Qed.

Lemma remove_padding_tolerates output_data output_len last d l :
  load output_data (uint32 (output_len - 1)) = Some last ->
  pkcs7_unpadding output_data output_len = Some (-1, d, l) ->
  remove_padding output_data output_len = Some (output_data, output_len).
Proof.
  intros Hl Hu. unfold remove_padding. rewrite Hl. simpl.
  destruct ((byte.unsigned last <=? 16) && (byte.unsigned last >? 0)); [|reflexivity].
  pose proof (pkcs7_unpadding_array _ _ _ _ _ Hu) as ->.
  rewrite Hu. simpl. f_equal. f_equal.
  revert Hu. unfold pkcs7_unpadding.
  repeat match goal with
         | |- context [if ?c then _ else _] => destruct c
         | |- context [match ?x with _ => _ end] => destruct x
         end; congruence.
Qed.

(** The decrypt branch on the last chunk, from the array the cipher
    wrote, when [remove_padding] leaves it as it is. *)
Lemma decrypt_chunk_last_kept input_data input_len output_data session key out out1 v :
  is_last_chunk session = true ->
  AES_Crypto (decrypt_parm input_data input_len session key) = Some out ->
  write_prefix output_data out = Some out1 ->
  remove_padding out1 input_len = Some (out1, input_len) ->
  memcpy16 input_data (input_len - 16) = Some v ->
  decrypt_chunk input_data input_len output_data session key =
    Some (ChunkResult 0 input_len
            (set_total_processed (set_iv session v)
               (uint32 (total_processed session + input_len)))
            input_data out1).
Proof.
  intros Hlast Haes Hw Hrm Hm. unfold decrypt_chunk.
  rewrite Haes, Hw. simpl. rewrite Hlast, Hrm. simpl. rewrite Hm. reflexivity.
Qed.

(** C9.  On the last chunk of a decrypt session, when the last decrypted
    byte is 0 or greater than 16 the padding removal step returns the
    array and the length as the cipher left them, and the chunk is
    returned with return value 0, the raw decryption and its full length;
    [pkcs7_unpadding] has no part in the result.  This holds even where
    [pkcs7_unpadding] alone would strip: on 32 bytes ending in twenty
    bytes of value 20 it returns 0 and length 12, while the padding
    removal step keeps all 32. *)
Theorem unpadding_guarded_by_last_byte (input_data : list byte) (input_len : Z)
    (output_data : list byte) (session : session_state_t) (key : list byte)
    (out out1 v : list byte) (last : byte) :
  is_last_chunk session = true ->
  AES_Crypto (decrypt_parm input_data input_len session key) = Some out ->
  write_prefix output_data out = Some out1 ->
  load out1 (uint32 (input_len - 1)) = Some last ->
  byte.unsigned last = 0 \/ byte.unsigned last > 16 ->
  memcpy16 input_data (input_len - 16) = Some v ->
  remove_padding out1 input_len = Some (out1, input_len) /\
  (exists r,
     process_file_chunk_with_key OP_DECRYPT input_data input_len output_data
       session key = Some r /\
     cr_ret r = 0 /\ cr_output r = out1 /\ cr_output_len r = input_len) /\
  (let raw := replicate 12 Byte.x00 ++ replicate 20 (byte.of_Z 20) in
   pkcs7_unpadding raw 32 = Some (0, raw, 12) /\
   remove_padding raw 32 = Some (raw, 32)).
Proof.
  intros Hlast Haes Hw Hl Hb Hm.
  pose proof (remove_padding_skips _ _ _ Hl Hb) as Hrm.
  split; [exact Hrm|]. split; [|split; reflexivity].
  eexists. split.
  - simpl. eapply decrypt_chunk_last_kept; eassumption.
  - simpl. repeat split; reflexivity.
Qed.

(** The pipeline half of C8: when [pkcs7_unpadding] rejects the last
    decrypted chunk, the chunk is still returned with return value 0,
    and the array and the length are those the cipher left. *)
Lemma decrypt_chunk_tolerates_invalid_padding input_data input_len output_data
    session key out out1 v last d l :
  is_last_chunk session = true ->
  AES_Crypto (decrypt_parm input_data input_len session key) = Some out ->
  write_prefix output_data out = Some out1 ->
  load out1 (uint32 (input_len - 1)) = Some last ->
  pkcs7_unpadding out1 input_len = Some (-1, d, l) ->
  memcpy16 input_data (input_len - 16) = Some v ->
  process_file_chunk_with_key OP_DECRYPT input_data input_len output_data
    session key =
    Some (ChunkResult 0 input_len
            (set_total_processed (set_iv session v)
               (uint32 (total_processed session + input_len)))
            input_data out1).
Proof.
  intros Hlast Haes Hw Hl Hu Hm. simpl.
  eapply decrypt_chunk_last_kept; try eassumption.
  eapply remove_padding_tolerates; eassumption.
Qed.

(** ** One iteration of the streaming loop *)

Lemma pkcs7_padding_loop_length n : forall i v (data data' : list byte),
  pkcs7_padding_loop n i v data = Some data' -> length data' = length data.
Proof.
  induction n as [|n IH]; intros i v data data' H; simpl in H.
  - congruence.
  - unfold store in H.
    destruct ((0 <=? i) && (i <? Z.of_nat (length data))); [|discriminate].
    apply IH in H. rewrite length_insert in H. exact H.
Qed.

Lemma pkcs7_padding_Some_16 (data padded : list byte) len padded_len :
  pkcs7_padding data len 16 = Some (padded, padded_len) ->
  0 <= len -> len + 16 < 2 ^ 32 ->
  padded_len = len + (16 - len mod 16) /\ length padded = length data.
Proof.
  unfold pkcs7_padding. simpl (16 =? 0). cbv iota. intros H Hlen Hmax.
  pose proof (Z.mod_pos_bound len 16 ltac:(lia)).
  rewrite pad_value_16 in H by lia.
  rewrite uint32_small in H by lia.
  destruct (pkcs7_padding_loop _ _ _ _) as [d|] eqn:Hloop; [|discriminate].
  injection H as <- <-. split; [reflexivity|].
  eapply pkcs7_padding_loop_length. exact Hloop.
Qed.

Lemma pkcs7_unpadding_bounds (data d : list byte) len r l :
  pkcs7_unpadding data len = Some (r, d, l) ->
  0 <= len < 2 ^ 32 -> d = data /\ 0 <= l <= len.
Proof.
  intros H Hlen. split; [eapply pkcs7_unpadding_array; exact H|].
  revert H. unfold pkcs7_unpadding.
  destruct (len =? 0); [intros [= <- <- <-]; lia|].
  destruct (load data (len - 1)) as [last|]; [|discriminate].
  pose proof (byte.unsigned_range last).
  destruct (Z.eqb_spec (byte.unsigned last) 0); simpl; [intros [= <- <- <-]; lia|].
  destruct (Z.gtb_spec (byte.unsigned last) len); [intros [= <- <- <-]; lia|].
  destruct (pkcs7_unpadding_loop _ _ _ _) as [[|]|]; try discriminate.
  - intros [= <- <- <-]. rewrite uint32_small by lia. lia.
  - intros [= <- <- <-]. lia.
Qed.

Lemma remove_padding_bounds (out out' : list byte) len len' :
  remove_padding out len = Some (out', len') ->
  0 <= len < 2 ^ 32 -> out' = out /\ 0 <= len' <= len.
Proof.
  unfold remove_padding. intros H Hlen.
  destruct (load out (uint32 (len - 1))) as [last|]; [|discriminate]. simpl in H.
  destruct ((byte.unsigned last <=? 16) && (byte.unsigned last >? 0)).
  - destruct (pkcs7_unpadding out len) as [[[r d] l]|] eqn:Hu; [|discriminate].
    simpl in H. injection H as <- <-.
    eapply pkcs7_unpadding_bounds; eassumption.
  - injection H as <- <-. split; [reflexivity|lia].
Qed.

Section ChunkBounds.

Hypothesis CHUNK_SIZE_aligned : CHUNK_SIZE mod 16 = 0.
Hypothesis CHUNK_SIZE_fits : CHUNK_SIZE + 64 < 2 ^ 32.

(** The arrays keep their sizes, and a chunk of at most [CHUNK_SIZE]
    bytes yields at most [CHUNK_SIZE] bytes. *)
Lemma process_file_chunk_bounds mode input_data input_len output_data session key r :
  process_file_chunk_with_key mode input_data input_len output_data session key
    = Some r ->
  0 <= input_len <= CHUNK_SIZE ->
  length (cr_input r) = length input_data /\
  length (cr_output r) = length output_data /\
  (cr_ret r = 0 -> 0 <= cr_output_len r <= CHUNK_SIZE).
Proof.
  intros Hrun Hlen. destruct mode; simpl in Hrun.
  - assert (Henc : forall data plen,
      length data = length input_data -> 0 <= plen <= CHUNK_SIZE ->
      encrypt_chunk data plen input_len output_data session key = Some r ->
      length (cr_input r) = length input_data /\
      length (cr_output r) = length output_data /\
      (cr_ret r = 0 -> 0 <= cr_output_len r <= CHUNK_SIZE)).
    { intros data plen Hd Hp He.
      destruct (Z.eq_dec (cr_ret r) 0) as [Hret|Hret].
      - destruct (encrypt_chunk_success _ _ _ _ _ _ _ He Hret)
          as (out & _ & Hw & Hol & Hin & _ & _).
        apply write_prefix_Some in Hw as (_ & Hw & _).
        rewrite Hin, Hol. auto.
      - unfold encrypt_chunk in He.
        destruct (AES_Crypto _) as [out|].
        + destruct (write_prefix output_data out); [|discriminate]. simpl in He.
          destruct (memcpy16 _ _); [|discriminate]. simpl in He.
          injection He as <-. simpl in Hret. congruence.
        + injection He as <-. simpl. repeat split; auto.
          all: simpl in Hret; congruence. }
    destruct (is_last_chunk session && negb (input_len mod 16 =? 0)) eqn:Hpad.
    + destruct (input_len <=? CHUNK_SIZE).
      * destruct (pkcs7_padding input_data input_len 16) as [[padded plen]|] eqn:Hp;
          [|discriminate].
        simpl in Hrun.
        apply pkcs7_padding_Some_16 in Hp as [-> Hpl]; try lia.
        refine (Henc _ _ Hpl _ Hrun).
        apply andb_prop in Hpad as [_ Hna]. apply negb_true_iff, Z.eqb_neq in Hna.
        pose proof (Z.mod_pos_bound input_len 16 ltac:(lia)).
        assert (Hk := Z.div_mod CHUNK_SIZE 16 ltac:(lia)).
        assert (Hi := Z.div_mod input_len 16 ltac:(lia)).
        assert (input_len / 16 < CHUNK_SIZE / 16) by nia. nia.
      * injection Hrun as <-. simpl. repeat split; auto; lia.
    + apply (Henc _ _ eq_refl Hlen Hrun).
  - destruct (Z.eq_dec (cr_ret r) 0) as [Hret|Hret].
    + destruct (decrypt_chunk_success _ _ _ _ _ _ Hrun Hret)
        as (out & out1 & _ & Hw & Hrm & Hin & _ & _).
      apply write_prefix_Some in Hw as (_ & Hw & _).
      rewrite Hin. split; [reflexivity|].
      destruct (is_last_chunk session).
      * apply remove_padding_bounds in Hrm as [-> Hb]; [|lia].
        split; [exact Hw|]. intros _. lia.
      * injection Hrm as <- <-. split; [exact Hw|]. intros _. lia.
    + unfold decrypt_chunk in Hrun.
      destruct (AES_Crypto _) as [out|].
      * destruct (write_prefix output_data out); [|discriminate]. simpl in Hrun.
        destruct (if is_last_chunk session then _ else _) as [[o2 l2]|]; [|discriminate].
        simpl in Hrun. destruct (memcpy16 _ _); [|discriminate]. simpl in Hrun.
        injection Hrun as <-. simpl in Hret. congruence.
      * injection Hrun as <-. simpl. repeat split; auto; lia.
Qed.

End ChunkBounds.

Lemma get_input_buffer_run {B} (k : list byte -> device B) w :
  (get_input_buffer ≫= k) w = k (input_buffer w) w.
Proof. reflexivity. Qed.

Lemma get_output_buffer_run {B} (k : list byte -> device B) w :
  (get_output_buffer ≫= k) w = k (output_buffer w) w.
Proof. reflexivity. Qed.

Lemma set_input_buffer_run {B} data (k : unit -> device B) w :
  (set_input_buffer data ≫= k) w = k tt (with_input_buffer data w).
Proof. reflexivity. Qed.

Lemma set_output_buffer_run {B} data (k : unit -> device B) w :
  (set_output_buffer data ≫= k) w = k tt (with_output_buffer data w).
Proof. reflexivity. Qed.

Lemma defined_bind {A B} (o : option A) (k : A -> device B) w :
  (defined o ≫= k) w = match o with Some a => k a w | None => Stuck OutOfBounds end.
Proof. destruct o; reflexivity. Qed.

Lemma read_exact_data_loop_length exact_len timeout start_time :
  forall script tick bytes_read lrt (data : list byte) r,
  read_exact_data_loop script tick exact_len timeout start_time bytes_read lrt data
    = inl r ->
  length (rr_data r) = length data.
Proof.
  induction script as [|[dt [b|]] script IH]; intros tick br lrt data r H;
    simpl in H; destruct (br <? exact_len); try discriminate;
    try (injection H as <-; reflexivity).
  - unfold store in H.
    destruct ((0 <=? br) && (br <? Z.of_nat (length data))); [|discriminate].
    apply IH in H. rewrite length_insert in H. exact H.
  - destruct (_ >? 500000); [injection H as <-; reflexivity|].
    destruct (_ >? timeout); [injection H as <-; reflexivity|].
    eapply IH. exact H.
Qed.

(** [read_exact_data] prints nothing, leaves the global buffers to its
    caller and keeps the size of the array it fills. *)
Lemma read_exact_data_world (data : list byte) exact_len timeout_ms w n data' w' :
  read_exact_data data exact_len timeout_ms w = Ret (n, data') w' ->
  stdout w' = stdout w /\ input_buffer w' = input_buffer w /\
  output_buffer w' = output_buffer w /\ length data' = length data.
Proof.
  unfold read_exact_data.
  destruct (read_exact_data_loop _ _ _ _ _ _ _ _) as [r|] eqn:Hloop; [|discriminate].
  intros [= <- <- <-]. simpl. repeat split.
  eapply read_exact_data_loop_length. exact Hloop.
Qed.

Lemma stream_loop_unfold fuel mode key file_size session total_received chunk_count :
  stream_loop (S fuel) mode key file_size session total_received chunk_count =
  if total_received <? file_size then
    let chunk_count := uint32 (chunk_count + 1) in
    let chunk_size := chunk_size_of file_size total_received in
    printf ("WAIT_CHUNK:" ++ fmt_d chunk_size)%string;;
    buf ← get_input_buffer;
    '(received_len, buf) ← read_exact_data buf chunk_size 10000;
    set_input_buffer buf;;
    if received_len =? chunk_size then
      let total_received := uint32 (total_received + received_len) in
      printf ("CHUNK_RECEIVED:" ++ fmt_d received_len)%string;;
      let session :=
        if total_received >=? file_size
        then set_is_last_chunk session true else session in
      out ← get_output_buffer;
      r ← defined (process_file_chunk_with_key mode buf received_len out
                     session key);
      set_input_buffer (cr_input r);;
      set_output_buffer (cr_output r);;
      let session := cr_session r in
      if negb (cr_ret r =? 0) then
        printf "B64:";;
        printf ("CHUNK_PROCESSED:" ++ fmt_d received_len ++ "->" ++ fmt_d 0)%string;;
        mret (session, total_received, chunk_count)
      else
        send_encrypted_data_base64 (cr_output r) (cr_output_len r);;
        printf ("CHUNK_PROCESSED:" ++ fmt_d received_len ++ "->"
                  ++ fmt_d (cr_output_len r))%string;;
        let progress := uint32 (total_received * 100) / file_size in
        printf ("PROGRESS:" ++ fmt_d progress ++ "%")%string;;
        stream_loop fuel mode key file_size session total_received chunk_count
    else
      mret (session, total_received, chunk_count)
  else mret (session, total_received, chunk_count).
Proof. reflexivity. Qed.

(** One iteration of the loop on a chunk that arrives whole and is
    processed successfully. *)
Lemma stream_loop_chunk fuel mode key file_size session total_received chunk_count
    w buf w1 r b64 :
  total_received < file_size ->
  let n := chunk_size_of file_size total_received in
  read_exact_data (input_buffer w) n 10000
    (emit [("WAIT_CHUNK:" ++ fmt_d n)%string] w) = Ret (n, buf) w1 ->
  let total' := uint32 (total_received + n) in
  let session' :=
    if total' >=? file_size then set_is_last_chunk session true else session in
  process_file_chunk_with_key mode buf n (output_buffer w) session' key = Some r ->
  cr_ret r = 0 ->
  (forall w, send_encrypted_data_base64 (cr_output r) (cr_output_len r) w
             = Ret tt (emit [("B64:" ++ b64)%string] w)) ->
  stream_loop (S fuel) mode key file_size session total_received chunk_count w =
  stream_loop fuel mode key file_size (cr_session r) total' (uint32 (chunk_count + 1))
    (World (system_tick w1) (usart_rx w1)
       (stdout w ++ [("WAIT_CHUNK:" ++ fmt_d n)%string;
                     ("CHUNK_RECEIVED:" ++ fmt_d n)%string;
                     ("B64:" ++ b64)%string;
                     ("CHUNK_PROCESSED:" ++ fmt_d n ++ "->"
                        ++ fmt_d (cr_output_len r))%string;
                     ("PROGRESS:" ++ fmt_d (uint32 (total' * 100) / file_size)
                        ++ "%")%string])
       (cr_input r) (cr_output r)).
Proof.
  intros Hlt n Hread total' session' Hproc Hret Hsend.
  rewrite stream_loop_unfold.
  destruct (Z.ltb_spec total_received file_size); [|lia].
  cbv zeta. fold n.
  rewrite printf_run, get_input_buffer_run.
  change (input_buffer (emit [("WAIT_CHUNK:" ++ fmt_d n)%string] w))
    with (input_buffer w).
  rewrite (bind_run _ _ _ _ _ Hread).
  apply read_exact_data_world in Hread as (Hs1 & Hi1 & Ho1 & Hl1).
  rewrite set_input_buffer_run, Z.eqb_refl.
  rewrite printf_run, get_output_buffer_run.
  change (output_buffer (emit _ (with_input_buffer buf w1))) with (output_buffer w1).
  rewrite Ho1. change (output_buffer (emit _ w)) with (output_buffer w).
  fold total'. fold session'. rewrite Hproc, defined_run.
  rewrite set_input_buffer_run, set_output_buffer_run.
  rewrite Hret. cbn [Z.eqb negb].
  rewrite (bind_run _ _ _ _ _ (Hsend _)).
  rewrite !printf_run. f_equal.
  unfold emit, with_input_buffer, with_output_buffer. simpl.
  rewrite Hs1. simpl. rewrite <- !app_assoc. reflexivity.
Qed.

Lemma stream_outputs_unfold fuel mode key file_size session total_received
    inbuf outbuf data :
  stream_outputs (S fuel) mode key file_size session total_received inbuf outbuf data =
  if total_received <? file_size then
    let chunk_size := chunk_size_of file_size total_received in
    let chunk := take (Z.to_nat chunk_size) data in
    if Z.of_nat (length chunk) =? chunk_size then
      inbuf ← write_prefix inbuf chunk;
      let total_received := uint32 (total_received + chunk_size) in
      let session :=
        if total_received >=? file_size
        then set_is_last_chunk session true else session in
      r ← process_file_chunk_with_key mode inbuf chunk_size outbuf session key;
      if cr_ret r =? 0 then
        rest ← stream_outputs fuel mode key file_size (cr_session r)
                 total_received (cr_input r) (cr_output r)
                 (drop (Z.to_nat chunk_size) data);
        Some (take (Z.to_nat (cr_output_len r)) (cr_output r) :: rest)
      else None
    else None
  else Some [].
Proof. reflexivity. Qed.

(** ** What a chunk does to the session *)

Lemma encrypt_chunk_accounting data padded_len input_len output_data session key r :
  encrypt_chunk data padded_len input_len output_data session key = Some r ->
  (cr_ret r = 0 /\
   cr_output_len r = padded_len /\
   cr_session r =
     Session (mode session) (iv (cr_session r))
       (uint32 (total_processed session + input_len))
       (total_file_size session) (is_first_chunk session) (is_last_chunk session)) \/
  (cr_ret r = -1 /\ cr_output_len r = 0 /\ cr_session r = session /\
   cr_output r = output_data).
Proof.
  unfold encrypt_chunk. intros H.
  destruct (AES_Crypto _) as [out|].
  2:{ injection H as <-. right. simpl. auto. }
  destruct (write_prefix output_data out) as [out1|]; [|discriminate].
  cbn [mbind option_bind] in H.
  destruct (memcpy16 out1 (padded_len - 16)) as [iv'|]; [|discriminate].
  cbn [mbind option_bind] in H. injection H as <-. left. simpl. auto.
Qed.

Lemma decrypt_chunk_accounting input_data input_len output_data session key r :
  decrypt_chunk input_data input_len output_data session key = Some r ->
  (cr_ret r = 0 /\
   cr_input r = input_data /\
   cr_session r =
     Session (mode session) (iv (cr_session r))
       (uint32 (total_processed session + input_len))
       (total_file_size session) (is_first_chunk session) (is_last_chunk session)) \/
  (cr_ret r = -1 /\ cr_output_len r = 0 /\ cr_session r = session /\
   cr_input r = input_data /\ cr_output r = output_data).
Proof.
  unfold decrypt_chunk. intros H.
  destruct (AES_Crypto _) as [out|].
  2:{ injection H as <-. right. simpl. auto. }
  destruct (write_prefix output_data out) as [out1|]; [|discriminate].
  cbn [mbind option_bind] in H.
  destruct (if is_last_chunk session then _ else _) as [[od ol]|]; [|discriminate].
  cbn [mbind option_bind] in H.
  destruct (memcpy16 input_data (input_len - 16)) as [iv'|]; [|discriminate].
  cbn [mbind option_bind] in H. injection H as <-. left. simpl. auto.
Qed.

Lemma process_file_chunk_accounting (mode0 : operation_mode_t) (input_data : list byte)
    (input_len : Z) (output_data : list byte) (session : session_state_t)
    (key : list byte) (r : chunk_result) :
  process_file_chunk_with_key mode0 input_data input_len output_data session key
    = Some r ->
  (cr_ret r = 0 /\
   cr_session r =
     Session (mode session) (iv (cr_session r))
       (uint32 (total_processed session + input_len))
       (total_file_size session) (is_first_chunk session) (is_last_chunk session)) \/
  (cr_ret r = -1 /\ cr_output_len r = 0 /\ cr_session r = session).
Proof.
  intros H. destruct mode0; simpl in H.
  - destruct (is_last_chunk session && negb (input_len mod 16 =? 0)).
    + destruct (input_len <=? CHUNK_SIZE).
      * destruct (pkcs7_padding input_data input_len 16) as [[padded plen]|];
          [|discriminate].
        cbn [mbind option_bind] in H.
        apply encrypt_chunk_accounting in H as [(? & _ & ?)|(? & ? & ? & _)];
          [left|right]; auto.
      * injection H as <-. right. simpl. auto.
    + apply encrypt_chunk_accounting in H as [(? & _ & ?)|(? & ? & ? & _)];
        [left|right]; auto.
  - apply decrypt_chunk_accounting in H as [(? & _ & ?)|(? & ? & ? & _)];
      [left|right]; auto.
Qed.

(** X9.  What [process_file_chunk_with_key] does to the session.  It
    returns 0 or -1.  On 0 the byte counter has grown by [input_len]
    (modulo 2^32) — the bytes taken in, not the bytes put out, so a
    padded last chunk counts without its pad — and only the counter and
    the chaining vector have changed.  On -1 the session is as it
    was. *)
Theorem chunk_accounting (mode0 : operation_mode_t) (input_data : list byte)
    (input_len : Z) (output_data : list byte) (session : session_state_t)
    (key : list byte) (r : chunk_result) :
  process_file_chunk_with_key mode0 input_data input_len output_data session key
    = Some r ->
  (cr_ret r = 0 /\
   cr_session r =
     Session (mode session) (iv (cr_session r))
       (uint32 (total_processed session + input_len))
       (total_file_size session) (is_first_chunk session) (is_last_chunk session)) \/
  (cr_ret r = -1 /\ cr_session r = session).
Proof.
  intros Hrun.
  destruct (process_file_chunk_accounting _ _ _ _ _ _ _ Hrun)
    as [Hok|(Hfail & _ & Hsame)]; [left; exact Hok|right; split; assumption].
Qed.

(** ** The encode buffer is large enough *)

Section ReferenceCapacity.

Hypothesis CHUNK_SIZE_1024 : CHUNK_SIZE = 1024.

Lemma chunk_size_of_bounds file_size total_received :
  0 <= total_received < file_size -> file_size < 2 ^ 32 ->
  1 <= chunk_size_of file_size total_received <= 1024 /\
  chunk_size_of file_size total_received
    = Z.min 1024 (file_size - total_received).
Proof.
  intros Ht Hf. unfold chunk_size_of. rewrite uint32_small by lia.
  rewrite CHUNK_SIZE_1024.
  destruct (Z.gtb_spec (file_size - total_received) 1024); lia.
Qed.

Lemma process_file_chunk_encodable mode input_data input_len output_data session key r :
  process_file_chunk_with_key mode input_data input_len output_data session key
    = Some r ->
  0 <= input_len <= 1024 -> length output_data = 1088%nat ->
  length (cr_input r) = length input_data /\
  length (cr_output r) = 1088%nat /\
  (cr_ret r = 0 ->
   0 <= cr_output_len r <= 1024 /\
   uint32 (4 * (uint32 (cr_output_len r + 2) / 3)) <= 1368 /\
   exists b64,
     base64_loop (Z.to_nat ((cr_output_len r + 2) / 3)) 0 (cr_output r)
       (cr_output_len r) = Some b64 /\
     forall w, send_encrypted_data_base64 (cr_output r) (cr_output_len r) w
               = Ret tt (emit [("B64:" ++ b64)%string] w)).
Proof.
  intros Hrun Hlen Hout.
  destruct (process_file_chunk_bounds ltac:(rewrite CHUNK_SIZE_1024; reflexivity)
              ltac:(rewrite CHUNK_SIZE_1024; reflexivity)
              _ _ _ _ _ _ _ Hrun ltac:(lia)) as (Hi & Ho & Hb).
  rewrite Hout in Ho. split; [exact Hi|]. split; [exact Ho|].
  intros Hret. specialize (Hb Hret). split; [lia|].
  apply send_encrypted_data_base64_emits; lia.
Qed.

Lemma stream_loop_never_overflows_b64 fuel : forall mode key file_size session
    total_received chunk_count w st w',
  0 <= total_received -> file_size < 2 ^ 32 ->
  length (input_buffer w) = 1088%nat -> length (output_buffer w) = 1088%nat ->
  stream_loop fuel mode key file_size session total_received chunk_count w
    = Ret st w' ->
  exists lines, stdout w' = stdout w ++ lines /\ ~ In b64_error lines.
Proof.
  induction fuel as [|fuel IH];
    intros mode key file_size session total count w st w' Ht Hf Hin Hout Hrun.
  - simpl in Hrun. destruct (total <? file_size); [discriminate|].
    injection Hrun as <- <-. exists []. rewrite app_nil_r. auto.
  - rewrite stream_loop_unfold in Hrun.
    destruct (Z.ltb_spec total file_size) as [Hlt|Hge].
    2:{ injection Hrun as <- <-. exists []. rewrite app_nil_r. auto. }
    cbv zeta in Hrun.
    destruct (chunk_size_of_bounds file_size total ltac:(lia) Hf) as [Hcs _].
    set (chunk_size := chunk_size_of file_size total) in *.
    rewrite printf_run, get_input_buffer_run in Hrun.
    match type of Hrun with
    | context [read_exact_data ?a ?b ?c ≫= _] =>
        destruct (read_exact_data a b c
                    (emit [("WAIT_CHUNK:" ++ fmt_d chunk_size)%string] w))
          as [[n buf] w1|why] eqn:Hread
    end.
    2:{ rewrite (bind_stuck _ _ _ _ Hread) in Hrun. discriminate. }
    rewrite (bind_run _ _ _ _ _ Hread) in Hrun.
    apply read_exact_data_world in Hread as (Hs1 & Hi1 & Ho1 & Hl1).
    simpl in Hs1, Hi1, Ho1, Hl1.
    rewrite set_input_buffer_run in Hrun.
    destruct (Z.eqb_spec n chunk_size) as [->|Hn].
    2:{ injection Hrun as <- <-. simpl. rewrite Hs1. eexists. split; [reflexivity|].
        unfold b64_error. simpl. intros [H|[]]. discriminate. }
    rewrite printf_run, get_output_buffer_run, defined_bind in Hrun.
    simpl output_buffer in Hrun.
    destruct (process_file_chunk_with_key _ _ _ _ _ _) as [r|] eqn:Hproc;
      [|discriminate].
    apply process_file_chunk_encodable in Hproc as (Hri & Hro & Hok);
      [|lia|congruence].
    rewrite set_input_buffer_run, set_output_buffer_run in Hrun.
    destruct (Z.eqb_spec (cr_ret r) 0) as [Hret|Hret]; cbn [negb] in Hrun.
    + destruct (Hok Hret) as (_ & _ & b64 & _ & Hsend).
      rewrite (bind_run _ _ _ _ _ (Hsend _)) in Hrun.
      rewrite !printf_run in Hrun.
      apply IH in Hrun as (lines & Hlines & Hno);
        [|apply uint32_nonneg|exact Hf|simpl; congruence|simpl; exact Hro].
      simpl in Hlines. rewrite Hs1 in Hlines.
      rewrite <- !app_assoc in Hlines. eexists. split; [exact Hlines|].
      unfold b64_error in *. simpl.
      intros [H|[H|[H|[H|[H|H]]]]]; try discriminate. exact (Hno H).
    + rewrite !printf_run in Hrun. injection Hrun as <- <-. simpl.
      rewrite Hs1, <- !app_assoc. eexists. split; [reflexivity|].
      unfold b64_error. simpl. intros [H|[H|[H|[H|[]]]]]; discriminate.
Qed.

(** C10.  At the chunk capacity of 1024: every chunk the streaming loop
    asks for has between 1 and 1024 bytes, the minimum of 1024 and what
    remains; a chunk of at most 1024 bytes that is processed
    successfully yields at most 1024 bytes, whose encoded length
    [4 * ((len + 2) / 3)] is at most 1368, below the 1500 bytes of the
    encode buffer, so the encoder prints it as a [B64:] line; and no
    run of the streaming loop prints the "Base64 buffer too small"
    error. *)
Theorem base64_buffer_error_unreachable :
  (forall file_size total_received,
     0 <= total_received < file_size -> file_size < 2 ^ 32 ->
     1 <= chunk_size_of file_size total_received <= 1024 /\
     chunk_size_of file_size total_received
       = Z.min 1024 (file_size - total_received)) /\
  (forall mode input_data input_len output_data session key r,
     process_file_chunk_with_key mode input_data input_len output_data session key
       = Some r ->
     cr_ret r = 0 ->
     0 <= input_len <= 1024 -> length output_data = 1088%nat ->
     0 <= cr_output_len r <= 1024 /\
     uint32 (4 * (uint32 (cr_output_len r + 2) / 3)) <= 1368 /\
     1368 < B64_BUFFER_SIZE /\
     exists b64,
       forall w, send_encrypted_data_base64 (cr_output r) (cr_output_len r) w
                 = Ret tt (emit [("B64:" ++ b64)%string] w)) /\
  (forall fuel mode key file_size session total_received chunk_count w st w',
     0 <= total_received -> file_size < 2 ^ 32 ->
     length (input_buffer w) = 1088%nat -> length (output_buffer w) = 1088%nat ->
     stream_loop fuel mode key file_size session total_received chunk_count w
       = Ret st w' ->
     exists lines,
       stdout w' = stdout w ++ lines /\
       ~ In "ERROR: Base64 buffer too small"%string lines).
Proof.
  split; [exact chunk_size_of_bounds|]. split.
  - intros mode input_data input_len output_data session key r Hrun Hret Hlen Hout.
    destruct (process_file_chunk_encodable _ _ _ _ _ _ _ Hrun Hlen Hout)
      as (_ & _ & Hok).
    destruct (Hok Hret) as (Hb & Hl & b64 & _ & Hsend).
    repeat split; try lia; try reflexivity. exists b64. exact Hsend.
  - intros. eapply stream_loop_never_overflows_b64; eassumption.
Qed.

Lemma stream_loop_done fuel mode key file_size session total_received chunk_count w :
  file_size <= total_received ->
  stream_loop fuel mode key file_size session total_received chunk_count w =
    Ret (session, total_received, chunk_count) w.
Proof.
  intros H. destruct fuel; simpl;
    destruct (Z.ltb_spec total_received file_size); try lia; reflexivity.
Qed.

(** C8.  Decrypt session, last chunk of [n] bytes received whole, cipher
    call successful, [pkcs7_unpadding] returning -1 on the decrypted
    chunk: the session goes on as for any other chunk.  The output
    array holds what the cipher wrote, all [n] bytes are encoded, the
    chunk is reported as [n->n] with progress 100%, the loop ends and the
    summary and the success verdict follow. *)
Theorem invalid_padding_is_not_fatal (fuel : nat) (key : list byte)
    (file_size : Z) (session : session_state_t) (total_received chunk_count : Z)
    (w w1 : world) (buf out out1 v d : list byte) (last : byte) (l : Z) :
  1 <= file_size <= 1000000 ->
  0 <= total_received < file_size ->
  let n := file_size - total_received in
  n <= 1024 ->
  length (output_buffer w) = 1088%nat ->
  read_exact_data (input_buffer w) n 10000
    (emit [("WAIT_CHUNK:" ++ fmt_d n)%string] w) = Ret (n, buf) w1 ->
  AES_Crypto (decrypt_parm buf n (set_is_last_chunk session true) key) = Some out ->
  write_prefix (output_buffer w) out = Some out1 ->
  load out1 (n - 1) = Some last ->
  pkcs7_unpadding out1 n = Some (-1, d, l) ->
  memcpy16 buf (n - 16) = Some v ->
  process_file_chunk_with_key OP_DECRYPT buf n (output_buffer w)
    (set_is_last_chunk session true) key
    = Some (ChunkResult 0 n
              (set_total_processed (set_iv (set_is_last_chunk session true) v)
                 (uint32 (total_processed session + n)))
              buf out1) /\
  exists b64,
    base64_loop (Z.to_nat ((n + 2) / 3)) 0 out1 n = Some b64 /\
    (stream_loop (S fuel) OP_DECRYPT key file_size session total_received
       chunk_count ≫= stream_summary file_size) w =
    Ret tt
      (World (system_tick w1) (usart_rx w1)
         (stdout w ++ [("WAIT_CHUNK:" ++ fmt_d n)%string;
                       ("CHUNK_RECEIVED:" ++ fmt_d n)%string;
                       ("B64:" ++ b64)%string;
                       ("CHUNK_PROCESSED:" ++ fmt_d n ++ "->" ++ fmt_d n)%string;
                       "PROGRESS:100%"%string;
                       "STREAM_COMPLETE"%string;
                       ("SUMMARY: received=" ++ fmt_lu file_size
                          ++ ", processed="
                          ++ fmt_lu (uint32 (total_processed session + n))
                          ++ ", chunks=" ++ fmt_lu (uint32 (chunk_count + 1)))%string;
                       "SUCCESS: All data processed"%string])
         buf out1).
Proof.
  intros Hfs Ht n Hn Hout Hread Haes Hw Hl Hu Hm.
  assert (Hcs : chunk_size_of file_size total_received = n).
  { destruct (chunk_size_of_bounds file_size total_received) as [_ ->]; lia. }
  assert (Hproc : process_file_chunk_with_key OP_DECRYPT buf n (output_buffer w)
            (set_is_last_chunk session true) key
          = Some (ChunkResult 0 n
              (set_total_processed (set_iv (set_is_last_chunk session true) v)
                 (uint32 (total_processed session + n)))
              buf out1)).
  { assert (Hl' : load out1 (uint32 (n - 1)) = Some last)
      by (rewrite uint32_small by lia; exact Hl).
    exact (decrypt_chunk_tolerates_invalid_padding buf n (output_buffer w)
             (set_is_last_chunk session true) key out out1 v last d l
             eq_refl Haes Hw Hl' Hu Hm). }
  split; [exact Hproc|].
  match type of Hproc with _ = Some ?x => set (r := x) in * end.
  destruct (process_file_chunk_encodable _ _ _ _ _ _ _ Hproc ltac:(lia) Hout)
    as (_ & _ & Hok).
  destruct (Hok eq_refl) as (_ & _ & b64 & Hb64 & Hsend). clear Hok.
  exists b64. split; [exact Hb64|].
  assert (Htot : uint32 (total_received + n) = file_size)
    by (rewrite uint32_small; lia).
  pose proof (stream_loop_chunk fuel OP_DECRYPT key file_size session
                total_received chunk_count w buf w1 r b64 (proj2 Ht)) as Hstep.
  cbv zeta in Hstep. rewrite Hcs, Htot in Hstep.
  destruct (Z.geb_spec file_size file_size) as [_|]; [|lia].
  specialize (Hstep Hread Hproc eq_refl Hsend).
  rewrite (stream_loop_done fuel) in Hstep by lia.
  assert (Hprog : uint32 (file_size * 100) / file_size = 100).
  { rewrite uint32_small by lia. rewrite Z.mul_comm. apply Z.div_mul. lia. }
  rewrite Hprog in Hstep.
  rewrite (bind_run _ _ _ _ _ Hstep).
  unfold stream_summary. rewrite !printf_run. cbn [cr_session].
  rewrite Z.eqb_refl. unfold printf. rewrite !emit_emit. unfold emit. simpl.
  rewrite <- !app_assoc. reflexivity.
Qed.

(** ** The loop and the stream function agree *)

Lemma prompt_app (a b : list byte) : prompt (a ++ b) = prompt a ++ prompt b.
Proof. apply map_app. Qed.

(** One pass through the loop for a chunk that arrives in time and is
    processed successfully: the polls of the chunk are consumed, the
    five lines of the chunk are printed, and the loop goes on with the
    session and the arrays that [process_file_chunk_with_key] left. *)
Lemma stream_loop_step fuel mode key file_size session total_received chunk_count w
    (chunk : list byte) pre rest r :
  0 <= total_received < file_size -> file_size < 2 ^ 32 ->
  length (input_buffer w) = 1088%nat -> length (output_buffer w) = 1088%nat ->
  let n := chunk_size_of file_size total_received in
  Z.of_nat (length chunk) = n -> in_time 10000 chunk pre ->
  usart_rx w = pre ++ rest ->
  let buf := chunk ++ drop (length chunk) (input_buffer w) in
  let session' :=
    if total_received + n >=? file_size
    then set_is_last_chunk session true else session in
  process_file_chunk_with_key mode buf n (output_buffer w) session' key = Some r ->
  cr_ret r = 0 ->
  exists lines,
    stream_lines CHUNK_SIZE file_size total_received
      [take (Z.to_nat (cr_output_len r)) (cr_output r)] = Some lines /\
    stream_loop (S fuel) mode key file_size session total_received chunk_count w =
      stream_loop fuel mode key file_size (cr_session r) (total_received + n)
        (uint32 (chunk_count + 1))
        (World (tick_after (system_tick w) pre) rest (stdout w ++ lines)
               (cr_input r) (cr_output r)) /\
    length (cr_input r) = 1088%nat /\ length (cr_output r) = 1088%nat /\
    0 <= cr_output_len r <= 1024.
Proof.
  intros Ht Hf Hin Hout n Hn (Hrecv & Hquiet & Hend) Hscr buf session' Hproc Hret.
  destruct (chunk_size_of_bounds file_size total_received ltac:(lia) Hf) as [Hcs Hmin].
  fold n in Hcs, Hmin.
  assert (Htot : uint32 (total_received + n) = total_received + n)
    by (apply uint32_small; lia).
  destruct (process_file_chunk_encodable _ _ _ _ _ _ _ Hproc ltac:(lia) Hout)
    as (Hri & Hro & Hok).
  destruct (Hok Hret) as (Hol & _ & b64 & Hb64 & Hsend). clear Hok.
  assert (Hbuf : length buf = 1088%nat).
  { unfold buf. rewrite length_app, length_drop. lia. }
  set (w0 := emit [("WAIT_CHUNK:" ++ fmt_d n)%string] w).
  set (w1 := World (tick_after (system_tick w0) pre) rest (stdout w0)
               (input_buffer w0) (output_buffer w0)).
  assert (Hread : read_exact_data (input_buffer w) n 10000 w0 = Ret (n, buf) w1).
  { pose proof (read_exact_data_full (input_buffer w) n 10000 w0 pre rest
                  ltac:(lia) ltac:(lia) ltac:(lia) Hscr
                  ltac:(rewrite Hrecv; exact Hn) ltac:(lia) Hquiet Hend) as Hfull.
    rewrite Hrecv in Hfull. exact Hfull. }
  pose proof (stream_loop_chunk fuel mode key file_size session total_received
                chunk_count w buf w1 r b64 (proj2 Ht)) as Hstep.
  cbv zeta in Hstep. fold n in Hstep. rewrite Htot in Hstep.
  specialize (Hstep Hread Hproc Hret Hsend).
  eexists. split; [|split; [rewrite Hstep; reflexivity|]].
  - cbn [stream_lines]. fold n. rewrite Htot.
    rewrite base64_encode_take by lia. rewrite Hb64. cbn [mbind option_bind].
    rewrite length_take.
    replace (Z.of_nat (Z.to_nat (cr_output_len r) `min` length (cr_output r)))
      with (cr_output_len r) by lia.
    reflexivity.
  - split; [congruence|]. split; [exact Hro|lia].
Qed.

Lemma stream_lines_cons file_size total_received out outs :
  stream_lines CHUNK_SIZE file_size total_received (out :: outs) =
    (l1 ← stream_lines CHUNK_SIZE file_size total_received [out];
     l2 ← stream_lines CHUNK_SIZE file_size
            (uint32 (total_received + chunk_size_of file_size total_received)) outs;
     Some (l1 ++ l2)).
Proof.
  cbn [stream_lines]. destruct (base64_encode out); [|reflexivity].
  cbn [mbind option_bind]. destruct (stream_lines _ _ _ outs); [|reflexivity].
  cbn [mbind option_bind]. rewrite app_nil_r. reflexivity.
Qed.

(** With a host that delivers every chunk of the rest of the file in
    time, the streaming loop runs to its end and prints the lines of
    [stream_lines] for the chunk outputs that [stream_outputs] computes
    from the same bytes, and nothing else.  It has then received the
    whole file, counted every byte of it as processed, and counted one
    chunk per started 1024 bytes. *)
Lemma stream_loop_follows_outputs fuel : forall mode key file_size session
    total_received chunk_count w (data : list byte) segments rest outs,
  0 <= total_received -> file_size < 2 ^ 32 ->
  length (input_buffer w) = 1088%nat -> length (output_buffer w) = 1088%nat ->
  Z.of_nat (length data) = file_size - total_received ->
  0 <= chunk_count -> chunk_count + (file_size - total_received) < 2 ^ 32 ->
  0 <= total_processed session ->
  total_processed session + (file_size - total_received) < 2 ^ 32 ->
  chunks_in_time 1024 data segments ->
  usart_rx w = concat segments ++ rest ->
  stream_outputs fuel mode key file_size session total_received
    (input_buffer w) (output_buffer w) data = Some outs ->
  exists lines session' w',
    stream_lines CHUNK_SIZE file_size total_received outs = Some lines /\
    stream_loop fuel mode key file_size session total_received chunk_count w
      = Ret (session', file_size, chunk_count + Z.of_nat (length outs)) w' /\
    Z.of_nat (length outs) = (file_size - total_received + 1023) / 1024 /\
    total_processed session'
      = total_processed session + (file_size - total_received) /\
    stdout w' = stdout w ++ lines /\
    usart_rx w' = rest /\
    length (input_buffer w') = 1088%nat /\ length (output_buffer w') = 1088%nat.
Proof.
  assert (Hempty : forall segments rest, chunks_in_time 1024 [] segments ->
            concat segments ++ rest = rest).
  { intros [|pre segments] rest' H; [reflexivity|]. destruct H as [H _].
    contradiction. }
  induction fuel as [|fuel IH];
    intros mode key file_size session total count w data segments rest outs
      Ht Hf Hin Hout Hdata Hc0 Hc Hp0 Hp Hseg Hscr Houts.
  - simpl in Houts. destruct (Z.ltb_spec total file_size); [discriminate|].
    injection Houts as <-. exists [], session, w.
    assert (total = file_size) by lia. subst total.
    destruct data; [|simpl in Hdata; lia].
    rewrite (Hempty _ _ Hseg) in Hscr.
    rewrite stream_loop_done by lia. rewrite app_nil_r, Z.sub_diag, !Z.add_0_r.
    simpl. repeat split; auto.
  - rewrite stream_outputs_unfold in Houts.
    destruct (Z.ltb_spec total file_size) as [Hlt|Hge].
    2:{ injection Houts as <-. exists [], session, w.
        assert (total = file_size) by lia. subst total.
        destruct data; [|simpl in Hdata; lia].
        rewrite (Hempty _ _ Hseg) in Hscr.
        rewrite stream_loop_done by lia. rewrite app_nil_r, Z.sub_diag, !Z.add_0_r.
        simpl. repeat split; auto. }
    cbv zeta in Houts.
    destruct (chunk_size_of_bounds file_size total ltac:(lia) Hf) as [Hcs Hmin].
    set (n := chunk_size_of file_size total) in *.
    set (chunk := take (Z.to_nat n) data) in *.
    destruct (Z.eqb_spec (Z.of_nat (length chunk)) n) as [Hn|]; [|discriminate].
    rewrite write_prefix_fits in Houts by lia. cbn [mbind option_bind] in Houts.
    set (buf := chunk ++ drop (length chunk) (input_buffer w)) in *.
    assert (Htot : uint32 (total + n) = total + n) by (apply uint32_small; lia).
    rewrite Htot in Houts.
    set (session' := if total + n >=? file_size
                     then set_is_last_chunk session true else session) in *.
    destruct (process_file_chunk_with_key mode buf n (output_buffer w) session' key)
      as [r|] eqn:Hproc; [|discriminate].
    cbn [mbind option_bind] in Houts.
    destruct (Z.eqb_spec (cr_ret r) 0) as [Hret|]; [|discriminate].
    destruct (stream_outputs fuel mode key file_size (cr_session r) (total + n)
                (cr_input r) (cr_output r) (drop (Z.to_nat n) data))
      as [outs'|] eqn:Hrest; [|discriminate].
    injection Houts as <-.
    destruct segments as [|pre segments]; [simpl in Hseg; subst data; simpl in Hdata; lia|].
    destruct Hseg as (_ & Hpre & Hseg).
    assert (Htake : take 1024 data = chunk /\ drop 1024 data = drop (Z.to_nat n) data).
    { unfold chunk. destruct (Z.min_spec 1024 (file_size - total)) as [[? Hm]|[? Hm]];
        rewrite Hm in Hmin.
      - rewrite Hmin. split; reflexivity.
      - rewrite !take_ge, !drop_ge by lia. split; reflexivity. }
    destruct Htake as [Htake Hdrop]. rewrite Htake in Hpre. rewrite Hdrop in Hseg.
    assert (Hacc : total_processed (cr_session r) = total_processed session + n).
    { destruct (process_file_chunk_accounting _ _ _ _ _ _ _ Hproc)
        as [[_ Hs]|[Hbad _]]; [|lia].
      rewrite Hs. cbn [total_processed].
      assert (Htp : total_processed session' = total_processed session).
      { unfold session'. destruct (total + n >=? file_size); reflexivity. }
      rewrite Htp. apply uint32_small. lia. }
    destruct (stream_loop_step fuel mode key file_size session total count w
                chunk pre (concat segments ++ rest) r)
      as (lines1 & Hlines1 & Hstep & Hri & Hro & Hol); try assumption; try lia.
    { rewrite Hscr. cbn [concat]. rewrite <- app_assoc. reflexivity. }
    fold n in Hstep.
    match type of Hstep with _ = stream_loop _ _ _ _ _ _ _ ?x => set (w2 := x) in * end.
    destruct (IH mode key file_size (cr_session r) (total + n) (uint32 (count + 1)) w2
                (drop (Z.to_nat n) data) segments rest outs')
      as (lines & sf & w' & Hlines & Hrun & Hcount & Hproc' & Hstd & Hrx & Hi' & Ho');
      try (rewrite (uint32_small (count + 1)) by lia); try lia;
      try assumption; try reflexivity;
      [rewrite length_drop; lia|].
    eexists _, sf, w'. split; [|split; [|split; [|split; [|split; [|split]]]]].
    + rewrite stream_lines_cons. fold n. rewrite Htot, Hlines1, Hlines. reflexivity.
    + rewrite Hstep, Hrun. rewrite (uint32_small (count + 1)) by lia.
      do 2 f_equal. simpl length. lia.
    + simpl length. rewrite Nat2Z.inj_succ, Hcount.
      destruct (Z.min_spec 1024 (file_size - total)) as [[? Hm]|[? Hm]];
        rewrite Hm in Hmin.
      * replace (file_size - total + 1023)
          with (file_size - (total + n) + 1023 + 1 * 1024) by lia.
        rewrite Z.div_add by lia. lia.
      * replace (file_size - (total + n) + 1023) with 1023 by lia.
        Z.div_mod_to_equations. lia.
    + rewrite Hproc', Hacc. lia.
    + rewrite Hstd. unfold w2. cbn [stdout]. rewrite <- app_assoc. reflexivity.
    + exact Hrx.
    + auto.
Qed.



End ReferenceCapacity.

(** ** The negotiation and the ways a session ends early *)

Local Abbreviation await_key_iv :=
  (await_key_iv CHUNK_SIZE block_encrypt block_decrypt AES_irregular).
Local Abbreviation new_stream_file_processing :=
  (new_stream_file_processing CHUNK_SIZE block_encrypt block_decrypt AES_irregular).

(** X10.  The direction phase, once its read has returned.  Without a
    byte the session ends with "No operation received".  With a byte,
    'e' and 'E' select encryption and 'd' and 'D' decryption, each
    acknowledged; every other byte ends the session with "Invalid
    operation", and nothing further is read. *)
Theorem operation_selection (w w1 w2 : world) (n : Z) (op : list byte) :
  clear_receive_buffer (emit ["NEW_STREAM_MODE"; "WAIT_OPERATION"]%string w)
    = Ret tt w1 ->
  read_exact_data (replicate 1 Byte.x00) 1 1000 w1 = Ret (n, op) w2 ->
  (n <> 1 /\
   new_stream_file_processing w =
     Ret tt (emit ["ERROR:No operation received"%string] w2)) \/
  (n = 1 /\
   exists b, op = [b] /\
     let c := byte.unsigned b in
     ((c = 101 \/ c = 69) /\
      new_stream_file_processing w =
        await_key_iv OP_ENCRYPT (emit ["OPERATION:ENCRYPT"; "ACK"]%string w2)) \/
     ((c = 100 \/ c = 68) /\
      new_stream_file_processing w =
        await_key_iv OP_DECRYPT (emit ["OPERATION:DECRYPT"; "ACK"]%string w2)) \/
     (c <> 101 /\ c <> 69 /\ c <> 100 /\ c <> 68 /\
      new_stream_file_processing w =
        Ret tt (emit ["ERROR:Invalid operation"%string] w2))).
Proof.
  intros Hclear Hread.
  assert (Hrun : forall k : Z * list byte -> device unit,
            (printf "NEW_STREAM_MODE" ≫= fun _ => printf "WAIT_OPERATION" ≫= fun _ =>
             clear_receive_buffer ≫= fun _ =>
             read_exact_data (replicate 1 Byte.x00) 1 1000 ≫= k) w
            = k (n, op) w2).
  { intros k. rewrite !printf_run, emit_emit. rewrite (bind_run _ _ _ _ _ Hclear).
    apply (bind_run _ _ _ _ _ Hread). }
  unfold new_stream_file_processing. rewrite Hrun. clear Hrun.
  destruct (Z.eqb_spec n 1) as [->|Hn]; cbn [negb].
  2:{ left. split; [exact Hn|]. reflexivity. }
  right. split; [reflexivity|].
  apply read_exact_data_world in Hread as (_ & _ & _ & Hlen). simpl in Hlen.
  destruct op as [|b [|]]; try discriminate.
  exists b. split; [reflexivity|]. cbv zeta.
  change (load [b] 0) with (Some b). rewrite defined_run.
  destruct (Z.eqb_spec (byte.unsigned b) 101) as [He|He]; cbn [orb].
  { left. split; [auto|]. rewrite printf_run. unfold send_ack.
    rewrite printf_run, emit_emit. reflexivity. }
  destruct (Z.eqb_spec (byte.unsigned b) 69) as [HE|HE].
  { left. split; [auto|]. rewrite printf_run. unfold send_ack.
    rewrite printf_run, emit_emit. reflexivity. }
  destruct (Z.eqb_spec (byte.unsigned b) 100) as [Hd|Hd]; cbn [orb].
  { right. left. split; [auto|]. rewrite printf_run. unfold send_ack.
    rewrite printf_run, emit_emit. reflexivity. }
  destruct (Z.eqb_spec (byte.unsigned b) 68) as [HD|HD].
  { right. left. split; [auto|]. rewrite printf_run. unfold send_ack.
    rewrite printf_run, emit_emit. reflexivity. }
  right. right. repeat split; assumption || reflexivity.
Qed.

(** X11.  The key and IV phases never fail.  A read that brings all 16
    bytes of the key makes them the session key; a read that brings
    fewer, or none, makes the session key the bytes 1 to 16 and drops
    what came.  The IV is settled the same way, independently of the
    key.  Both end in an acknowledgement, and the session goes on to the
    size with a key and an IV of 16 bytes each. *)
Theorem key_iv_fallback (mode : operation_mode_t) (w w1 w2 w3 w4 : world)
    (nk ni : Z) (key iv : list byte) :
  clear_receive_buffer (emit ["WAIT_KEY"%string] w) = Ret tt w1 ->
  read_exact_data (replicate 16 Byte.x00) 16 5000 w1 = Ret (nk, key) w2 ->
  let key_line := if nk =? 16 then "Custom key received"%string
                  else "Using default key"%string in
  let key' := if nk =? 16 then key else default_key in
  clear_receive_buffer (emit [key_line; "ACK"; "WAIT_IV"]%string w2) = Ret tt w3 ->
  read_exact_data (replicate 16 Byte.x00) 16 5000 w3 = Ret (ni, iv) w4 ->
  let iv_line := if ni =? 16 then "Custom IV received"%string
                 else "Using default IV"%string in
  let iv' := if ni =? 16 then iv else default_iv in
  await_key_iv mode w = await_size mode key' iv' (emit [iv_line; "ACK"]%string w4) /\
  length key' = 16%nat /\ length iv' = 16%nat /\
  default_key = map byte.of_Z [1; 2; 3; 4; 5; 6; 7; 8; 9; 10; 11; 12; 13; 14; 15; 16].
Proof.
  intros Hc1 Hr1 key_line key' Hc2 Hr2 iv_line iv'.
  pose proof (read_exact_data_world _ _ _ _ _ _ _ Hr1) as (_ & _ & _ & Hkl).
  pose proof (read_exact_data_world _ _ _ _ _ _ _ Hr2) as (_ & _ & _ & Hil).
  simpl in Hkl, Hil.
  split; [|split; [|split]].
  - unfold await_key_iv. rewrite printf_run.
    rewrite (bind_run _ _ _ _ _ Hc1), (bind_run _ _ _ _ _ Hr1).
    cbv beta iota.
    assert (Hkey : forall k : list byte -> device unit,
              ((if negb (nk =? 16)
                then printf "Using default key";; mret default_key
                else printf "Custom key received";; mret key) ≫= k) w2
              = k key' (emit [key_line] w2)).
    { intros k. unfold key', key_line.
      destruct (nk =? 16); cbn [negb];
        rewrite bind_assoc_run, printf_run, mret_run; reflexivity. }
    rewrite Hkey. clear Hkey. unfold send_ack.
    rewrite !printf_run, !emit_emit. cbn [app].
    rewrite (bind_run _ _ _ _ _ Hc2), (bind_run _ _ _ _ _ Hr2).
    cbv beta iota.
    assert (Hivr : forall k : list byte -> device unit,
              ((if negb (ni =? 16)
                then printf "Using default IV";; mret default_iv
                else printf "Custom IV received";; mret iv) ≫= k) w4
              = k iv' (emit [iv_line] w4)).
    { intros k. unfold iv', iv_line.
      destruct (ni =? 16); cbn [negb];
        rewrite bind_assoc_run, printf_run, mret_run; reflexivity. }
    rewrite Hivr. clear Hivr.
    rewrite printf_run, emit_emit. reflexivity.
  - unfold key'. destruct (nk =? 16); [exact Hkl|reflexivity].
  - unfold iv'. destruct (ni =? 16); [exact Hil|reflexivity].
  - reflexivity.
Qed.

(** X12.  The verdict of a session looks at byte counts only.  When a
    chunk has arrived whole and [process_file_chunk_with_key] returns an
    error for it, the device prints an empty [B64:] line and the chunk
    as [n->0], leaves the loop, and prints the summary: the chunk counts
    as received and as a chunk, not as processed.  When it was the last
    chunk of the file the verdict is still "SUCCESS: All data
    processed"; otherwise it is the warning. *)
Theorem failed_chunk_verdict (fuel : nat) (mode0 : operation_mode_t)
    (key : list byte) (file_size : Z) (session : session_state_t)
    (total_received chunk_count : Z) (w w1 : world) (buf : list byte)
    (r : chunk_result) :
  total_received < file_size ->
  let n := chunk_size_of file_size total_received in
  read_exact_data (input_buffer w) n 10000
    (emit [("WAIT_CHUNK:" ++ fmt_d n)%string] w) = Ret (n, buf) w1 ->
  let total' := uint32 (total_received + n) in
  let session' :=
    if total' >=? file_size then set_is_last_chunk session true else session in
  process_file_chunk_with_key mode0 buf n (output_buffer w) session' key = Some r ->
  cr_ret r <> 0 ->
  (stream_loop (S fuel) mode0 key file_size session total_received chunk_count
     ≫= stream_summary file_size) w =
  Ret tt
    (World (system_tick w1) (usart_rx w1)
       (stdout w ++
          [("WAIT_CHUNK:" ++ fmt_d n)%string;
           ("CHUNK_RECEIVED:" ++ fmt_d n)%string;
           "B64:"%string;
           ("CHUNK_PROCESSED:" ++ fmt_d n ++ "->0")%string;
           "STREAM_COMPLETE"%string;
           ("SUMMARY: received=" ++ fmt_lu total'
              ++ ", processed=" ++ fmt_lu (total_processed session)
              ++ ", chunks=" ++ fmt_lu (uint32 (chunk_count + 1)))%string;
           (if (total' =? file_size)%Z
            then "SUCCESS: All data processed"
            else "WARNING: Incomplete: expected=" ++ fmt_lu file_size
                   ++ ", received=" ++ fmt_lu total')%string])
       (cr_input r) (cr_output r)).
Proof.
  intros Hlt n Hread total' session' Hproc Hret.
  assert (Hs : total_processed (cr_session r) = total_processed session).
  { destruct (process_file_chunk_accounting _ _ _ _ _ _ _ Hproc)
      as [[H0 _]|(_ & _ & ->)]; [contradiction|].
    unfold session'. destruct (total' >=? file_size); reflexivity. }
  assert (Hloop :
    stream_loop (S fuel) mode0 key file_size session total_received chunk_count w =
    Ret (cr_session r, total', uint32 (chunk_count + 1))
      (World (system_tick w1) (usart_rx w1)
         (stdout w ++
            [("WAIT_CHUNK:" ++ fmt_d n)%string;
             ("CHUNK_RECEIVED:" ++ fmt_d n)%string;
             "B64:"%string;
             ("CHUNK_PROCESSED:" ++ fmt_d n ++ "->0")%string])
         (cr_input r) (cr_output r))).
  { rewrite stream_loop_unfold.
    destruct (Z.ltb_spec total_received file_size); [|lia].
    cbv zeta. fold n.
    rewrite printf_run, get_input_buffer_run.
    change (input_buffer (emit [("WAIT_CHUNK:" ++ fmt_d n)%string] w))
      with (input_buffer w).
    rewrite (bind_run _ _ _ _ _ Hread).
    apply read_exact_data_world in Hread as (Hs1 & Hi1 & Ho1 & Hl1).
    rewrite set_input_buffer_run, Z.eqb_refl.
    rewrite printf_run, get_output_buffer_run.
    change (output_buffer (emit _ (with_input_buffer buf w1))) with (output_buffer w1).
    rewrite Ho1. change (output_buffer (emit _ w)) with (output_buffer w).
    fold total'. fold session'. rewrite Hproc, defined_run.
    rewrite set_input_buffer_run, set_output_buffer_run.
    destruct (Z.eqb_spec (cr_ret r) 0); [contradiction|]. cbn [negb].
    rewrite !printf_run. unfold mret, device_ret, ret. f_equal.
    unfold emit, with_input_buffer, with_output_buffer. simpl.
    rewrite Hs1. simpl. rewrite <- !app_assoc. reflexivity. }
  rewrite (bind_run _ _ _ _ _ Hloop).
  unfold stream_summary. rewrite !printf_run. rewrite Hs.
  destruct (total' =? file_size); unfold printf, emit; simpl;
    rewrite <- !app_assoc; reflexivity.
Qed.

(** X13.  A chunk that does not arrive whole ends the session.  When the
    read of a chunk returns fewer bytes than asked for, nothing is
    processed and nothing is encoded: the loop is left, the summary
    counts the bytes of the whole chunks before it and counts the
    incomplete chunk among the chunks, and the verdict is the
    "Incomplete" warning.  The bytes that did arrive are left in the
    input buffer. *)
Theorem short_chunk_ends_session (fuel : nat) (mode0 : operation_mode_t)
    (key : list byte) (file_size : Z) (session : session_state_t)
    (total_received chunk_count : Z) (w w1 : world) (received_len : Z)
    (buf : list byte) :
  total_received < file_size ->
  let n := chunk_size_of file_size total_received in
  read_exact_data (input_buffer w) n 10000
    (emit [("WAIT_CHUNK:" ++ fmt_d n)%string] w) = Ret (received_len, buf) w1 ->
  received_len <> n ->
  (stream_loop (S fuel) mode0 key file_size session total_received chunk_count
     ≫= stream_summary file_size) w =
  Ret tt
    (World (system_tick w1) (usart_rx w1)
       (stdout w ++
          [("WAIT_CHUNK:" ++ fmt_d n)%string;
           "STREAM_COMPLETE"%string;
           ("SUMMARY: received=" ++ fmt_lu total_received
              ++ ", processed=" ++ fmt_lu (total_processed session)
              ++ ", chunks=" ++ fmt_lu (uint32 (chunk_count + 1)))%string;
           ("WARNING: Incomplete: expected=" ++ fmt_lu file_size
              ++ ", received=" ++ fmt_lu total_received)%string])
       buf (output_buffer w)).
Proof.
  intros Hlt n Hread Hshort.
  assert (Hloop :
    stream_loop (S fuel) mode0 key file_size session total_received chunk_count w =
    Ret (session, total_received, uint32 (chunk_count + 1))
      (World (system_tick w1) (usart_rx w1)
         (stdout w ++ [("WAIT_CHUNK:" ++ fmt_d n)%string])
         buf (output_buffer w))).
  { rewrite stream_loop_unfold.
    destruct (Z.ltb_spec total_received file_size); [|lia].
    cbv zeta. fold n.
    rewrite printf_run, get_input_buffer_run.
    change (input_buffer (emit [("WAIT_CHUNK:" ++ fmt_d n)%string] w))
      with (input_buffer w).
    rewrite (bind_run _ _ _ _ _ Hread).
    apply read_exact_data_world in Hread as (Hs1 & Hi1 & Ho1 & Hl1).
    rewrite set_input_buffer_run.
    destruct (Z.eqb_spec received_len n); [contradiction|].
    unfold mret, device_ret, ret. f_equal.
    unfold with_input_buffer. rewrite Hs1, Ho1. reflexivity. }
  rewrite (bind_run _ _ _ _ _ Hloop).
  unfold stream_summary. rewrite !printf_run.
  destruct (Z.eqb_spec total_received file_size); [lia|].
  unfold printf, emit; simpl. rewrite <- !app_assoc. reflexivity.
Qed.

(** ** Padding at the end of the stream *)


Lemma pkcs7_unpadding_eq (data : list byte) len :
  0 < len <= Z.of_nat (length data) -> len < 2 ^ 32 ->
  pkcs7_unpadding data len =
    Some (if padding_ok data len
          then (0, data, len - last_byte_of data len)
          else (-1, data, len)).
Proof.
  intros Hlen Hmax. unfold pkcs7_unpadding, padding_ok, last_byte_of.
  destruct (Z.eqb_spec len 0); [lia|].
  destruct (load_in_range data (len - 1)) as [last ->]; [lia|].
  pose proof (byte.unsigned_range last).
  destruct (Z.eqb_spec (byte.unsigned last) 0); simpl; [reflexivity|].
  destruct (Z.gtb_spec (byte.unsigned last) len);
    destruct (Z.leb_spec (byte.unsigned last) len); try lia; simpl; [reflexivity|].
  rewrite pkcs7_unpadding_loop_forallb by lia.
  destruct (forallb _ _); [|reflexivity].
  rewrite uint32_small by lia. reflexivity.
Qed.




Lemma pkcs7_pad_length (chunk : list byte) :
  let n := Z.of_nat (length chunk) in
  Z.of_nat (length (pkcs7_pad chunk)) = n + (16 - n mod 16).
Proof.
  intros n. unfold pkcs7_pad. fold n.
  pose proof (Z.mod_pos_bound n 16 ltac:(lia)).
  rewrite length_app, length_replicate. lia.
Qed.



(** ** The cipher primitive *)

Section WithCipher.

Hypothesis cipher_ok : block_cipher_ok block_encrypt block_decrypt.

Lemma cbc_encrypt_length n : forall key iv data,
  length key = 16%nat -> length iv = 16%nat -> (16 * n <= length data)%nat ->
  length (cbc_encrypt n key iv data) = (16 * n)%nat.
Proof.
  induction n as [|n IH]; intros key iv data Hk Hiv Hd; simpl cbc_encrypt.
  - reflexivity.
  - assert (Hx : length (xor_block (take 16 data) iv) = 16%nat).
    { rewrite xor_block_length, length_take. lia. }
    destruct (cipher_ok key _ Hk Hx) as (Hc & _ & _).
    rewrite length_app, Hc, IH; try assumption; [lia|].
    rewrite length_drop. lia.
Qed.

Lemma cbc_decrypt_length n : forall key iv data,
  length key = 16%nat -> length iv = 16%nat -> (16 * n <= length data)%nat ->
  length (cbc_decrypt n key iv data) = (16 * n)%nat.
Proof.
  induction n as [|n IH]; intros key iv data Hk Hiv Hd; simpl cbc_decrypt.
  - reflexivity.
  - assert (Hc : length (take 16 data) = 16%nat) by (rewrite length_take; lia).
    destruct (cipher_ok key _ Hk Hc) as (_ & Hp & _).
    rewrite length_app, xor_block_length, Hp, Hiv, IH; try assumption; [lia|].
    rewrite length_drop. lia.
Qed.


(** The last block a CBC encryption pass writes. *)
Lemma cbc_encrypt_last_block n : forall key iv data,
  length key = 16%nat -> length iv = 16%nat -> (16 * S n <= length data)%nat ->
  length (drop (16 * n) (cbc_encrypt (S n) key iv data)) = 16%nat.
Proof.
  intros key iv data Hk Hiv Hd.
  rewrite length_drop, cbc_encrypt_length by assumption. lia.
Qed.

(** ** One chunk through the cipher *)

Lemma aligned_words len :
  16 <= len -> len mod 16 = 0 ->
  4 * (len / 4) = len /\ len / 4 / 4 = len / 16 /\ (len / 4) mod 4 = 0 /\
  0 < len / 4.
Proof.
  intros Hlen Hal.
  pose proof (Z.div_mod len 16 ltac:(lia)) as H16. rewrite Hal in H16.
  assert (Hq4 : len / 4 = len / 16 * 4).
  { symmetry. apply Z.div_unique_exact; lia. }
  repeat split.
  - lia.
  - rewrite Z.div_div by lia. reflexivity.
  - rewrite Hq4. apply Z.mod_mul. lia.
  - lia.
Qed.

Lemma AES_Crypto_encrypt data len session key :
  16 <= len -> len mod 16 = 0 ->
  AES_Crypto (encrypt_parm data len session key) =
    Some (cbc_encrypt (Z.to_nat (len / 16)) key (iv session)
            (take (Z.to_nat len) data)).
Proof.
  intros Hlen Hal. unfold AES_Crypto, encrypt_parm. simpl.
  destruct (aligned_words len Hlen Hal) as (Hq & Hqq & Hm & Hpos).
  destruct (Z.ltb_spec 0 (len / 4)); [|lia].
  rewrite Hm, Hq, Hqq. reflexivity.
Qed.


Lemma blocks_of_length len :
  0 <= len -> len mod 16 = 0 -> (16 * Z.to_nat (len / 16))%nat = Z.to_nat len.
Proof.
  intros H0 Hal. pose proof (Z.div_mod len 16 ltac:(lia)).
  assert (0 <= len / 16) by (apply Z.div_pos; lia). lia.
Qed.

Lemma memcpy16_tail (c rest : list byte) m :
  Z.of_nat (length c) = m -> 16 <= m ->
  memcpy16 (c ++ rest) (m - 16) = Some (drop (Z.to_nat (m - 16)) c).
Proof.
  intros Hc Hm. unfold memcpy16.
  destruct (Z.leb_spec 0 (m - 16)); [|lia].
  destruct (Z.leb_spec (m - 16 + 16) (Z.of_nat (length (c ++ rest))));
    [|rewrite length_app in *; lia].
  simpl. f_equal. rewrite drop_app_le by lia.
  rewrite take_app_length' by (rewrite length_drop; lia). reflexivity.
Qed.

(** The encrypt branch on a regular request. *)
Lemma encrypt_chunk_regular data plen input_len output_data session key :
  16 <= plen -> plen mod 16 = 0 ->
  plen <= Z.of_nat (length data) -> plen <= Z.of_nat (length output_data) ->
  length key = 16%nat -> length (iv session) = 16%nat ->
  let C := cbc_encrypt (Z.to_nat (plen / 16)) key (iv session)
             (take (Z.to_nat plen) data) in
  Z.of_nat (length C) = plen /\
  encrypt_chunk data plen input_len output_data session key =
    Some (ChunkResult 0 plen
            (set_total_processed
               (set_iv session (drop (Z.to_nat (plen - 16)) C))
               (uint32 (total_processed session + input_len)))
            data (C ++ drop (Z.to_nat plen) output_data)).
Proof.
  intros Hp Hal Hd Ho Hk Hiv C.
  assert (HC : length C = Z.to_nat plen).
  { unfold C. rewrite cbc_encrypt_length; try assumption.
    - apply blocks_of_length; lia.
    - rewrite blocks_of_length by lia. rewrite length_take. lia. }
  split; [lia|].
  unfold encrypt_chunk. rewrite AES_Crypto_encrypt by assumption. fold C.
  rewrite write_prefix_fits by lia. simpl. rewrite HC.
  rewrite memcpy16_tail by lia. reflexivity.
Qed.


(** ** The stream, encrypted and decrypted again *)

Section RoundTrip.

Hypothesis CHUNK_SIZE_pos : 0 < CHUNK_SIZE.
Hypothesis CHUNK_SIZE_aligned : CHUNK_SIZE mod 16 = 0.
Hypothesis CHUNK_SIZE_fits : CHUNK_SIZE + 64 < 2 ^ 32.


Lemma as_encrypted_length last (chunk : list byte) :
  let n := Z.of_nat (length chunk) in
  1 <= n <= CHUNK_SIZE -> (last = false -> n mod 16 = 0) ->
  let plen := Z.of_nat (length (as_encrypted last chunk)) in
  16 <= plen <= CHUNK_SIZE /\ plen mod 16 = 0 /\
  plen = (if n mod 16 =? 0 then n else n + (16 - n mod 16)).
Proof.
  intros n Hn Hal plen. unfold plen, as_encrypted. fold n.
  pose proof (Z.mod_pos_bound n 16 ltac:(lia)) as Hmod.
  pose proof (Z.div_mod n 16 ltac:(lia)) as Hdm.
  pose proof (Z.div_mod CHUNK_SIZE 16 ltac:(lia)) as Hk.
  destruct (Z.eqb_spec (n mod 16) 0) as [H0|H0].
  - rewrite andb_false_r. fold n. repeat split; lia.
  - destruct last; [|specialize (Hal eq_refl); lia]. simpl.
    rewrite pkcs7_pad_length. fold n.
    assert (n / 16 < CHUNK_SIZE / 16) by nia.
    repeat split; try lia.
    replace (n + (16 - n mod 16)) with ((n / 16 + 1) * 16) by lia.
    apply Z.mod_mul. lia.
Qed.

(** A whole chunk through the encrypt side of the pipeline. *)
Lemma process_encrypt_chunk (chunk rest output_data : list byte) session key :
  let n := Z.of_nat (length chunk) in
  1 <= n <= CHUNK_SIZE ->
  (is_last_chunk session = false -> n mod 16 = 0) ->
  CHUNK_SIZE <= Z.of_nat (length (chunk ++ rest)) ->
  Z.of_nat (length (chunk ++ rest)) < 2 ^ 32 ->
  CHUNK_SIZE <= Z.of_nat (length output_data) ->
  length key = 16%nat -> length (iv session) = 16%nat ->
  let pc := as_encrypted (is_last_chunk session) chunk in
  let plen := Z.of_nat (length pc) in
  let C := cbc_encrypt (Z.to_nat (plen / 16)) key (iv session) pc in
  Z.of_nat (length C) = plen /\
  exists input_data',
    length input_data' = length (chunk ++ rest) /\
    process_file_chunk_with_key OP_ENCRYPT (chunk ++ rest) n output_data session key
    = Some (ChunkResult 0 plen
              (set_total_processed
                 (set_iv session (drop (Z.to_nat (plen - 16)) C))
                 (uint32 (total_processed session + n)))
              input_data' (C ++ drop (Z.to_nat plen) output_data)).
Proof.
  intros n Hn Hal Hcap Hmax Hout Hk Hiv pc plen C.
  destruct (as_encrypted_length (is_last_chunk session) chunk Hn Hal)
    as (Hpl & Hpa & Hpe).
  change (Z.of_nat (length (as_encrypted (is_last_chunk session) chunk)))
    with plen in Hpl, Hpa, Hpe.
  change (Z.of_nat (length chunk)) with n in Hpe.
  pose proof (Z.mod_pos_bound n 16 ltac:(lia)) as Hmod.
  simpl process_file_chunk_with_key.
  assert (Hpc : pc = if is_last_chunk session && negb (n mod 16 =? 0)
                     then pkcs7_pad chunk else chunk) by reflexivity.
  assert (Hplen : plen = Z.of_nat (length pc)) by reflexivity.
  clearbody plen pc.
  destruct (Z.eqb_spec (n mod 16) 0) as [H0|H0].
  - rewrite andb_false_r in *. cbn [negb andb]. subst pc plen.
    destruct (encrypt_chunk_regular (chunk ++ rest) n n output_data session key)
      as [HC Hrun]; try assumption; try lia.
    assert (Ht : take (Z.to_nat n) (chunk ++ rest) = chunk).
    { apply take_app_length'. unfold n. lia. }
    rewrite Ht in HC, Hrun. split; [exact HC|].
    exists (chunk ++ rest). split; [reflexivity|]. exact Hrun.
  - destruct (is_last_chunk session) eqn:Hlast; [|specialize (Hal eq_refl); lia].
    cbn [negb andb] in *. subst pc.
    destruct (Z.leb_spec n CHUNK_SIZE); [|lia].
    rewrite pkcs7_padding_16 by lia.
    rewrite take_app_length' by (unfold n; lia).
    rewrite app_assoc.
    change (chunk ++ replicate (Z.to_nat (16 - n mod 16)) (byte.of_Z (16 - n mod 16)))
      with (pkcs7_pad chunk).
    simpl.
    set (tail := drop (Z.to_nat (n + (16 - n mod 16))) (chunk ++ rest)).
    rewrite <- Hpe.
    destruct (encrypt_chunk_regular (pkcs7_pad chunk ++ tail) plen n output_data
                session key) as [HC Hrun]; try assumption; try lia.
    { rewrite length_app. lia. }
    assert (Ht : take (Z.to_nat plen) (pkcs7_pad chunk ++ tail) = pkcs7_pad chunk).
    { apply take_app_length'. lia. }
    rewrite Ht in HC, Hrun. split; [exact HC|].
    exists (pkcs7_pad chunk ++ tail). split; [|exact Hrun].
    unfold tail. rewrite length_app, length_drop. lia.
Qed.









(** ** The stream as one CBC pass *)











End RoundTrip.

(** ** The end-to-end scenario *)

Section Scenario.

Hypothesis CHUNK_SIZE_1024 : CHUNK_SIZE = 1024.

(** C2, as it holds.  Encrypt session with the default key and IV,
    declared size 16, the chunk 0x00..0x0F ready on the line: the chunk
    is block-aligned and goes into the cipher without a pad, as one CBC
    block.  The device prints one WAIT_CHUNK:16 line, CHUNK_RECEIVED:16,
    one B64 line with the 16 cipher bytes, one CHUNK_PROCESSED:16->16
    line, PROGRESS:100%, then STREAM_COMPLETE, the summary and SUCCESS. *)
Theorem aligned_final_chunk_is_not_padded (w : world) (rest : rx_script) :
  usart_rx w = prompt scenario_chunk ++ rest ->
  length (input_buffer w) = 1088%nat -> length (output_buffer w) = 1088%nat ->
  let C := cbc_encrypt 1 default_key default_iv scenario_chunk in
  length C = 16%nat /\
  exists b64,
    base64_loop 6 0 (C ++ drop 16 (output_buffer w)) 16 = Some b64 /\
    stream_session OP_ENCRYPT default_key default_iv 16 w =
    Ret tt
      (World (tick_after (system_tick w) (prompt scenario_chunk)) rest
         (stdout w ++ ["READY_FOR_DATA"%string;
                       "WAIT_CHUNK:16"%string;
                       "CHUNK_RECEIVED:16"%string;
                       ("B64:" ++ b64)%string;
                       "CHUNK_PROCESSED:16->16"%string;
                       "PROGRESS:100%"%string;
                       "STREAM_COMPLETE"%string;
                       "SUMMARY: received=16, processed=16, chunks=1"%string;
                       "SUCCESS: All data processed"%string])
         (scenario_chunk ++ drop 16 (input_buffer w))
         (C ++ drop 16 (output_buffer w))).
Proof.
  intros Hscr Hin Hout C.
  set (session := set_is_last_chunk
                    (Session OP_ENCRYPT default_iv 0 16 false false) true).
  set (w0 := emit ["READY_FOR_DATA"%string] w).
  set (buf := scenario_chunk ++ drop 16 (input_buffer w)).
  assert (Hcs : chunk_size_of 16 0 = 16).
  { unfold chunk_size_of. rewrite CHUNK_SIZE_1024. reflexivity. }
  assert (Hread : read_exact_data (input_buffer w0) 16 10000
                    (emit ["WAIT_CHUNK:16"%string] w0)
                  = Ret (16, buf)
                      (World (tick_after (system_tick w) (prompt scenario_chunk))
                         rest (stdout w ++ ["READY_FOR_DATA"%string;
                                            "WAIT_CHUNK:16"%string])
                         (input_buffer w) (output_buffer w))).
  { pose proof (read_exact_data_prompt (input_buffer w0) scenario_chunk
                  (emit ["WAIT_CHUNK:16"%string] w0) rest Hscr) as Hp.
    change (Z.of_nat (length scenario_chunk)) with 16 in Hp.
    rewrite Hp.
    - simpl. rewrite <- app_assoc. reflexivity.
    - simpl. rewrite Hin. lia.
    - lia. }
  assert (Hbl : 16 <= Z.of_nat (length buf))
    by (unfold buf; rewrite length_app; simpl; lia).
  assert (Hol : 16 <= Z.of_nat (length (output_buffer w))) by lia.
  destruct (encrypt_chunk_regular buf 16 16 (output_buffer w) session
              default_key) as [HC Hrun]; try reflexivity; try lia.
  change (Z.to_nat (16 / 16)) with 1%nat in HC, Hrun.
  change (take (Z.to_nat 16) buf) with scenario_chunk in HC, Hrun.
  change (iv session) with default_iv in HC, Hrun.
  fold C in HC, Hrun.
  split; [lia|].
  match type of Hrun with _ = Some ?x => set (r := x) in * end.
  assert (Hproc : process_file_chunk_with_key OP_ENCRYPT buf 16
                    (output_buffer w0) session default_key = Some r)
    by exact Hrun.
  destruct (process_file_chunk_encodable CHUNK_SIZE_1024 _ _ _ _ _ _ _ Hproc
              ltac:(lia) Hout) as (_ & _ & Hok).
  destruct (Hok eq_refl) as (_ & _ & b64 & Hb64 & Hsend). clear Hok.
  exists b64. split; [exact Hb64|].
  match type of Hread with _ = Ret _ ?x => set (w1 := x) in * end.
  pose proof (stream_loop_chunk 15 OP_ENCRYPT default_key 16
                (Session OP_ENCRYPT default_iv 0 16 false false) 0 0 w0 buf w1 r b64
                ltac:(lia)) as Hstep.
  cbv zeta in Hstep. rewrite Hcs in Hstep.
  specialize (Hstep Hread Hproc eq_refl Hsend).
  rewrite (stream_loop_done 15) in Hstep by (vm_compute; discriminate).
  unfold stream_session. rewrite printf_run. fold w0.
  change (Z.to_nat 16) with 16%nat.
  rewrite (bind_run _ _ _ _ _ Hstep).
  unfold stream_summary. rewrite !printf_run. cbn [cr_session].
  unfold printf. rewrite !emit_emit. unfold emit. simpl.
  rewrite <- !app_assoc. reflexivity.
Qed.

End Scenario.

Local Abbreviation main_iteration :=
  (main_iteration CHUNK_SIZE block_encrypt block_decrypt AES_irregular).
Local Abbreviation main := (main CHUNK_SIZE block_encrypt block_decrypt AES_irregular).

(** ** Runs that stay inside the arrays *)

Lemma runs_safely_bind {A B} (m : device A) (k : A -> device B) w
    (Q : A -> world -> Prop) (R : B -> world -> Prop) :
  runs_safely m w Q ->
  (forall a w', Q a w' -> runs_safely (k a) w' R) ->
  runs_safely (m ≫= k) w R.
Proof.
  unfold runs_safely, mbind, device_bind, bind. intros Hm Hk.
  destruct (m w) as [a w'|why]; [apply Hk; exact Hm|exact Hm].
Qed.

Lemma runs_safely_weaken {A} (m : device A) w (Q R : A -> world -> Prop) :
  runs_safely m w Q -> (forall a w', Q a w' -> R a w') -> runs_safely m w R.
Proof.
  unfold runs_safely. intros Hm HQR. destruct (m w); [apply HQR; exact Hm|exact Hm].
Qed.

Lemma runs_safely_printf K line w :
  buffers_ok K w -> runs_safely (printf line) w (fun _ w' => buffers_ok K w').
Proof. intros H. exact H. Qed.

Lemma runs_safely_mret {A} (a : A) w (post : A -> world -> Prop) :
  post a w -> runs_safely (mret a) w post.
Proof. intros H. exact H. Qed.

Lemma runs_safely_clear K w :
  buffers_ok K w -> runs_safely clear_receive_buffer w (fun _ w' => buffers_ok K w').
Proof.
  intros H. unfold runs_safely, clear_receive_buffer.
  destruct (clear_receive_buffer_loop _ _) as [[tick script]|]; [exact H|reflexivity].
Qed.

Lemma runs_safely_read K (data : list byte) exact_len timeout_ms w :
  buffers_ok K w -> 0 <= exact_len <= Z.of_nat (length data) -> exact_len < 2 ^ 32 ->
  runs_safely (read_exact_data data exact_len timeout_ms) w
    (fun r w' => buffers_ok K w' /\ length (snd r) = length data /\
                 input_buffer w' = input_buffer w /\
                 output_buffer w' = output_buffer w).
Proof.
  intros H Hlen Hmax. unfold runs_safely, read_exact_data.
  destruct (read_exact_data_loop _ _ _ _ _ _ _ _) as [r|why] eqn:Hloop.
  - split; [exact H|]. split; [|split; reflexivity].
    eapply read_exact_data_loop_length. exact Hloop.
  - eapply read_exact_data_loop_stuck; [| | |exact Hloop]; lia.
Qed.

Lemma runs_safely_get_char K w :
  buffers_ok K w -> runs_safely _get_char w (fun _ w' => buffers_ok K w').
Proof.
  intros H. unfold runs_safely, _get_char.
  destruct (_get_char_loop _ _ _) as [[[ch tick] script]|]; [exact H|reflexivity].
Qed.

Section Safety.

Hypothesis CHUNK_SIZE_1024 : CHUNK_SIZE = 1024.

(** The primitive answers a decrypt request that is not a CBC pass over
    a positive whole number of blocks with an error code. *)
Hypothesis decrypt_irregular_rejected :
  forall parm, En_De parm = AES_DEC -> AES_irregular parm = None.

Lemma CHUNK_SIZE_1024_aligned : CHUNK_SIZE mod 16 = 0.
Proof. rewrite CHUNK_SIZE_1024. reflexivity. Qed.

Lemma remove_padding_defined (od : list byte) len :
  0 < len <= Z.of_nat (length od) -> len < 2 ^ 32 ->
  exists len', remove_padding od len = Some (od, len').
Proof.
  intros Hlen Hmax. unfold remove_padding. rewrite uint32_small by lia.
  destruct (load_in_range od (len - 1)) as [last ->]; [lia|].
  cbn [mbind option_bind].
  destruct ((byte.unsigned last <=? 16) && (byte.unsigned last >? 0)).
  - rewrite pkcs7_unpadding_eq by lia.
    destruct (padding_ok od len); cbn [mbind option_bind]; eexists; reflexivity.
  - eexists. reflexivity.
Qed.

Lemma decrypt_chunk_defined input_data input_len output_data session key :
  1 <= input_len <= Z.of_nat (length input_data) ->
  input_len <= Z.of_nat (length output_data) ->
  Z.of_nat (length output_data) < 2 ^ 32 ->
  length key = 16%nat -> length (iv session) = 16%nat ->
  exists r,
    decrypt_chunk input_data input_len output_data session key = Some r /\
    length (cr_input r) = length input_data /\
    length (cr_output r) = length output_data /\
    length (iv (cr_session r)) = 16%nat /\
    is_last_chunk (cr_session r) = is_last_chunk session.
Proof.
  intros Hlen Hout Hmax Hk Hiv. unfold decrypt_chunk.
  destruct (AES_Crypto (decrypt_parm input_data input_len session key))
    as [out|] eqn:Haes.
  2:{ eexists. split; [reflexivity|]. simpl. auto. }
  unfold AES_Crypto in Haes. cbn [decrypt_parm Mode keyWordLen inWordLen En_De
    AES_key AES_iv AES_in is_AES_CBC andb Z.eqb Pos.eqb] in Haes.
  destruct (Z.ltb_spec 0 (input_len / 4)) as [Hq|Hq]; cbn [andb] in Haes.
  2:{ rewrite decrypt_irregular_rejected in Haes by reflexivity. discriminate. }
  destruct (Z.eqb_spec ((input_len / 4) mod 4) 0) as [Hq4|Hq4].
  2:{ rewrite decrypt_irregular_rejected in Haes by reflexivity. discriminate. }
  injection Haes as <-.
  set (q := input_len / 4) in *.
  assert (Hb : 4 * q <= input_len /\ 16 * (q / 4) = 4 * q /\ 1 <= q / 4).
  { unfold q in *. Z.div_mod_to_equations. lia. }
  destruct Hb as (Hb1 & Hb2 & Hb3).
  set (out := cbc_decrypt (Z.to_nat (q / 4)) key (iv session)
                (take (Z.to_nat (4 * q)) input_data)).
  assert (Hol : length out = Z.to_nat (4 * q)).
  { unfold out. rewrite cbc_decrypt_length; try assumption; [lia|].
    rewrite length_take. lia. }
  rewrite write_prefix_fits by lia. cbn [mbind option_bind].
  set (od := out ++ drop (length out) output_data).
  assert (Hod : length od = length output_data).
  { unfold od. rewrite length_app, length_drop. lia. }
  assert (Hrm : exists len',
            (if is_last_chunk session then remove_padding od input_len
             else Some (od, input_len)) = Some (od, len')).
  { destruct (is_last_chunk session); [|eexists; reflexivity].
    apply remove_padding_defined; lia. }
  destruct Hrm as [len' ->]. cbn [mbind option_bind].
  unfold memcpy16.
  destruct (Z.leb_spec 0 (input_len - 16)); [|lia].
  destruct (Z.leb_spec (input_len - 16 + 16) (Z.of_nat (length input_data)));
    [|lia].
  cbn [andb mbind option_bind]. eexists. split; [reflexivity|].
  cbn [cr_input cr_output cr_session iv is_last_chunk set_total_processed set_iv].
  repeat split; auto. rewrite length_take, length_drop. lia.
Qed.

(** Every chunk the streaming loop hands over is processed without
    leaving the arrays. *)
Lemma process_file_chunk_defined mode input_data input_len output_data session key :
  1 <= input_len <= 1024 ->
  length input_data = 1088%nat -> length output_data = 1088%nat ->
  length key = 16%nat -> length (iv session) = 16%nat ->
  (is_last_chunk session = false -> input_len = 1024) ->
  exists r,
    process_file_chunk_with_key mode input_data input_len output_data session key
      = Some r /\
    length (cr_input r) = 1088%nat /\
    length (cr_output r) = 1088%nat /\
    length (iv (cr_session r)) = 16%nat /\
    is_last_chunk (cr_session r) = is_last_chunk session.
Proof.
  intros Hlen Hin Hout Hk Hiv Hfull. destruct mode.
  - set (chunk := take (Z.to_nat input_len) input_data).
    set (rest := drop (Z.to_nat input_len) input_data).
    assert (Hsplit : input_data = chunk ++ rest) by (symmetry; apply take_drop).
    assert (Hchunk : Z.of_nat (length chunk) = input_len).
    { unfold chunk. rewrite length_take. lia. }
    destruct (process_encrypt_chunk CHUNK_SIZE_1024_aligned chunk rest output_data
                session key) as (HC & input_data' & Hl' & Hrun).
    + rewrite Hchunk, CHUNK_SIZE_1024. exact Hlen.
    + rewrite Hchunk. intros Hnl. rewrite (Hfull Hnl). reflexivity.
    + rewrite <- Hsplit, CHUNK_SIZE_1024. lia.
    + rewrite <- Hsplit. lia.
    + rewrite CHUNK_SIZE_1024. lia.
    + exact Hk.
    + exact Hiv.
    + rewrite <- Hsplit, Hchunk in Hrun. rewrite <- Hsplit in Hl'.
      eexists. split; [exact Hrun|].
      cbn [cr_input cr_output cr_session iv is_last_chunk set_total_processed set_iv].
      split; [congruence|].
      destruct (as_encrypted_length CHUNK_SIZE_1024_aligned
                  (is_last_chunk session) chunk) as (Hpb & _ & _).
      { rewrite Hchunk, CHUNK_SIZE_1024. exact Hlen. }
      { rewrite Hchunk. intros Hnl. rewrite (Hfull Hnl). reflexivity. }
      rewrite CHUNK_SIZE_1024 in Hpb.
      split; [rewrite length_app, length_drop; lia|].
      split; [rewrite length_drop; lia|reflexivity].
  - destruct (decrypt_chunk_defined input_data input_len output_data session key)
      as (r & Hrun & Hi & Ho & Hv & Hl); try assumption; try lia.
    exists r. split; [exact Hrun|]. repeat split; congruence.
Qed.

Lemma buffers_ok_emit lines w :
  buffers_ok CHUNK_SIZE w -> buffers_ok CHUNK_SIZE (emit lines w).
Proof. intros H. exact H. Qed.

Lemma stream_loop_safe fuel : forall mode key file_size session
    total_received chunk_count w,
  0 <= total_received -> file_size < 2 ^ 32 ->
  file_size - total_received <= Z.of_nat fuel ->
  length key = 16%nat -> length (iv session) = 16%nat ->
  (total_received < file_size -> is_last_chunk session = false) ->
  buffers_ok CHUNK_SIZE w ->
  runs_safely (stream_loop fuel mode key file_size session total_received
                 chunk_count) w
    (fun _ w' => buffers_ok CHUNK_SIZE w').
Proof.
  induction fuel as [|fuel IH];
    intros mode key file_size session total count w Ht Hf Hfuel Hk Hiv Hnl Hbuf.
  { unfold runs_safely. rewrite stream_loop_done by lia. exact Hbuf. }
  destruct (Z.ltb_spec total file_size) as [Hlt|Hge].
  2:{ unfold runs_safely. rewrite stream_loop_done by lia. exact Hbuf. }
  pose proof Hbuf as [Hin Hout]. rewrite CHUNK_SIZE_1024 in Hin, Hout.
  unfold runs_safely. rewrite stream_loop_unfold.
  destruct (Z.ltb_spec total file_size); [|lia]. cbv zeta.
  destruct (chunk_size_of_bounds CHUNK_SIZE_1024 file_size total ltac:(lia) Hf)
    as [Hcs Hmin].
  set (n := chunk_size_of file_size total) in *.
  rewrite printf_run, get_input_buffer_run.
  set (w0 := emit [("WAIT_CHUNK:" ++ fmt_d n)%string] w).
  pose proof (runs_safely_read CHUNK_SIZE (input_buffer w0) n 10000 w0 Hbuf
                ltac:(simpl; lia) ltac:(lia)) as Hr.
  unfold runs_safely in Hr.
  destruct (read_exact_data (input_buffer w0) n 10000 w0) as [[rl buf] w1|why]
    eqn:Hread.
  2:{ rewrite (bind_stuck _ _ _ _ Hread). exact Hr. }
  rewrite (bind_run _ _ _ _ _ Hread).
  destruct Hr as (Hb1 & Hlen & Hi1 & Ho1).
  unfold w0 in Hlen, Hi1, Ho1. simpl in Hlen, Hi1, Ho1.
  rewrite set_input_buffer_run.
  destruct (Z.eqb_spec rl n) as [->|Hne].
  2:{ split; simpl; rewrite CHUNK_SIZE_1024, ?Ho1; lia. }
  rewrite printf_run, get_output_buffer_run.
  simpl output_buffer. rewrite Ho1.
  set (total' := uint32 (total + n)).
  assert (Htot : total' = total + n) by (apply uint32_small; lia).
  set (session' := if total' >=? file_size
                   then set_is_last_chunk session true else session).
  destruct (process_file_chunk_defined mode buf n (output_buffer w) session' key)
    as (r & Hproc & Hri & Hro & Hrv & Hrl); try lia; try assumption.
  { unfold session'. destruct (total' >=? file_size); exact Hiv. }
  { unfold session'. destruct (Z.geb_spec total' file_size); [discriminate|].
    intros _. lia. }
  rewrite Hproc, defined_run.
  rewrite set_input_buffer_run, set_output_buffer_run.
  destruct (Z.eqb_spec (cr_ret r) 0) as [Hret|Hret]; cbn [negb].
  2:{ rewrite !printf_run. split; simpl; rewrite CHUNK_SIZE_1024; lia. }
  destruct (process_file_chunk_encodable CHUNK_SIZE_1024 _ _ _ _ _ _ _ Hproc
              ltac:(lia) ltac:(lia)) as (_ & _ & Hok).
  destruct (Hok Hret) as (_ & _ & b64 & _ & Hsend).
  rewrite (bind_run _ _ _ _ _ (Hsend _)).
  rewrite !printf_run.
  apply IH; try assumption; try lia.
  - intros Hmore. rewrite Hrl. unfold session'.
    destruct (Z.geb_spec total' file_size); [lia|]. apply Hnl. lia.
  - split; simpl; rewrite CHUNK_SIZE_1024; lia.
Qed.

Lemma stream_session_safe mode key iv file_size w :
  1 <= file_size <= 1000000 -> length key = 16%nat -> length iv = 16%nat ->
  buffers_ok CHUNK_SIZE w ->
  runs_safely (stream_session mode key iv file_size) w
    (fun _ w' => buffers_ok CHUNK_SIZE w').
Proof.
  intros Hfs Hk Hiv Hbuf. unfold stream_session.
  eapply runs_safely_bind; [apply (runs_safely_printf CHUNK_SIZE); exact Hbuf|].
  intros [] w1 H1.
  eapply runs_safely_bind.
  { apply stream_loop_safe; try assumption; try lia. reflexivity. }
  intros [[session total] count] w2 H2.
  unfold stream_summary, runs_safely. rewrite !printf_run.
  destruct (total =? file_size); exact H2.
Qed.

Lemma await_size_safe mode key iv w :
  length key = 16%nat -> length iv = 16%nat -> buffers_ok CHUNK_SIZE w ->
  runs_safely (await_size mode key iv) w (fun _ w' => buffers_ok CHUNK_SIZE w').
Proof.
  intros Hk Hiv Hbuf. unfold await_size.
  eapply runs_safely_bind; [apply (runs_safely_printf CHUNK_SIZE); exact Hbuf|].
  intros [] w1 H1.
  eapply runs_safely_bind; [apply (runs_safely_clear CHUNK_SIZE); exact H1|].
  intros [] w2 H2.
  eapply runs_safely_bind.
  { apply (runs_safely_read CHUNK_SIZE); [exact H2|simpl; lia|lia]. }
  intros [n size_buffer] w3 (H3 & Hlen & _ & _). simpl in Hlen.
  destruct (n =? 4); cbn [negb].
  2:{ apply (runs_safely_printf CHUNK_SIZE). exact H3. }
  destruct size_buffer as [|b0 [|b1 [|b2 [|b3 [|]]]]]; try discriminate.
  rewrite parse_file_size_big_endian.
  pose proof (byte.unsigned_range b0). pose proof (byte.unsigned_range b1).
  pose proof (byte.unsigned_range b2). pose proof (byte.unsigned_range b3).
  set (file_size := byte.unsigned b0 * 2 ^ 24 + byte.unsigned b1 * 2 ^ 16
                    + byte.unsigned b2 * 2 ^ 8 + byte.unsigned b3).
  assert (0 <= file_size) by (unfold file_size; lia).
  unfold runs_safely. rewrite defined_run, printf_run.
  destruct (Z.eqb_spec file_size 0); cbn [orb]; [exact H3|].
  destruct (Z.gtb_spec file_size 1000000); [exact H3|].
  unfold send_ack. rewrite printf_run.
  apply stream_session_safe; try assumption; try lia.
Qed.

Lemma await_key_iv_safe mode w :
  buffers_ok CHUNK_SIZE w ->
  runs_safely (await_key_iv mode) w (fun _ w' => buffers_ok CHUNK_SIZE w').
Proof.
  intros Hbuf. unfold await_key_iv.
  eapply runs_safely_bind; [apply (runs_safely_printf CHUNK_SIZE); exact Hbuf|].
  intros [] w1 H1.
  eapply runs_safely_bind; [apply (runs_safely_clear CHUNK_SIZE); exact H1|].
  intros [] w2 H2.
  eapply runs_safely_bind.
  { apply (runs_safely_read CHUNK_SIZE); [exact H2|simpl; lia|lia]. }
  intros [nk key] w3 (H3 & Hkl & _ & _). simpl in Hkl.
  eapply (runs_safely_bind _ _ _
            (fun key' w' => buffers_ok CHUNK_SIZE w' /\ length key' = 16%nat)).
  { destruct (nk =? 16); cbn [negb]; unfold runs_safely; rewrite printf_run;
      (split; [exact H3|]); [exact Hkl|reflexivity]. }
  intros key' w4 [H4 Hk'].
  eapply runs_safely_bind; [apply (runs_safely_printf CHUNK_SIZE); exact H4|].
  intros [] w5 H5.
  eapply runs_safely_bind; [apply (runs_safely_printf CHUNK_SIZE); exact H5|].
  intros [] w6 H6.
  eapply runs_safely_bind; [apply (runs_safely_clear CHUNK_SIZE); exact H6|].
  intros [] w7 H7.
  eapply runs_safely_bind.
  { apply (runs_safely_read CHUNK_SIZE); [exact H7|simpl; lia|lia]. }
  intros [ni iv0] w8 (H8 & Hil & _ & _). simpl in Hil.
  eapply (runs_safely_bind _ _ _
            (fun iv' w' => buffers_ok CHUNK_SIZE w' /\ length iv' = 16%nat)).
  { destruct (ni =? 16); cbn [negb]; unfold runs_safely; rewrite printf_run;
      (split; [exact H8|]); [exact Hil|reflexivity]. }
  intros iv' w9 [H9 Hi'].
  eapply runs_safely_bind; [apply (runs_safely_printf CHUNK_SIZE); exact H9|].
  intros [] w10 H10.
  apply await_size_safe; assumption.
Qed.

Lemma new_stream_file_processing_safe w :
  buffers_ok CHUNK_SIZE w ->
  runs_safely new_stream_file_processing w (fun _ w' => buffers_ok CHUNK_SIZE w').
Proof.
  intros Hbuf. unfold new_stream_file_processing.
  eapply runs_safely_bind; [apply (runs_safely_printf CHUNK_SIZE); exact Hbuf|].
  intros [] w1 H1.
  eapply runs_safely_bind; [apply (runs_safely_printf CHUNK_SIZE); exact H1|].
  intros [] w2 H2.
  eapply runs_safely_bind; [apply (runs_safely_clear CHUNK_SIZE); exact H2|].
  intros [] w3 H3.
  eapply runs_safely_bind.
  { apply (runs_safely_read CHUNK_SIZE); [exact H3|simpl; lia|lia]. }
  intros [n op] w4 (H4 & Hol & _ & _). simpl in Hol.
  destruct (n =? 1); cbn [negb].
  2:{ apply (runs_safely_printf CHUNK_SIZE). exact H4. }
  destruct op as [|b [|]]; try discriminate.
  change (load [b] 0) with (Some b).
  unfold runs_safely. rewrite defined_run.
  destruct ((byte.unsigned b =? 101) || (byte.unsigned b =? 69)).
  { rewrite printf_run. unfold send_ack. rewrite printf_run.
    apply await_key_iv_safe. exact H4. }
  destruct ((byte.unsigned b =? 100) || (byte.unsigned b =? 68)).
  { rewrite printf_run. unfold send_ack. rewrite printf_run.
    apply await_key_iv_safe. exact H4. }
  exact H4.
Qed.

Lemma main_iteration_safe w :
  buffers_ok CHUNK_SIZE w ->
  runs_safely main_iteration w (fun _ w' => buffers_ok CHUNK_SIZE w').
Proof.
  intros Hbuf. unfold main_iteration.
  eapply runs_safely_bind; [apply (runs_safely_printf CHUNK_SIZE); exact Hbuf|].
  intros [] w1 H1.
  eapply runs_safely_bind; [apply (runs_safely_clear CHUNK_SIZE); exact H1|].
  intros [] w2 H2.
  eapply runs_safely_bind; [apply (runs_safely_printf CHUNK_SIZE); exact H2|].
  intros [] w3 H3.
  eapply runs_safely_bind; [apply (runs_safely_printf CHUNK_SIZE); exact H3|].
  intros [] w4 H4.
  eapply runs_safely_bind; [apply (runs_safely_get_char CHUNK_SIZE); exact H4|].
  intros choice w5 H5.
  eapply runs_safely_bind; [apply (runs_safely_printf CHUNK_SIZE); exact H5|].
  intros [] w6 H6.
  eapply (runs_safely_bind _ _ _ (fun _ w' => buffers_ok CHUNK_SIZE w')).
  { destruct ((choice =? 110) || (choice =? 78)).
    - eapply runs_safely_bind; [apply (runs_safely_printf CHUNK_SIZE); exact H6|].
      intros [] w7 H7. apply new_stream_file_processing_safe. exact H7.
    - destruct ((choice =? 114) || (choice =? 82));
        apply (runs_safely_printf CHUNK_SIZE); exact H6. }
  intros [] w8 H8.
  eapply runs_safely_bind; [apply (runs_safely_printf CHUNK_SIZE); exact H8|].
  intros [] w9 H9.
  apply (runs_safely_clear CHUNK_SIZE). exact H9.
Qed.

(** X16.  Memory safety of a session.  At the chunk capacity of 1024,
    over a block cipher that maps 16-byte blocks to 16-byte blocks, and
    with a primitive that refuses decrypt requests that are not whole
    blocks: whatever the host sends, and whenever it sends it, a session
    started with the two chunk buffers at their declared 1088 bytes
    never reads or writes outside an array and never needs more loop
    iterations than the declared size allows.  It returns with the
    buffers at their declared size, or it is still polling when the
    receive script ends. *)
Theorem session_stays_in_bounds (w : world) :
  buffers_ok CHUNK_SIZE w ->
  match new_stream_file_processing w with
  | Ret _ w' => buffers_ok CHUNK_SIZE w'
  | Stuck why => why = Starved
  end.
Proof. intros Hbuf. exact (new_stream_file_processing_safe w Hbuf). Qed.

(** X17.  Memory safety of the command loop: the same holds for any
    number of passes through the loop of [main], whatever commands and
    data arrive. *)
Theorem main_stays_in_bounds (iterations : nat) (w : world) :
  buffers_ok CHUNK_SIZE w ->
  match main iterations w with
  | Ret _ w' => buffers_ok CHUNK_SIZE w'
  | Stuck why => why = Starved
  end.
Proof.
  revert w. induction iterations as [|n IH]; intros w Hbuf.
  - exact Hbuf.
  - change (runs_safely (main_iteration;; main n) w
              (fun _ w' => buffers_ok CHUNK_SIZE w')).
    eapply runs_safely_bind; [apply main_iteration_safe; exact Hbuf|].
    intros [] w' H'. apply IH. exact H'.
Qed.

End Safety.

(** ** A session with a host that follows the prompts *)

Section Protocol.

Hypothesis CHUNK_SIZE_1024 : CHUNK_SIZE = 1024.

Lemma clear_receive_buffer_idle {B} d rest (k : unit -> device B) w :
  usart_rx w = (d, None) :: rest ->
  (clear_receive_buffer ≫= k) w =
    k tt (World (ticks (system_tick w) d) rest (stdout w)
                (input_buffer w) (output_buffer w)).
Proof.
  intros H. unfold mbind, device_bind, bind, clear_receive_buffer.
  rewrite H. reflexivity.
Qed.

Lemma read_exact_data_in_time_run {B} (data chunk : list byte) pre n timeout_ms rest
    (k : Z * list byte -> device B) w :
  usart_rx w = pre ++ rest -> in_time timeout_ms chunk pre ->
  Z.of_nat (length chunk) = n ->
  n = Z.of_nat (length data) -> n < 2 ^ 32 ->
  0 <= timeout_ms -> timeout_ms * 1000 < 2 ^ 32 ->
  (read_exact_data data n timeout_ms ≫= k) w =
    k (n, chunk)
      (World (tick_after (system_tick w) pre) rest (stdout w)
             (input_buffer w) (output_buffer w)).
Proof.
  intros Hscr (Hrecv & Hquiet & Hend) Hn Hcap Hmax Hto Hfit.
  rewrite (bind_run _ _ _ _ _
             (read_exact_data_full data n timeout_ms w pre rest
                ltac:(lia) Hto Hfit Hscr
                ltac:(rewrite Hrecv; exact Hn) ltac:(lia) Hquiet Hend)).
  rewrite Hrecv. rewrite drop_ge by lia. rewrite app_nil_r.
  reflexivity.
Qed.

Lemma size_bytes_value n :
  0 <= n < 2 ^ 32 -> parse_file_size (size_bytes n) = Some n.
Proof.
  intros Hn. unfold size_bytes. cbn [map].
  rewrite parse_file_size_big_endian.
  rewrite !unsigned_of_Z_small by (Z.div_mod_to_equations; lia).
  f_equal. Z.div_mod_to_equations. lia.
Qed.


Ltac norm_world :=
  try unfold emit;
  cbn [system_tick usart_rx stdout input_buffer output_buffer].

Tactic Notation "run_step" open_constr(lem) :=
  etransitivity; [apply lem|cbv beta; norm_world].

(** A phase of the negotiation: the receive side is cleared by a poll
    that finds nothing, and the item, delivered in time, is then read
    whole. *)
Lemma phase_read {B} (d : nat) (chunk data : list byte) pre n timeout_ms tail
    (k : Z * list byte -> device B) w :
  usart_rx w = (d, None) :: pre ++ tail -> in_time timeout_ms chunk pre ->
  Z.of_nat (length chunk) = n -> n = Z.of_nat (length data) -> n < 2 ^ 32 ->
  0 <= timeout_ms -> timeout_ms * 1000 < 2 ^ 32 ->
  (clear_receive_buffer ≫= fun _ => read_exact_data data n timeout_ms ≫= k) w =
    k (n, chunk)
      (World (tick_after (ticks (system_tick w) d) pre) tail (stdout w)
             (input_buffer w) (output_buffer w)).
Proof.
  intros Hscr Hpre Hn Hcap Hmax Hto Hfit.
  run_step (clear_receive_buffer_idle d (pre ++ tail) _ w Hscr).
  run_step (read_exact_data_in_time_run data chunk pre n timeout_ms tail k
              (World (ticks (system_tick w) d) (pre ++ tail) (stdout w)
                     (input_buffer w) (output_buffer w))
              eq_refl Hpre Hn Hcap Hmax Hto Hfit).
  reflexivity.
Qed.

Lemma new_stream_prompt (w : world) mode d pre tail :
  in_time 1000 [op_byte mode] pre ->
  usart_rx w = (d, None) :: pre ++ tail ->
  exists tick,
    new_stream_file_processing w =
      await_key_iv mode
        (World tick tail
           (stdout w ++ ["NEW_STREAM_MODE"; "WAIT_OPERATION"; operation_line mode;
                         "ACK"]%string)
           (input_buffer w) (output_buffer w)).
Proof.
  intros Hpre Hscr. destruct w as [t rx out ib ob]. simpl in Hscr. subst rx.
  norm_world. eexists. unfold new_stream_file_processing.
  run_step printf_run. run_step printf_run.
  run_step (phase_read d [op_byte mode] (replicate 1 Byte.x00) pre 1 1000 tail);
    try reflexivity; try lia; try exact Hpre.
  cbv iota. change (negb (1 =? 1)) with false. cbv iota.
  change (load [op_byte mode] 0) with (Some (op_byte mode)).
  run_step defined_run.
  destruct mode.
  - change ((byte.unsigned (op_byte OP_ENCRYPT) =? 101)
            || (byte.unsigned (op_byte OP_ENCRYPT) =? 69)) with true. cbv iota.
    run_step printf_run. unfold send_ack. run_step printf_run.
    rewrite <- !app_assoc. reflexivity.
  - change ((byte.unsigned (op_byte OP_DECRYPT) =? 101)
            || (byte.unsigned (op_byte OP_DECRYPT) =? 69)) with false.
    change ((byte.unsigned (op_byte OP_DECRYPT) =? 100)
            || (byte.unsigned (op_byte OP_DECRYPT) =? 68)) with true. cbv iota.
    run_step printf_run. unfold send_ack. run_step printf_run.
    rewrite <- !app_assoc. reflexivity.
Qed.

Lemma await_key_iv_prompt (w : world) mode (key iv : list byte) d2 d3
    pre_key pre_iv tail :
  length key = 16%nat -> length iv = 16%nat ->
  in_time 5000 key pre_key -> in_time 5000 iv pre_iv ->
  usart_rx w = (d2, None) :: pre_key ++ (d3, None) :: pre_iv ++ tail ->
  exists tick,
    await_key_iv mode w =
      await_size mode key iv
        (World tick tail
           (stdout w ++ ["WAIT_KEY"; "Custom key received"; "ACK";
                         "WAIT_IV"; "Custom IV received"; "ACK"]%string)
           (input_buffer w) (output_buffer w)).
Proof.
  intros Hk Hiv Hpk Hpi Hscr. destruct w as [t rx out ib ob]. simpl in Hscr.
  subst rx.
  norm_world. eexists. unfold await_key_iv.
  run_step printf_run.
  run_step (phase_read d2 key (replicate 16 Byte.x00) pre_key 16 5000
              ((d3, None) :: pre_iv ++ tail));
    try reflexivity; try lia; try exact Hpk.
  cbv iota. change (negb (16 =? 16)) with false. cbv iota.
  run_step bind_assoc_run. run_step printf_run. run_step mret_run.
  unfold send_ack. run_step printf_run. run_step printf_run.
  run_step (phase_read d3 iv (replicate 16 Byte.x00) pre_iv 16 5000 tail);
    try reflexivity; try lia; try exact Hpi.
  cbv iota. change (negb (16 =? 16)) with false. cbv iota.
  run_step bind_assoc_run. run_step printf_run. run_step mret_run.
  run_step printf_run.
  rewrite <- !app_assoc. reflexivity.
Qed.

Lemma await_size_prompt (w : world) mode (key iv : list byte) N d pre tail :
  1 <= N <= 1000000 ->
  in_time 5000 (size_bytes N) pre ->
  usart_rx w = (d, None) :: pre ++ tail ->
  exists tick,
    await_size mode key iv w =
      stream_session mode key iv N
        (World tick tail
           (stdout w ++ ["WAIT_SIZE"; "FILE_SIZE:" ++ fmt_lu N; "ACK"]%string)
           (input_buffer w) (output_buffer w)).
Proof.
  intros HN Hpre Hscr. destruct w as [t rx out ib ob]. simpl in Hscr. subst rx.
  norm_world. eexists. unfold await_size.
  run_step printf_run.
  run_step (phase_read d (size_bytes N) (replicate 4 Byte.x00) pre 4 5000 tail);
    try reflexivity; try lia; try exact Hpre.
  cbv iota. change (negb (4 =? 4)) with false. cbv iota.
  rewrite size_bytes_value by lia.
  run_step defined_run. run_step printf_run.
  destruct (Z.eqb_spec N 0); [lia|]. destruct (Z.gtb_spec N 1000000); [lia|].
  cbn [orb]. unfold send_ack. run_step printf_run.
  rewrite <- !app_assoc. reflexivity.
Qed.

(** The negotiation with such a host ends in the streaming phase, with
    the key, the IV and the size the host sent. *)
Lemma negotiation_prompt (w : world) mode (key iv : list byte) N tail d1 d2 d3 d4
    pre_op pre_key pre_iv pre_size :
  length key = 16%nat -> length iv = 16%nat -> 1 <= N <= 1000000 ->
  in_time 1000 [op_byte mode] pre_op ->
  in_time 5000 key pre_key -> in_time 5000 iv pre_iv ->
  in_time 5000 (size_bytes N) pre_size ->
  usart_rx w = idle d1 ++ pre_op ++ idle d2 ++ pre_key
               ++ idle d3 ++ pre_iv ++ idle d4 ++ pre_size
               ++ tail ->
  exists tick,
    new_stream_file_processing w =
      stream_session mode key iv N
        (World tick tail
           (stdout w ++ ["NEW_STREAM_MODE"; "WAIT_OPERATION"; operation_line mode;
                         "ACK"; "WAIT_KEY"; "Custom key received"; "ACK";
                         "WAIT_IV"; "Custom IV received"; "ACK"; "WAIT_SIZE";
                         ("FILE_SIZE:" ++ fmt_lu N); "ACK"]%string)
           (input_buffer w) (output_buffer w)).
Proof.
  intros Hk Hiv HN Hpo Hpk Hpi Hps Hscr.
  destruct (new_stream_prompt w mode d1 pre_op _ Hpo Hscr) as [t1 H1].
  match type of H1 with _ = await_key_iv _ ?x => set (w1 := x) in * end.
  destruct (await_key_iv_prompt w1 mode key iv d2 d3 pre_key pre_iv
              (idle d4 ++ pre_size ++ tail) Hk Hiv Hpk Hpi eq_refl)
    as [t2 H2].
  match type of H2 with _ = await_size _ _ _ ?x => set (w2 := x) in * end.
  destruct (await_size_prompt w2 mode key iv N d4 pre_size tail HN Hps eq_refl)
    as [t3 H3].
  exists t3. rewrite H1, H2, H3. unfold w2, w1.
  cbn [stdout input_buffer output_buffer]. rewrite <- !app_assoc. reflexivity.
Qed.

Lemma b64_payload_line s : b64_payload ("B64:" ++ s) = Some s.
Proof. reflexivity. Qed.

Lemma host_reassembles_skip (l1 l2 : list string) :
  Forall (fun line => b64_payload line = None) l1 ->
  host_reassembles (l1 ++ l2) = host_reassembles l2.
Proof.
  induction l1 as [|line l1 IH]; intros Hall; [reflexivity|].
  apply Forall_cons in Hall as [Hn Hall].
  cbn [app host_reassembles]. rewrite Hn. apply IH. exact Hall.
Qed.

(** From the lines of the streaming loop the host gets the chunk
    outputs, in order. *)
Lemma host_reassembles_lines file_size : forall outs total_received lines,
  stream_lines CHUNK_SIZE file_size total_received outs = Some lines ->
  forall more, host_reassembles (lines ++ more) =
               (tail ← host_reassembles more; Some (concat outs ++ tail)).
Proof.
  induction outs as [|out outs IH]; intros total lines Hlines more.
  - injection Hlines as <-. simpl. destruct (host_reassembles more); reflexivity.
  - cbn [stream_lines] in Hlines.
    destruct (base64_encode out) as [b64|] eqn:Henc; [|discriminate].
    cbn [mbind option_bind] in Hlines.
    destruct (stream_lines CHUNK_SIZE file_size _ outs) as [rest|] eqn:Hrest;
      [|discriminate].
    cbn [mbind option_bind] in Hlines. injection Hlines as <-.
    assert (Hdec : base64_decode b64 = Some out).
    { unfold base64_encode in Henc.
      destruct (base64_iterations (Z.of_nat (length out)) ltac:(lia))
        as (_ & Hl & He).
      destruct (base64_loop_decodes _ 0 out _ b64 ltac:(lia) Hl He ltac:(lia) Henc)
        as [_ Hd].
      rewrite Hd, Z.sub_0_r, Nat2Z.id. simpl drop. rewrite firstn_all.
      reflexivity. }
    rewrite <- ?app_assoc. cbn [app host_reassembles b64_payload].
    rewrite Hdec. cbn [mbind option_bind].
    rewrite (IH _ _ Hrest more).
    destruct (host_reassembles more); cbn [mbind option_bind concat];
      [rewrite app_assoc|]; reflexivity.
Qed.

Lemma stream_lines_length file_size : forall outs total_received lines,
  stream_lines CHUNK_SIZE file_size total_received outs = Some lines ->
  length lines = (5 * length outs)%nat.
Proof.
  induction outs as [|out outs IH]; intros total lines Hlines.
  - injection Hlines as <-. reflexivity.
  - cbn [stream_lines] in Hlines.
    destruct (base64_encode out) as [b64|]; [|discriminate].
    cbn [mbind option_bind] in Hlines.
    destruct (stream_lines CHUNK_SIZE file_size _ outs) as [rest|] eqn:Hrest;
      [|discriminate].
    cbn [mbind option_bind] in Hlines. injection Hlines as <-.
    simpl length. rewrite ?length_app. simpl length. rewrite (IH _ _ Hrest). lia.
Qed.

(** The streaming phase with every chunk of the file delivered in
    time. *)
Lemma stream_session_prompt mode key iv (data : list byte) segments rest outs w :
  1 <= Z.of_nat (length data) <= 1000000 ->
  length (input_buffer w) = 1088%nat -> length (output_buffer w) = 1088%nat ->
  chunks_in_time 1024 data segments ->
  usart_rx w = concat segments ++ rest ->
  let N := Z.of_nat (length data) in
  stream_outputs (Z.to_nat N) mode key N (Session mode iv 0 N false false) 0
    (input_buffer w) (output_buffer w) data = Some outs ->
  exists lines w',
    stream_lines CHUNK_SIZE N 0 outs = Some lines /\
    stream_session mode key iv N w = Ret tt w' /\
    stdout w' = stdout w ++ ["READY_FOR_DATA"%string] ++ lines
                ++ ["STREAM_COMPLETE";
                    "SUMMARY: received=" ++ fmt_lu N ++ ", processed=" ++ fmt_lu N
                      ++ ", chunks=" ++ fmt_lu ((N + 1023) / 1024);
                    "SUCCESS: All data processed"]%string /\
    usart_rx w' = rest /\
    Z.of_nat (length outs) = (N + 1023) / 1024 /\
    length (input_buffer w') = 1088%nat /\ length (output_buffer w') = 1088%nat.
Proof.
  intros Hlen Hin Hout Hseg Hscr N Houts.
  destruct (stream_loop_follows_outputs CHUNK_SIZE_1024 (Z.to_nat N) mode key N
              (Session mode iv 0 N false false) 0 0
              (emit ["READY_FOR_DATA"%string] w) data segments rest outs)
    as (lines & sf & w1 & Hlines & Hrun & Hcount & Hproc & Hstd & Hrx & Hi & Ho);
    try assumption; try (unfold N; simpl; lia).
  exists lines. eexists. split; [exact Hlines|].
  unfold stream_session. rewrite printf_run.
  rewrite (bind_run _ _ _ _ _ Hrun).
  unfold stream_summary. rewrite !printf_run, Z.eqb_refl.
  split; [reflexivity|].
  cbn [total_processed] in Hproc. rewrite Z.sub_0_r in Hproc, Hcount.
  rewrite Hproc, Z.add_0_l, Hcount.
  unfold printf, emit. cbn [stdout usart_rx input_buffer output_buffer].
  rewrite Hstd. cbn [stdout emit]. rewrite <- !app_assoc.
  repeat split; auto.
Qed.

(** X18.  A whole session, end to end, at the chunk capacity of 1024
    with the chunk buffers at their 1088 bytes, and with a host that
    keeps to the prompts and to the time limits: it sends the direction
    ('e' or 'd'), a 16-byte
    key, a 16-byte IV, the size of its file (1 to 1,000,000 bytes) and
    the file in chunks of 1024 bytes, each of the first four only after
    the device has printed the prompt for it and cleared its receive
    side, never pauses for more than 500 ms inside an item, and
    completes the direction within 1 s, the key, the IV and the size
    within 5 s each and every chunk within 10 s.  When every chunk of
    the file goes through the cipher, the device acknowledges each
    item, prints five lines per chunk and the summary with the full
    count of bytes and one chunk per started 1024 bytes, and reports
    success; it has then consumed exactly what the host sent, and the
    payloads of the [B64:] lines the host has read, decoded and put
    together, are the result of the stream. *)
Theorem protocol_end_to_end (w : world) (mode : operation_mode_t)
    (key iv data result : list byte) (d1 d2 d3 d4 : nat)
    (pre_op pre_key pre_iv pre_size : rx_script) (chunks : list rx_script)
    (rest : rx_script) :
  length (input_buffer w) = 1088%nat -> length (output_buffer w) = 1088%nat ->
  length key = 16%nat -> length iv = 16%nat ->
  1 <= Z.of_nat (length data) <= 1000000 ->
  in_time 1000 [op_byte mode] pre_op ->
  in_time 5000 key pre_key ->
  in_time 5000 iv pre_iv ->
  in_time 5000 (size_bytes (Z.of_nat (length data))) pre_size ->
  chunks_in_time 1024 data chunks ->
  usart_rx w = host_script d1 d2 d3 d4 pre_op pre_key pre_iv pre_size chunks ++ rest ->
  stream_file mode key iv (input_buffer w) (output_buffer w) data = Some result ->
  let N := Z.of_nat (length data) in
  exists lines w',
    new_stream_file_processing w = Ret tt w' /\
    let printed :=
      ["NEW_STREAM_MODE"; "WAIT_OPERATION"; operation_line mode; "ACK";
       "WAIT_KEY"; "Custom key received"; "ACK";
       "WAIT_IV"; "Custom IV received"; "ACK";
       "WAIT_SIZE"; "FILE_SIZE:" ++ fmt_lu N; "ACK"; "READY_FOR_DATA"]%string
      ++ lines
      ++ ["STREAM_COMPLETE";
          "SUMMARY: received=" ++ fmt_lu N ++ ", processed=" ++ fmt_lu N
            ++ ", chunks=" ++ fmt_lu ((N + 1023) / 1024);
          "SUCCESS: All data processed"]%string in
    stdout w' = stdout w ++ printed /\
    usart_rx w' = rest /\
    Z.of_nat (length lines) = 5 * ((N + 1023) / 1024) /\
    host_reassembles printed = Some result.
Proof.
  intros Hin Hout Hk Hiv Hlen Hpo Hpk Hpi Hps Hseg Hscr Hfile N.
  unfold stream_file in Hfile. fold N in Hfile.
  destruct (stream_outputs (Z.to_nat N) mode key N _ 0 _ _ data) as [outs|] eqn:Houts;
    [|discriminate].
  cbn [mbind option_bind] in Hfile. injection Hfile as <-.
  destruct (negotiation_prompt w mode key iv N (concat chunks ++ rest) d1 d2 d3 d4
              pre_op pre_key pre_iv pre_size Hk Hiv Hlen Hpo Hpk Hpi Hps)
    as [tick Hneg].
  { rewrite Hscr. unfold host_script. rewrite <- !app_assoc. reflexivity. }
  match type of Hneg with _ = stream_session _ _ _ _ ?x => set (w0 := x) in * end.
  destruct (stream_session_prompt mode key iv data chunks rest outs w0)
    as (lines & w' & Hlines & Hrun & Hstd & Hrx & Hcount & _ & _); try assumption.
  { reflexivity. }
  exists lines, w'. split; [rewrite Hneg; exact Hrun|]. cbv zeta.
  split; [|split; [exact Hrx|split]].
  - rewrite Hstd. unfold w0. cbn [stdout]. fold N. rewrite <- !app_assoc.
    reflexivity.
  - rewrite (stream_lines_length _ _ _ _ Hlines). fold N in Hcount. lia.
  - rewrite (host_reassembles_skip _ (lines ++ _)).
    2:{ destruct mode; repeat (apply Forall_cons; split; [reflexivity|]);
          constructor. }
    rewrite (host_reassembles_lines N outs 0 lines Hlines).
    rewrite <- (app_nil_r [_; _; _]).
    rewrite (host_reassembles_skip _ []).
    2:{ repeat (apply Forall_cons; split; [reflexivity|]); constructor. }
    cbn [host_reassembles mbind option_bind]. rewrite app_nil_r. reflexivity.
Qed.

End Protocol.

End WithCipher.

End FirmwareProperties.

(** * The firmware on concrete inputs *)

Lemma toy_cipher_ok : block_cipher_ok toy_encrypt toy_decrypt.
Proof.
  intros key block Hk Hb. unfold toy_encrypt, toy_decrypt.
  change (zip_with byte.xor) with xor_block.
  repeat split.
  - rewrite xor_block_length, length_rev. lia.
  - rewrite length_rev, xor_block_length. lia.
  - rewrite xor_block_cancel by (rewrite length_rev; lia). apply rev_involutive.
Qed.



(** C2 as stated fails: on the scenario the device reports the chunk as
    16->16, and never as 16->32. *)
Lemma scenario_counterexample :
  exists w,
    toy_firmware (boot_world scenario_script) = Ret tt w /\
    stdout w =
      ["NEW_STREAM_MODE"; "WAIT_OPERATION"; "OPERATION:ENCRYPT"; "ACK";
       "WAIT_KEY"; "Using default key"; "ACK";
       "WAIT_IV"; "Using default IV"; "ACK";
       "WAIT_SIZE"; "FILE_SIZE:16"; "ACK"; "READY_FOR_DATA";
       "WAIT_CHUNK:16"; "CHUNK_RECEIVED:16";
       "B64:HgMABQIHBAkGCwgNCg8MEQ==";
       "CHUNK_PROCESSED:16->16"; "PROGRESS:100%"; "STREAM_COMPLETE";
       "SUMMARY: received=16, processed=16, chunks=1";
       "SUCCESS: All data processed"]%string /\
    ~ In "CHUNK_PROCESSED:16->32"%string (stdout w).
Proof.
  eexists. split; [vm_compute; reflexivity|]. split; [reflexivity|].
  simpl. intuition discriminate.
Qed.

Lemma aligned_final_chunk_is_not_padded_witness :
  let w := boot_world (prompt scenario_chunk) in
  let C := cbc_encrypt toy_encrypt 1 default_key default_iv scenario_chunk in
  length C = 16%nat /\
  exists b64,
    base64_loop 6 0 (C ++ drop 16 (output_buffer w)) 16 = Some b64 /\
    stream_session 1024 toy_encrypt toy_decrypt reject_irregular
      OP_ENCRYPT default_key default_iv 16 w =
    Ret tt
      (World (tick_after (system_tick w) (prompt scenario_chunk)) []
         (stdout w ++ ["READY_FOR_DATA"%string;
                       "WAIT_CHUNK:16"%string;
                       "CHUNK_RECEIVED:16"%string;
                       ("B64:" ++ b64)%string;
                       "CHUNK_PROCESSED:16->16"%string;
                       "PROGRESS:100%"%string;
                       "STREAM_COMPLETE"%string;
                       "SUMMARY: received=16, processed=16, chunks=1"%string;
                       "SUCCESS: All data processed"%string])
         (scenario_chunk ++ drop 16 (input_buffer w))
         (C ++ drop 16 (output_buffer w))).
Proof.
  intros w.
  apply (aligned_final_chunk_is_not_padded 1024 toy_encrypt toy_decrypt
           reject_irregular toy_cipher_ok eq_refl w []);
    reflexivity.
Defined.

Ltac solve_in_time :=
  split; [vm_compute; reflexivity|];
  split; [vm_compute; intuition discriminate|intros dt; vm_compute; discriminate].


Lemma pkcs7_padding_unpadding_roundtrip_witness :
  exists padded,
    pkcs7_padding (replicate 48 Byte.x41) 16 16 = Some (padded, 32) /\
    pkcs7_unpadding padded 32 = Some (0, padded, 16).
Proof.
  destruct (pkcs7_padding_unpadding_roundtrip (replicate 48 Byte.x41) 16)
    as (padded & Hpad & _ & _ & _ & _ & _ & _ & _ & Hunpad);
    [lia | vm_compute; reflexivity | vm_compute; discriminate |].
  exists padded. split; [exact Hpad | exact Hunpad].
Defined.

Lemma pkcs7_unpadding_invalid_padding_witness :
  let data := map byte.of_Z [7; 7; 2; 3; 3] in
  exists r len',
    pkcs7_unpadding data 5 = Some (r, data, len') /\
    (r = -1 -> len' = 5).
Proof.
  intros data.
  destruct (pkcs7_unpadding_invalid_padding data 5)
    as (r & len' & Hrun & _ & _ & Hfail & _);
    [vm_compute; split; discriminate | reflexivity |].
  exists r, len'. split; [exact Hrun | exact Hfail].
Defined.

(** C6 as stated fails: with a budget of 4,294,968 ms the product
    [timeout_ms * 1000] wraps to 704 us, and a call that has received
    one byte of four gives up at a poll 1 ms after the start, when the
    line has been silent for 1 ms and the budget is not used up. *)
Lemma read_exact_data_contract_counterexample :
  let w := boot_world (prompt [Byte.x41] ++ idle 1
                       ++ prompt [Byte.x42; Byte.x43; Byte.x44]) in
  exists data' w',
    read_exact_data (replicate 4 Byte.x00) 4 4294968 w = Ret (1, data') w' /\
    1 < 4 /\
    forall pre, usart_rx w = pre ++ usart_rx w' ->
      elapsed pre = 1 /\ silence 0 pre = 1 /\
      ~ (500 < silence 0 pre \/ 4294968 < elapsed pre).
Proof.
  intros w. eexists. eexists. split; [vm_compute; reflexivity|].
  split; [lia|]. intros pre Hpre. simpl in Hpre.
  change [(0%nat, Some Byte.x41); (1%nat, None); (0%nat, Some Byte.x42);
          (0%nat, Some Byte.x43); (0%nat, Some Byte.x44)]
    with ([(0%nat, Some Byte.x41); (1%nat, None)]
          ++ [(0%nat, Some Byte.x42); (0%nat, Some Byte.x43);
              (0%nat, Some Byte.x44)]) in Hpre.
  apply app_inv_tail in Hpre. subst pre. simpl. lia.
Defined.

Lemma read_exact_data_contract_witness :
  let w := boot_world (prompt scenario_chunk ++ idle 3) in
  read_exact_data (replicate 16 Byte.x00) 16 5000 w =
    Ret (16, scenario_chunk)
        (World 0 (idle 3) [] (input_buffer w) (output_buffer w)).
Proof.
  intros w.
  destruct (read_exact_data_contract (replicate 16 Byte.x00) 16 5000 w)
    as [_ Hfull]; [lia | lia | lia |].
  exact (Hfull (prompt scenario_chunk) (idle 3) eq_refl eq_refl
           ltac:(vm_compute; discriminate)
           (no_timeout_prompt 5000 scenario_chunk 0 0)
           (last_prompt scenario_chunk)).
Defined.

Lemma await_size_accepts_1_to_1000000_witness :
  let w := boot_world (idle 0 ++ prompt (map byte.of_Z [0; 15; 66; 65])) in
  await_size 1024 toy_encrypt toy_decrypt reject_irregular
    OP_ENCRYPT default_key default_iv w =
  Ret tt (World 0 [] ["WAIT_SIZE"%string; "FILE_SIZE:1000001"%string;
                      "ERROR:Invalid file size"%string]
            zero_buffer zero_buffer).
Proof.
  intros w.
  destruct (await_size_accepts_1_to_1000000 1024 toy_encrypt toy_decrypt
              reject_irregular OP_ENCRYPT default_key default_iv w
              (World 0 (prompt (map byte.of_Z [0; 15; 66; 65]))
                 ["WAIT_SIZE"%string] zero_buffer zero_buffer)
              (World 0 [] ["WAIT_SIZE"%string] zero_buffer zero_buffer)
              4 (map byte.of_Z [0; 15; 66; 65]) eq_refl eq_refl)
    as [[[Hn _] | [_ (b0 & b1 & b2 & b3 & Heq & _ & Hc)]] _].
  - exfalso. apply Hn. reflexivity.
  - injection Heq as <- <- <- <-.
    destruct Hc as [[_ Hrej] | [Hacc _]].
    + exact Hrej.
    + exfalso. vm_compute in Hacc. destruct Hacc as [_ Hacc]. apply Hacc. reflexivity.
Defined.

Lemma invalid_padding_is_not_fatal_witness :
  let w := boot_world (prompt garbled_ciphertext) in
  let session := Session OP_DECRYPT default_iv 0 16 false false in
  exists b64 w1 buf out1,
    (stream_loop 1024 toy_encrypt toy_decrypt reject_irregular 1 OP_DECRYPT
       default_key 16 session 0 0
     ≫= stream_summary 16) w =
    Ret tt
      (World (system_tick w1) (usart_rx w1)
         (stdout w ++ ["WAIT_CHUNK:16"%string;
                       "CHUNK_RECEIVED:16"%string;
                       ("B64:" ++ b64)%string;
                       "CHUNK_PROCESSED:16->16"%string;
                       "PROGRESS:100%"%string;
                       "STREAM_COMPLETE"%string;
                       "SUMMARY: received=16, processed=16, chunks=1"%string;
                       "SUCCESS: All data processed"%string])
         buf out1).
Proof.
  intros w session.
  edestruct (invalid_padding_is_not_fatal 1024 toy_encrypt toy_decrypt
               reject_irregular eq_refl 0%nat default_key 16 session 0 0 w)
    as [_ (b64 & _ & Hrun)].
  - lia.
  - lia.
  - lia.
  - reflexivity.
  - vm_compute. reflexivity.
  - vm_compute. reflexivity.
  - vm_compute. reflexivity.
  - vm_compute. reflexivity.
  - vm_compute. reflexivity.
  - vm_compute. reflexivity.
  - eexists b64, _, _, _. exact Hrun.
Defined.

Lemma unpadding_guarded_by_last_byte_witness :
  let input_data := twenty_ciphertext ++ replicate 1056 Byte.x00 in
  let session := Session OP_DECRYPT default_iv 0 32 false true in
  exists r,
    process_file_chunk_with_key 1024 toy_encrypt toy_decrypt reject_irregular
      OP_DECRYPT input_data 32 zero_buffer session default_key = Some r /\
    cr_ret r = 0 /\
    cr_output r = replicate 12 Byte.x00 ++ replicate 20 (byte.of_Z 20)
                    ++ replicate 1056 Byte.x00 /\
    cr_output_len r = 32.
Proof.
  intros input_data session.
  edestruct (unpadding_guarded_by_last_byte 1024 toy_encrypt toy_decrypt
               reject_irregular input_data 32 zero_buffer session default_key)
    as (_ & (r & Hrun & Hret & Hout & Hlen) & _).
  - reflexivity.
  - vm_compute. reflexivity.
  - vm_compute. reflexivity.
  - vm_compute. reflexivity.
  - right. vm_compute. reflexivity.
  - vm_compute. reflexivity.
  - exists r. repeat split; assumption.
Defined.

Lemma base64_buffer_error_unreachable_witness :
  1 <= chunk_size_of 1024 2500 2048 <= 1024 /\
  chunk_size_of 1024 2500 2048 = Z.min 1024 (2500 - 2048).
Proof.
  apply (proj1 (base64_buffer_error_unreachable 1024 toy_encrypt toy_decrypt
                  reject_irregular eq_refl)); lia.
Defined.

(** ** The further properties on concrete inputs *)

Lemma get_char_contract_witness :
  let w := boot_world (idle 2 ++ idle 1 ++ prompt [byte.of_Z 110]) in
  _get_char w = Ret 110 (World 3 [] [] zero_buffer zero_buffer).
Proof.
  intros w.
  destruct (get_char_contract w (idle 2 ++ idle 1) (prompt [byte.of_Z 110])
              eq_refl eq_refl) as [Hbyte _].
  exact (Hbyte 0%nat (byte.of_Z 110) [] eq_refl ltac:(simpl; lia)).
Defined.

Lemma clear_receive_buffer_drains_witness :
  let w := boot_world (prompt (map byte.of_Z [1; 2; 3]) ++ idle 0 ++ prompt [Byte.x04]) in
  clear_receive_buffer w =
    Ret tt (World 0 (prompt [Byte.x04]) [] zero_buffer zero_buffer).
Proof.
  intros w.
  destruct (clear_receive_buffer_drains w (prompt (map byte.of_Z [1; 2; 3])))
    as [Hdrain _].
  - repeat (apply Forall_cons; split; [discriminate|]). constructor.
  - exact (Hdrain 0%nat (prompt [Byte.x04]) eq_refl).
Defined.

Lemma read_exact_data_gives_up_witness :
  let w := boot_world (prompt [Byte.x41] ++ idle 501 ++ prompt [Byte.x42]) in
  read_exact_data (replicate 4 Byte.x00) 4 5000 w =
    Ret (1, Byte.x41 :: replicate 3 Byte.x00)
        (World 501 (prompt [Byte.x42]) [] zero_buffer zero_buffer).
Proof.
  intros w.
  apply (read_exact_data_gives_up (replicate 4 Byte.x00) 4 5000 w
           (prompt [Byte.x41]) 501 (prompt [Byte.x42]));
    try reflexivity; simpl; lia.
Defined.


Lemma base64_line_decodes_witness :
  let data := map byte.of_Z [77; 97; 110; 64] ++ replicate 4 Byte.x00 in
  exists s,
    send_encrypted_data_base64 data 4 (boot_world []) =
      Ret tt (emit [("B64:" ++ s)%string] (boot_world [])) /\
    base64_decode s = Some (map byte.of_Z [77; 97; 110; 64]).
Proof.
  intros data.
  apply (base64_line_decodes data 4 (boot_world [])); simpl; lia.
Defined.

Lemma base64_size_check_witness :
  send_encrypted_data_base64 (replicate 1200 Byte.x00) 1123 (boot_world []) =
    Ret tt (emit ["ERROR: Base64 buffer too small"%string] (boot_world [])) /\
  send_encrypted_data_base64 (replicate 1200 Byte.x00) 3221225470 (boot_world []) =
    Stuck OutOfBounds.
Proof.
  destruct (base64_size_check (replicate 1200 Byte.x00) 1123 (boot_world []))
    as (_ & Herror & _).
  destruct (base64_size_check (replicate 1200 Byte.x00) 3221225470 (boot_world []))
    as (_ & _ & Hwrap).
  split; [apply Herror; lia|apply Hwrap; [lia|vm_compute; reflexivity]].
Defined.

Lemma base64_encode_injective_witness :
  map byte.of_Z [77; 97] = [Byte.x4d; Byte.x61].
Proof.
  apply (base64_encode_injective (map byte.of_Z [77; 97]) [Byte.x4d; Byte.x61]
           "TWE="%string);
    reflexivity.
Defined.

Lemma pkcs7_padding_block_sizes_witness :
  exists padded,
    pkcs7_padding (replicate 16 Byte.x41) 5 8 = Some (padded, 8) /\
    pkcs7_unpadding padded 8 = Some (0, padded, 5).
Proof.
  destruct (pkcs7_padding_block_sizes (replicate 16 Byte.x41) 5)
    as [Hsmall _]; [lia|vm_compute; reflexivity|].
  destruct (Hsmall 8 ltac:(lia) ltac:(vm_compute; discriminate))
    as (padded & Hpad & _ & _ & _ & Hunpad).
  exists padded. split; [exact Hpad|exact Hunpad].
Defined.



Lemma chunk_accounting_witness :
  let session := Session OP_DECRYPT default_iv 100 21 false true in
  match process_file_chunk_with_key 1024 toy_encrypt toy_decrypt reject_irregular
          OP_DECRYPT zero_buffer 21 zero_buffer session default_key with
  | Some r => cr_ret r = -1 /\ cr_session r = session
  | None => False
  end.
Proof.
  intros session.
  destruct (process_file_chunk_with_key 1024 toy_encrypt toy_decrypt
              reject_irregular OP_DECRYPT zero_buffer 21 zero_buffer session
              default_key) as [r|] eqn:Hrun; [|vm_compute in Hrun; discriminate].
  destruct (chunk_accounting 1024 toy_encrypt toy_decrypt reject_irregular
              OP_DECRYPT zero_buffer 21 zero_buffer session default_key r Hrun)
    as [[H0 _]|Hfail]; [|exact Hfail].
  vm_compute in Hrun. injection Hrun as <-. discriminate.
Defined.

Lemma operation_selection_witness :
  let w := boot_world (idle 0 ++ prompt [byte.of_Z 120]) in
  toy_firmware w =
    Ret tt (World 0 [] ["NEW_STREAM_MODE"; "WAIT_OPERATION";
                        "ERROR:Invalid operation"]%string
                  zero_buffer zero_buffer).
Proof.
  intros w.
  destruct (operation_selection 1024 toy_encrypt toy_decrypt reject_irregular w
              (World 0 (prompt [byte.of_Z 120])
                 ["NEW_STREAM_MODE"; "WAIT_OPERATION"]%string
                 zero_buffer zero_buffer)
              (World 0 [] ["NEW_STREAM_MODE"; "WAIT_OPERATION"]%string
                 zero_buffer zero_buffer)
              1 [byte.of_Z 120] eq_refl eq_refl)
    as [[Hn _]|(_ & b & Hb & [[Hc _]|[[Hc _]|(_ & _ & _ & _ & Hrun)]])].
  - exfalso. apply Hn. reflexivity.
  - exfalso. injection Hb as <-. vm_compute in Hc. destruct Hc; discriminate.
  - exfalso. injection Hb as <-. vm_compute in Hc. destruct Hc; discriminate.
  - exact Hrun.
Defined.

Lemma key_iv_fallback_witness :
  let w := World 0 (idle 0 ++ prompt (replicate 3 Byte.x41) ++ idle 501
                    ++ idle 0 ++ prompt (replicate 16 Byte.x42))
             [] zero_buffer zero_buffer in
  await_key_iv 1024 toy_encrypt toy_decrypt reject_irregular OP_ENCRYPT w =
  await_size 1024 toy_encrypt toy_decrypt reject_irregular OP_ENCRYPT
    default_key (replicate 16 Byte.x42)
    (World 501 []
       ["WAIT_KEY"; "Using default key"; "ACK"; "WAIT_IV";
        "Custom IV received"; "ACK"]%string
       zero_buffer zero_buffer).
Proof.
  intros w.
  exact (proj1 (key_iv_fallback 1024 toy_encrypt toy_decrypt reject_irregular
                  OP_ENCRYPT w
                  (World 0 (prompt (replicate 3 Byte.x41) ++ idle 501
                            ++ idle 0 ++ prompt (replicate 16 Byte.x42))
                     ["WAIT_KEY"%string] zero_buffer zero_buffer)
                  (World 501 (idle 0 ++ prompt (replicate 16 Byte.x42))
                     ["WAIT_KEY"%string] zero_buffer zero_buffer)
                  (World 501 (prompt (replicate 16 Byte.x42))
                     ["WAIT_KEY"; "Using default key"; "ACK"; "WAIT_IV"]%string
                     zero_buffer zero_buffer)
                  (World 501 []
                     ["WAIT_KEY"; "Using default key"; "ACK"; "WAIT_IV"]%string
                     zero_buffer zero_buffer)
                  3 16
                  (replicate 3 Byte.x41 ++ replicate 13 Byte.x00)
                  (replicate 16 Byte.x42)
                  eq_refl eq_refl eq_refl eq_refl)).
Defined.

Lemma failed_chunk_verdict_witness :
  let w := World 0 (prompt (replicate 5 Byte.x41)) [] zero_buffer zero_buffer in
  let session := Session OP_DECRYPT default_iv 0 5 false false in
  (stream_loop 1024 toy_encrypt toy_decrypt reject_irregular 5 OP_DECRYPT
     default_key 5 session 0 0 ≫= stream_summary 5) w =
  Ret tt
    (World 0 []
       ["WAIT_CHUNK:5"; "CHUNK_RECEIVED:5"; "B64:"; "CHUNK_PROCESSED:5->0";
        "STREAM_COMPLETE"; "SUMMARY: received=5, processed=0, chunks=1";
        "SUCCESS: All data processed"]%string
       (replicate 5 Byte.x41 ++ replicate 1083 Byte.x00) zero_buffer).
Proof.
  intros w session.
  apply (failed_chunk_verdict 1024 toy_encrypt toy_decrypt reject_irregular 4
           OP_DECRYPT default_key 5 session 0 0 w
           (World 0 [] ["WAIT_CHUNK:5"%string] zero_buffer zero_buffer)
           (replicate 5 Byte.x41 ++ replicate 1083 Byte.x00)
           (ChunkResult (-1) 0 (set_is_last_chunk session true)
              (replicate 5 Byte.x41 ++ replicate 1083 Byte.x00) zero_buffer));
    try reflexivity; try lia.
  discriminate.
Defined.

Lemma short_chunk_ends_session_witness :
  let w := World 0 (prompt (replicate 3 Byte.x41) ++ idle 501) []
             zero_buffer zero_buffer in
  let session := Session OP_ENCRYPT default_iv 0 16 false false in
  (stream_loop 1024 toy_encrypt toy_decrypt reject_irregular 16 OP_ENCRYPT
     default_key 16 session 0 0 ≫= stream_summary 16) w =
  Ret tt
    (World 501 []
       ["WAIT_CHUNK:16"; "STREAM_COMPLETE";
        "SUMMARY: received=0, processed=0, chunks=1";
        "WARNING: Incomplete: expected=16, received=0"]%string
       (replicate 3 Byte.x41 ++ replicate 1085 Byte.x00) zero_buffer).
Proof.
  intros w session.
  apply (short_chunk_ends_session 1024 toy_encrypt toy_decrypt reject_irregular 15
           OP_ENCRYPT default_key 16 session 0 0 w
           (World 501 [] ["WAIT_CHUNK:16"%string] zero_buffer zero_buffer)
           3 (replicate 3 Byte.x41 ++ replicate 1085 Byte.x00));
    try reflexivity; try lia.
  discriminate.
Defined.

Lemma session_stays_in_bounds_witness :
  match toy_firmware (boot_world scenario_script) with
  | Ret _ w' => buffers_ok 1024 w'
  | Stuck why => why = Starved
  end.
Proof.
  apply (session_stays_in_bounds 1024 toy_encrypt toy_decrypt reject_irregular
           toy_cipher_ok eq_refl (fun _ _ => eq_refl)).
  split; reflexivity.
Defined.

Lemma main_stays_in_bounds_witness :
  match main 1024 toy_encrypt toy_decrypt reject_irregular 2
          (boot_world (idle 0 ++ prompt [byte.of_Z 110] ++ scenario_script
                       ++ idle 0 ++ idle 0 ++ prompt [byte.of_Z 114]
                       ++ idle 0)) with
  | Ret _ w' => buffers_ok 1024 w'
  | Stuck why => why = Starved
  end.
Proof.
  apply (main_stays_in_bounds 1024 toy_encrypt toy_decrypt reject_irregular
           toy_cipher_ok eq_refl (fun _ _ => eq_refl)).
  split; reflexivity.
Defined.

Lemma protocol_end_to_end_witness :
  let data := replicate 1030 Byte.x41 in
  let iv := replicate 16 Byte.x07 in
  let pre_op := idle 10 ++ prompt [op_byte OP_ENCRYPT] in
  let pre_key := prompt (take 8 default_key) ++ idle 300
                 ++ prompt (drop 8 default_key) in
  let pre_iv := prompt iv in
  let pre_size := idle 499 ++ prompt (size_bytes 1030) in
  let chunks := [idle 2 ++ prompt (take 1024 data);
                 prompt (take 3 (drop 1024 data)) ++ idle 400
                 ++ prompt (drop 1027 data)] in
  let w := boot_world (host_script 0 1 2 3 pre_op pre_key pre_iv pre_size chunks) in
  exists result w',
    toy_stream_file OP_ENCRYPT default_key iv zero_buffer zero_buffer data
      = Some result /\
    toy_firmware w = Ret tt w' /\
    host_reassembles (stdout w') = Some result /\
    usart_rx w' = [].
Proof.
  intros data iv pre_op pre_key pre_iv pre_size chunks w.
  destruct (toy_stream_file OP_ENCRYPT default_key iv zero_buffer zero_buffer data)
    as [result|] eqn:Hfile; [|vm_compute in Hfile; discriminate].
  destruct (protocol_end_to_end 1024 toy_encrypt toy_decrypt reject_irregular
              eq_refl w OP_ENCRYPT default_key iv data result
              0 1 2 3 pre_op pre_key pre_iv pre_size chunks [])
    as (lines & w' & Hrun & Hout & Hrx & _ & Hhost).
  1-4: reflexivity.
  1: vm_compute; split; discriminate.
  1-4: solve_in_time.
  1: split; [discriminate|]; split; [solve_in_time|];
     split; [discriminate|]; split; [solve_in_time|reflexivity].
  1: vm_compute; reflexivity.
  1: exact Hfile.
  exists result, w'. split; [reflexivity|]. split; [exact Hrun|].
  split; [|exact Hrx]. cbv zeta in Hout. rewrite Hout. exact Hhost.
Defined.
